(** * DashBoard_Temp: the alert pipeline of the telemetry microservice

    A shallow embedding of the alert-detection and alert-delivery code of
    [app/module/database.py], [app/module/alertas.py],
    [app/module/alertas_manager.py], [app/module/correo.py] and the
    scheduler loop of [app/main.py], followed by the properties of the
    specification that were checked against it. The address validator
    of [correo.py] and the websocket endpoint of [main.py] are embedded
    as well, with properties read off the code.

    Modelling choices, valid for the whole file:
    - numeric sensor values are exact rationals ([Q]): the store hands
      [Decimal] values to Python ([main.py] serialises them), and
      [Decimal] subtraction and comparison against the float literals
      of the rules are exact;
    - a [datetime] is an integer number of microseconds ([Z]); a
      [timedelta] is their difference;
    - a Python exception is a value of [excepcion]; code that may raise
      returns a [resultado];
    - the process-wide mutable objects (the [alert_manager] singleton,
      the mailer calls made so far, the [logging] output) form the
      record [proceso], threaded through a state-and-exception monad;
    - what the code reads from outside (configuration files, the clock,
      the rows fetched from MariaDB, the file a mail may attach, the
      behaviour of the SMTP server) is the record [entorno];
    - the configuration files are well-formed: [thresholds] has its two
      numeric keys, [intervalo_envio_min] is a whole number of minutes,
      the SMTP credentials are the five expected fields;
    - what [print] writes to the console is not part of the model. *)

From Stdlib Require Import ZArith QArith Qround List String Ascii Bool Lia.
From Stdlib Require Import Permutation Sorted DecimalString.
Import ListNotations.

Open Scope Z_scope.
Open Scope Q_scope.
Open Scope string_scope.
Open Scope list_scope.

(** ** Results and exceptions *)

(** The exception classes that the modelled code can meet. *)
Inductive excepcion : Type :=
| TypeError                        (* an operation applied to [None] *)
| StoreError                       (* [mariadb.Error] from connect/execute *)
| SMTPAuthenticationError
| SMTPSenderRefused
| SMTPRecipientsRefused
| SMTPDataError
| SMTPException (msg : string)     (* any other [smtplib.SMTPException] *)
| ExcepcionNoSMTP (clase : string) (* outside the [SMTPException] family:
                                      [ConnectionRefusedError],
                                      [socket.gaierror], [TimeoutError],
                                      [ssl.SSLError], ... *).

Inductive resultado (A : Type) : Type :=
| Ok (a : A)
| Raise (e : excepcion).
Arguments Ok {A} a.
Arguments Raise {A} e.

Definition rbind {A B} (r : resultado A) (f : A -> resultado B) : resultado B :=
  match r with
  | Ok a => f a
  | Raise e => Raise e
  end.

(** ** Data model *)

(** A row of [telemetria_sensores] as fetched with [dictionary=True]. *)
Record fila : Type := {
  ubicacion : string;
  temperatura : option Q;          (* NULL is [None] *)
  fecha_hora : Z                   (* microseconds *)
}.

(** An alert dict [{"ubicacion": .., "nivel": .., "texto": ..}]. *)
Record alerta : Type := {
  alerta_ubicacion : string;
  nivel : string;
  texto : string
}.

(** ** Number formatting used by the f-strings *)

(** Nearest integer to [n/d] ([0 <= n], [0 < d]), ties to even. *)
Definition redondeo_par (n d : Z) : Z :=
  let q := (n / d)%Z in
  let r := (n mod d)%Z in
  if (2 * r <? d)%Z then q
  else if (d <? 2 * r)%Z then (q + 1)%Z
  else if Z.even q then q else (q + 1)%Z.

Definition digitos (z : Z) : string :=
  NilZero.string_of_uint (N.to_uint (Z.to_N z)).

Definition Qnegativo (x : Q) : bool := (Qnum x <? 0)%Z.

(** [f"{x:+.1f}"]: explicit sign, one decimal place. *)
Definition fmt_signo_1f (x : Q) : string :=
  let m := redondeo_par (Z.abs (Qnum x) * 10) (Zpos (Qden x)) in
  ((if Qnegativo x then "-" else "+")
     ++ digitos (m / 10) ++ "." ++ digitos (m mod 10))%string.

(** [f"{x:.0f}"]: nearest whole number. *)
Definition fmt_0f (x : Q) : string :=
  let m := redondeo_par (Z.abs (Qnum x)) (Zpos (Qden x)) in
  ((if Qnegativo x then "-" else EmptyString) ++ digitos m)%string.

(** ** [list.sort(key=...)]: a stable sort on an integer key *)

Section Sort.
Context {A : Type} (key : A -> Z).

Fixpoint insertar (x : A) (l : list A) : list A :=
  match l with
  | [] => [x]
  | y :: l' =>
      if (key x <=? key y)%Z then x :: l else y :: insertar x l'
  end.

Fixpoint sort_key (l : list A) : list A :=
  match l with
  | [] => []
  | x :: l' => insertar x (sort_key l')
  end.
End Sort.

(** [dict.get(k, default)] on a dict written as its item list. *)
Fixpoint dict_get {V : Type} (d : list (string * V)) (k : string) (defecto : V) : V :=
  match d with
  | [] => defecto
  | (k', v) :: d' => if String.eqb k' k then v else dict_get d' k defecto
  end.

Definition prioridad : list (string * Z) :=
  [("roja", 0%Z); ("amarilla", 1%Z); ("azul", 2%Z)].

(** The sort key [lambda x: prioridad.get(x["nivel"], defecto)]. *)
Definition clave_prioridad (defecto : Z) (x : alerta) : Z :=
  dict_get prioridad (nivel x) defecto.

(** ** database.py: [detect_temperature_spikes], lines 168-211 *)

(** [datos.setdefault(loc, []).append(r)] on an insertion-ordered dict. *)
Fixpoint setdefault_append (loc : string) (r : fila)
    (datos : list (string * list fila)) : list (string * list fila) :=
  match datos with
  | [] => [(loc, [r])]
  | (k, v) :: resto =>
      if String.eqb k loc then (k, v ++ [r]) :: resto
      else (k, v) :: setdefault_append loc r resto
  end.

(** Lines 172-175: group the rows by location. *)
Definition agrupar (rows : list fila) : list (string * list fila) :=
  fold_left (fun datos r => setdefault_append (ubicacion r) r datos) rows [].

(** Lines 186-191: [for i in range(n - 1, -1, -1)] looking for a reading
    with a temperature; [None] is the [else: continue] exit. *)
Fixpoint buscar_anterior (lecturas : list fila) (n : nat) : option fila :=
  match n with
  | O => None
  | S i =>
      match nth_error lecturas i with
      | Some anterior =>
          match temperatura anterior with
          | Some _ => Some anterior
          | None => buscar_anterior lecturas i
          end
      | None => None
      end
  end.

(** [timedelta.total_seconds()]. Python computes it and the division by
    60 in floating point; a difference of whole microseconds is never
    closer to 0, 10, 15 or 20 minutes than the rounding error without
    being equal to it, so the comparisons of lines 196-205 agree with
    the exact ones made here. *)
Definition total_seconds (td : Z) : Q := inject_Z td / 1000000.

(** [a - b] where either operand may be [None]. *)
Definition restar (a b : option Q) : resultado Q :=
  match a, b with
  | Some x, Some y => Ok (x - y)
  | _, _ => Raise TypeError
  end.

(** Lines 196-206: the guard and the three rules, first match wins. *)
Definition clasificar_spike (ubic : string) (delta_temp delta_min : Q) : option alerta :=
  if Qle_bool delta_min 0 || negb (Qle_bool delta_min 20) then None
  else
    let texto := (ubic ++ ": " ++ fmt_signo_1f delta_temp ++ "°C en "
                       ++ fmt_0f delta_min ++ " min")%string in
    if Qle_bool 4 delta_temp && Qle_bool delta_min 10 then
      Some {| alerta_ubicacion := ubic; nivel := "roja";
              texto := ("SUBIDA CRÍTICA → " ++ texto ++ " ¡POSIBLE EMERGENCIA!")%string |}
    else if Qle_bool 2.5 delta_temp && Qle_bool delta_min 10 then
      Some {| alerta_ubicacion := ubic; nivel := "amarilla";
              texto := ("Subida rápida → " ++ texto)%string |}
    else if Qle_bool delta_temp (-5) && Qle_bool delta_min 15 then
      Some {| alerta_ubicacion := ubic; nivel := "azul";
              texto := ("Bajada brusca → " ++ texto ++ " → Revisar sensor")%string |}
    else None.

(** Lines 180-206: the body of the loop over [datos.items()]; [Ok None]
    is an iteration that appends nothing. *)
Definition spike_de_grupo (ubic : string) (grupo : list fila) : resultado (option alerta) :=
  if (List.length grupo <? 2)%nat then Ok None
  else
    let lecturas := sort_key fecha_hora grupo in
    match nth_error lecturas (List.length lecturas - 1) with
    | None => Ok None
    | Some ultima =>
        match buscar_anterior lecturas (List.length lecturas - 1) with
        | None => Ok None
        | Some anterior =>
            rbind (restar (temperatura ultima) (temperatura anterior))
              (fun delta_temp =>
                 let delta_min :=
                   total_seconds (fecha_hora ultima - fecha_hora anterior) / 60 in
                 Ok (clasificar_spike ubic delta_temp delta_min))
        end
    end.

(** Lines 177-206: the loop, appending to [alertas]. *)
Fixpoint recorrer_grupos (datos : list (string * list fila)) (alertas : list alerta)
    : resultado (list alerta) :=
  match datos with
  | [] => Ok alertas
  | (ubic, lecturas) :: resto =>
      match spike_de_grupo ubic lecturas with
      | Ok None => recorrer_grupos resto alertas
      | Ok (Some a) => recorrer_grupos resto (alertas ++ [a])
      | Raise e => Raise e
      end
  end.

(** Lines 168-211, from the fetched [rows] to the returned list. *)
Definition spikes_de_rows (rows : list fila) : resultado (list alerta) :=
  match rows with
  | [] => Ok []
  | _ =>
      rbind (recorrer_grupos (agrupar rows) [])
        (fun alertas =>
           Ok (sort_key (clave_prioridad 9) alertas))
  end.

(** ** Configuration, environment and process state *)

(** [config/parametros.json]. Keys read with [.get(k, default)] are
    optional; [thresholds] and its two keys are read with [[]]. *)
Record umbrales : Type := { warning : Q; danger : Q }.
Record alertas_cfg : Type := { detectar_spikes : option bool }.
Record email_cfg : Type := {
  enabled : option bool;
  intervalo_envio_min : option Z;
  destinatarios : option (list string)
}.
Record parametros : Type := {
  thresholds : umbrales;
  alertas : option alertas_cfg;
  email : option email_cfg
}.

(** The ["smtp"] entry of [config/credenciales.json]:
    [[remitente, servidor_smtp, puerto, usuario, contraseña]]. *)
Record credenciales : Type := {
  remitente : string;
  smtp_server : string;
  smtp_port : Z;
  smtp_user : string;
  smtp_pass : string
}.

(** The MIME message assembled by [EnviarCorreoSSL]. The attached
    part, when there is one, is its [Content-Disposition] header and
    the bytes read from the file (its payload before the base64
    transfer encoding). *)
Record mensaje_mime : Type := {
  Subject : string;
  From : string;
  To : string;
  Bcc : option string;
  cuerpo_html : string;
  adjunto : option (string * string)
}.

(** Everything a call reads from outside the process. *)
Record entorno : Type := {
  config : parametros;
  smtp_credenciales : credenciales;
  ahora : Z;                                            (* [datetime.now()] *)
  fetch_latest : option string -> resultado (list fila);  (* rows of the
                                   query of [get_latest_readings] *)
  fetch_ventana : option string -> resultado (list fila); (* rows of the
                                   query of [detect_temperature_spikes] *)
  isfile : string -> bool;
  leer_archivo : string -> resultado string;   (* [open(p, "rb").read()] *)
  sesion_smtp : credenciales -> mensaje_mime -> option excepcion
                              (* the [with smtplib.SMTP_SSL(...)] block:
                                 [None] when it completes, else what it raises *)
}.

(** [AlertManager], lines 45-47. *)
Record AlertManager : Type := {
  last_alert_sent : option Z;
  ultimas_alertas : list alerta
}.

(** One call of [EnviarCorreoSSL], kept to count mailer invocations. *)
Record llamada : Type := {
  destinatario : string;
  asunto : string;
  cuerpo : string
}.

(** The mutable state of the running process. *)
Record proceso : Type := {
  alert_manager : AlertManager;       (* the module-level singleton *)
  llamadas_mailer : list llamada;     (* oldest first *)
  registro : list (string * string)   (* [logging] records, oldest first *)
}.

(** [alert_manager = AlertManager()] at import time. *)
Definition proceso_inicial : proceso :=
  {| alert_manager := {| last_alert_sent := None; ultimas_alertas := [] |};
     llamadas_mailer := [];
     registro := [] |}.

(** ** The state-and-exception monad *)

Definition M (A : Type) : Type := proceso -> resultado A * proceso.

Definition ret {A} (a : A) : M A := fun w => (Ok a, w).

Definition bind {A B} (m : M A) (f : A -> M B) : M B :=
  fun w =>
    match m w with
    | (Ok a, w') => f a w'
    | (Raise e, w') => (Raise e, w')
    end.

Definition lift {A} (r : resultado A) : M A := fun w => (r, w).

Notation "x <- m ;; k" := (bind m (fun x => k))
  (at level 61, m at next level, right associativity).
Notation "m ;;; k" := (bind m (fun _ => k))
  (at level 61, right associativity).

Definition logging (level msg : string) : M unit :=
  fun w => (Ok tt, {| alert_manager := alert_manager w;
                      llamadas_mailer := llamadas_mailer w;
                      registro := registro w ++ [(level, msg)] |}).

Definition anotar_llamada (c : llamada) : M unit :=
  fun w => (Ok tt, {| alert_manager := alert_manager w;
                      llamadas_mailer := llamadas_mailer w ++ [c];
                      registro := registro w |}).

Definition set_alert_manager (am : AlertManager) : M unit :=
  fun w => (Ok tt, {| alert_manager := am;
                      llamadas_mailer := llamadas_mailer w;
                      registro := registro w |}).

Definition get_alert_manager : M AlertManager :=
  fun w => (Ok (alert_manager w), w).

(** ** database.py: the two readers used by the pipeline *)

(** [get_latest_readings], lines 84-101. *)
Definition get_latest_readings (ent : entorno) (location_filter : option string)
    : M (list fila) :=
  lift (fetch_latest ent location_filter).

(** A string is falsy when empty. *)
Definition truthy (s : option string) : bool :=
  match s with
  | Some (String _ _) => true
  | _ => false
  end.

(** [detect_temperature_spikes], lines 149-211: [if location:] decides
    whether the query filters. *)
Definition detect_temperature_spikes (ent : entorno) (location : option string)
    : M (list alerta) :=
  rows <- lift (fetch_ventana ent (if truthy location then location else None)) ;;
  lift (spikes_de_rows rows).

(** The WHERE clause of that query, lines 155-161, at time [now]. *)
Definition where_ventana (now : Z) (location : option string) (r : fila) : Prop :=
  (now - 20 * 60000000 <= fecha_hora r)%Z
  /\ temperatura r <> None
  /\ (truthy location = true -> location = Some (ubicacion r)).

(** ** correo.py: [ValidarSintaxisEmail], lines 38-40 *)

(** Regular expressions over characters, as far as the pattern of the
    validator needs them, matched by derivatives. *)
Inductive regex : Type :=
| Vacio
| Epsilon
| Clase (p : ascii -> bool)
| Cat (r1 r2 : regex)
| Alt (r1 r2 : regex)
| Estrella (r : regex).

Fixpoint nullable (r : regex) : bool :=
  match r with
  | Vacio => false
  | Epsilon => true
  | Clase _ => false
  | Cat r1 r2 => nullable r1 && nullable r2
  | Alt r1 r2 => nullable r1 || nullable r2
  | Estrella _ => true
  end.

Fixpoint deriv (c : ascii) (r : regex) : regex :=
  match r with
  | Vacio => Vacio
  | Epsilon => Vacio
  | Clase p => if p c then Epsilon else Vacio
  | Cat r1 r2 =>
      if nullable r1 then Alt (Cat (deriv c r1) r2) (deriv c r2)
      else Cat (deriv c r1) r2
  | Alt r1 r2 => Alt (deriv c r1) (deriv c r2)
  | Estrella r1 => Cat (deriv c r1) (Estrella r1)
  end.

(** The whole of [s] is a word of [r]. *)
Fixpoint coincide (r : regex) (s : list ascii) : bool :=
  match s with
  | [] => nullable r
  | c :: s' => coincide (deriv c r) s'
  end.

(** [r+], [r?] and a literal character. *)
Definition Mas (r : regex) : regex := Cat r (Estrella r).
Definition Opcional (r : regex) : regex := Alt r Epsilon.
Definition Caracter (c : ascii) : regex := Clase (Ascii.eqb c).

Definition en_rango (lo hi c : ascii) : bool :=
  (nat_of_ascii lo <=? nat_of_ascii c)%nat
  && (nat_of_ascii c <=? nat_of_ascii hi)%nat.

(** [[_a-z0-9-]], [[a-z0-9-]] and [[a-z]]. *)
Definition clase_local (c : ascii) : bool :=
  Ascii.eqb c "_" || en_rango "a" "z" c || en_rango "0" "9" c || Ascii.eqb c "-".
Definition clase_dominio (c : ascii) : bool :=
  en_rango "a" "z" c || en_rango "0" "9" c || Ascii.eqb c "-".
Definition clase_letra (c : ascii) : bool := en_rango "a" "z" c.

(** Line 38, between [^] and [$]:
    [[_a-z0-9-]+(\.[_a-z0-9-]+)*@[a-z0-9-]+(\.[a-z0-9-]+)*(\.[a-z]{2,4})]. *)
Definition patron_email : regex :=
  Cat (Mas (Clase clase_local))
 (Cat (Estrella (Cat (Caracter ".") (Mas (Clase clase_local))))
 (Cat (Caracter "@")
 (Cat (Mas (Clase clase_dominio))
 (Cat (Estrella (Cat (Caracter ".") (Mas (Clase clase_dominio))))
 (Cat (Caracter ".")
 (Cat (Clase clase_letra)
 (Cat (Clase clase_letra)
 (Cat (Opcional (Clase clase_letra))
      (Opcional (Clase clase_letra)))))))))).

Definition salto_de_linea : ascii := ascii_of_nat 10.

(** [re.match] of a pattern written between [^] and [$]: the match
    starts at the beginning, and [$] matches at the end of the string
    and also just before a newline that ends the string. *)
Definition re_match_anclado (r : regex) (s : list ascii) : bool :=
  coincide r s
  || match rev s with
     | c :: resto => Ascii.eqb c salto_de_linea && coincide r (rev resto)
     | [] => false
     end.

(** [str.lower()] on the characters of an ASCII string. The model is
    that of ASCII addresses: on other text Python lowers by code point,
    which a string of bytes does not show. *)
Definition lower_ascii (c : ascii) : ascii :=
  if en_rango "A" "Z" c then ascii_of_nat (nat_of_ascii c + 32) else c.

Definition lower (s : list ascii) : list ascii := map lower_ascii s.

Definition ValidarSintaxisEmail (email : string) : bool :=
  re_match_anclado patron_email (lower (list_ascii_of_string email)).

(** ** correo.py: [EnviarCorreoSSL], lines 67-126 *)

Definition comillas : string := String (ascii_of_nat 34) EmptyString.

Definition no_vacia (s : string) : bool :=
  match s with
  | EmptyString => false
  | String _ _ => true
  end.

(** Lines 98-121: the [try] block and its handlers. The result is
    [Aux], [Cadena] and the [Errores] dict after the statement. *)
Definition intentar_envio (ent : entorno) (cred : credenciales)
    (dest asunto_ : string) (header : mensaje_mime)
    : M (bool * string * list (string * string)) :=
  match sesion_smtp ent cred header with
  | None =>
      let Cadena := ("Correo enviado a " ++ dest ++ " vía " ++ smtp_server cred
                       ++ " con asunto " ++ comillas ++ asunto_ ++ comillas)%string in
      logging "INFO" Cadena ;;;
      ret (true, Cadena, [("Mensaje", Cadena)])
  | Some SMTPAuthenticationError =>
      let Cadena := ("Contraseña incorrecta para " ++ smtp_user cred ++ " en "
                       ++ smtp_server cred)%string in
      logging "ERROR" Cadena ;;; ret (false, Cadena, [])
  | Some SMTPSenderRefused =>
      let Cadena := ("Remitente " ++ remitente cred ++ " rechazado por "
                       ++ smtp_server cred)%string in
      logging "ERROR" Cadena ;;; ret (false, Cadena, [])
  | Some SMTPRecipientsRefused =>
      let Cadena := ("Destinatario " ++ dest ++ " rechazado por "
                       ++ smtp_server cred)%string in
      logging "ERROR" Cadena ;;; ret (false, Cadena, [])
  | Some SMTPDataError =>
      let Cadena := ("Error enviando mensaje para " ++ smtp_user cred ++ " vía "
                       ++ smtp_server cred)%string in
      logging "ERROR" Cadena ;;; ret (false, Cadena, [])
  | Some (SMTPException e) =>
      let Cadena := ("Excepción SMTP: " ++ e)%string in
      logging "ERROR" e ;;; ret (false, Cadena, [])
  | Some e => lift (Raise e)           (* no handler matches *)
  end.

(** [os.path.basename] of a POSIX path: what follows its last slash. *)
Fixpoint tiene_barra (s : string) : bool :=
  match s with
  | EmptyString => false
  | String c s' => Ascii.eqb c "/" || tiene_barra s'
  end.

Fixpoint basename (s : string) : string :=
  match s with
  | EmptyString => EmptyString
  | String c s' =>
      if tiene_barra s' then basename s'
      else if Ascii.eqb c "/" then s' else s
  end.

(** Lines 87-95: the attached part, [None] when no file is attached.
    [open(archivo, "rb").read()] runs before the [try] of line 98, so
    what it raises leaves the function. *)
Definition adjuntar (ent : entorno) (archivo : string)
    : resultado (option (string * string)) :=
  if no_vacia archivo && isfile ent archivo then
    match leer_archivo ent archivo with
    | Ok contenido =>
        Ok (Some (("attachment; filename=" ++ comillas ++ basename archivo
                     ++ comillas)%string,
                  contenido))
    | Raise e => Raise e
    end
  else Ok None.

Definition EnviarCorreoSSL (ent : entorno) (cred : credenciales)
    (dest asunto_ mensaje archivo : string) (copia_oculta : bool)
    : M (bool * list (string * string)) :=
  anotar_llamada {| destinatario := dest; asunto := asunto_; cuerpo := mensaje |} ;;;
  adj <- lift (adjuntar ent archivo) ;;
  let header :=
    {| Subject := asunto_;
       From := remitente cred;
       To := dest;
       Bcc := if copia_oculta then Some (remitente cred) else None;
       cuerpo_html := mensaje;
       adjunto := adj |} in
  r <- intentar_envio ent cred dest asunto_ header ;;
  let '(Aux, Cadena, Errores) := r in
  let Errores :=
    if no_vacia Cadena && negb Aux then Errores ++ [("Error", Cadena)]
    else Errores in
  ret (Aux, Errores).

Section Pipeline.

Set Default Proof Using "Type".

(** Python's [str()] of a temperature value, as interpolated by
    [f"{temp}"]; it depends on the digits the store returns and is
    left open. *)
Variable str_num : Q -> string.

(** ** alertas.py: [generar_alertas], lines 62-101 *)

(** Lines 72-86: the body of the loop over the latest readings;
    [temp >= ...] raises [TypeError] when [temp] is [None]. *)
Definition alerta_umbral (um : umbrales) (r : fila) : resultado (option alerta) :=
  let ubic := ubicacion r in
  match temperatura r with
  | None => Raise TypeError
  | Some temp =>
      if Qle_bool (danger um) temp then
        Ok (Some {| alerta_ubicacion := ubic; nivel := "roja";
                    texto := ("TEMPERATURA CRÍTICA " ++ str_num temp
                                ++ "°C en " ++ ubic)%string |})
      else if Qle_bool (warning um) temp then
        Ok (Some {| alerta_ubicacion := ubic; nivel := "amarilla";
                    texto := ("Temperatura elevada " ++ str_num temp
                                ++ "°C en " ++ ubic)%string |})
      else Ok None
  end.

(** Lines 71-86: the loop, appending to [alertas]. *)
Fixpoint recorrer_lecturas (um : umbrales) (lecturas : list fila)
    (alertas : list alerta) : resultado (list alerta) :=
  match lecturas with
  | [] => Ok alertas
  | r :: resto =>
      match alerta_umbral um r with
      | Ok None => recorrer_lecturas um resto alertas
      | Ok (Some a) => recorrer_lecturas um resto (alertas ++ [a])
      | Raise e => Raise e
      end
  end.

(** [config.get("alertas", {}).get("detectar_spikes", False)]. *)
Definition spikes_activados (cfg : parametros) : bool :=
  match alertas cfg with
  | Some a => match detectar_spikes a with Some b => b | None => false end
  | None => false
  end.

Definition generar_alertas (ent : entorno) (location : option string)
    : M (list alerta) :=
  let thresholds_ := thresholds (config ent) in
  lecturas <- get_latest_readings ent location ;;
  alertas1 <- lift (recorrer_lecturas thresholds_ lecturas []) ;;
  alertas2 <- (if spikes_activados (config ent) then
                 spikes <- detect_temperature_spikes ent location ;;
                 ret (alertas1 ++ spikes)
               else ret alertas1) ;;
  ret (sort_key (clave_prioridad 99) alertas2).

(** ** alertas_manager.py: [AlertManager.enviar_alertas_si_toca] *)

Definition cfg_enabled (e : option email_cfg) : bool :=
  match e with
  | Some c => match enabled c with Some b => b | None => false end
  | None => false
  end.

Definition cfg_intervalo_envio_min (e : option email_cfg) : Z :=
  match e with
  | Some c => match intervalo_envio_min c with Some n => n | None => 60%Z end
  | None => 60%Z
  end.

Definition cfg_destinatarios (e : option email_cfg) : list string :=
  match e with
  | Some c => match destinatarios c with Some l => l | None => [] end
  | None => []
  end.

(** [timedelta(minutes=n)] in microseconds. *)
Definition timedelta_minutes (n : Z) : Z := (n * 60000000)%Z.

(** Line 83: [self.last_alert_sent and ahora - self.last_alert_sent < intervalo]. *)
Definition dentro_del_intervalo (am : AlertManager) (ahora_ intervalo : Z) : bool :=
  match last_alert_sent am with
  | Some t => (ahora_ - t <? intervalo)%Z
  | None => false
  end.

(** Lines 96-99. *)
Definition preparar_html (alertas_ : list alerta) : string :=
  (fold_left
     (fun html a => html ++ "<li><strong>" ++ alerta_ubicacion a
                      ++ "</strong>: " ++ texto a ++ "</li>")
     alertas_ "<h3>Alertas de Temperatura</h3><ul>" ++ "</ul>")%string.

(** Lines 105-113: one mailer call per recipient, results ignored. *)
Fixpoint enviar_a_destinatarios (ent : entorno) (cred : credenciales)
    (asunto_ html : string) (dests : list string) : M unit :=
  match dests with
  | [] => ret tt
  | dest :: resto =>
      EnviarCorreoSSL ent cred dest asunto_ html EmptyString false ;;;
      enviar_a_destinatarios ent cred asunto_ html resto
  end.

Definition enviar_alertas_si_toca (ent : entorno) : M unit :=
  let email_cfg_ := email (config ent) in
  if negb (cfg_enabled email_cfg_) then ret tt
  else
    let ahora_ := ahora ent in
    let intervalo := timedelta_minutes (cfg_intervalo_envio_min email_cfg_) in
    self <- get_alert_manager ;;
    if dentro_del_intervalo self ahora_ intervalo then ret tt
    else
      alertas_ <- generar_alertas ent None ;;
      match alertas_ with
      | [] => ret tt
      | _ =>
          set_alert_manager {| last_alert_sent := Some ahora_;
                               ultimas_alertas := alertas_ |} ;;;
          let html := preparar_html alertas_ in
          let asunto_ := "⚠️ ALERTA DE TEMPERATURA EN CPD" in
          let smtp_cred := smtp_credenciales ent in
          enviar_a_destinatarios ent smtp_cred asunto_ html
            (cfg_destinatarios email_cfg_)
      end.

(** [proximo_envio], lines 124-129. *)
Definition proximo_envio (ent : entorno) (am : AlertManager) : option Z :=
  match last_alert_sent am with
  | Some t =>
      Some (t + timedelta_minutes (cfg_intervalo_envio_min (email (config ent))))%Z
  | None => None
  end.

(** ** main.py *)

(** [api_alerts], lines 168-173. *)
Definition api_alerts (ent : entorno) (location : option string)
    : M (list alerta * nat) :=
  alertas_ <- detect_temperature_spikes ent location ;;
  ret (alertas_, List.length alertas_).

(** One turn of [loop_envio_alertas], lines 200-203: whatever the tick
    raises is caught (and printed); the process state stays as the
    tick left it. *)
Definition tick (ent : entorno) (w : proceso) : proceso :=
  snd (enviar_alertas_si_toca ent w).

(** The first turns of the loop, one environment per turn. *)
Definition loop_envio_alertas (turnos : list entorno) (w : proceso) : proceso :=
  fold_left (fun w ent => tick ent w) turnos w.

(** [websocket_endpoint], lines 127-164. *)

(** What the awaited calls of the endpoint can raise. [CancelledError]
    is not an [Exception]; an error of the store or of the serialiser
    is. *)
Inductive excepcion_ws : Type :=
| WsRuntimeError
| WebSocketDisconnect
| CancelledError
| ExcepcionDe (e : excepcion)
| OtraException.

(** One turn of the [while True] loop, as the outside world presents
    it. *)
Record vuelta_ws : Type := {
  ws_conectado : bool;     (* [client_state.name == "CONNECTED"] *)
  ws_latest : option string -> resultado (list fila);
                           (* the rows [get_latest_readings] fetches *)
  ws_send : option excepcion_ws;   (* [await websocket.send_text(..)] *)
  ws_sleep : option excepcion_ws   (* [await asyncio.sleep(5)] *)
}.

(** What the endpoint does to the socket, oldest first. A send that
    raises is recorded with [false]. *)
Inductive evento_ws : Type :=
| WsAccept
| WsSendText (json_str : string) (enviado : bool)
| WsSleep
| WsClose.

(** How the loop is left: [None] while it is still running. *)
Inductive salida_ws : Type :=
| WsBreak
| WsLanza (e : excepcion_ws).

(** Line 135. *)
Definition filter_val_de (location_filter : string) : option string :=
  if String.eqb location_filter "null"
     || String.eqb location_filter "undefined"
     || match location_filter with EmptyString => true | _ => false end
  then None
  else Some location_filter.

(** Lines 138-153 over the turns given; [dumps] is
    [json.dumps(data, default=json_serializer, ensure_ascii=False)]. *)
Fixpoint bucle_ws (dumps : list fila -> resultado string)
    (filter_val : option string) (vueltas : list vuelta_ws)
    : list evento_ws * option salida_ws :=
  match vueltas with
  | [] => ([], None)
  | v :: resto =>
      if negb (ws_conectado v) then ([], Some WsBreak)
      else
        match ws_latest v filter_val with
        | Raise e => ([], Some (WsLanza (ExcepcionDe e)))
        | Ok data =>
            match dumps data with
            | Raise e => ([], Some (WsLanza (ExcepcionDe e)))
            | Ok json_str =>
                match ws_send v with
                | Some WsRuntimeError =>
                    ([WsSendText json_str false], Some WsBreak)
                | Some e => ([WsSendText json_str false], Some (WsLanza e))
                | None =>
                    match ws_sleep v with
                    | Some e =>
                        ([WsSendText json_str true; WsSleep], Some (WsLanza e))
                    | None =>
                        let '(traza, salida) := bucle_ws dumps filter_val resto in
                        (WsSendText json_str true :: WsSleep :: traza, salida)
                    end
                end
            end
        end
  end.

(** How a call of the endpoint stands after the turns given. *)
Inductive estado_ws : Type :=
| WsEnCurso
| WsRetorna
| WsPropaga (e : excepcion_ws).

(** Lines 132-164. [accept] is what [await websocket.accept()] raises,
    if anything; the close in the [finally] clause swallows whatever it
    raises. *)
Definition websocket_endpoint (dumps : list fila -> resultado string)
    (accept : option excepcion_ws) (location_filter : string)
    (vueltas : list vuelta_ws) : list evento_ws * estado_ws :=
  match accept with
  | Some e => ([], WsPropaga e)
  | None =>
      let filter_val := filter_val_de location_filter in
      match bucle_ws dumps filter_val vueltas with
      | (traza, None) => (WsAccept :: traza, WsEnCurso)
      | (traza, Some WsBreak) => (WsAccept :: traza ++ [WsClose], WsRetorna)
      | (traza, Some (WsLanza CancelledError)) =>
          (WsAccept :: traza ++ [WsClose], WsPropaga CancelledError)
      | (traza, Some (WsLanza _)) =>
          (WsAccept :: traza ++ [WsClose], WsRetorna)
      end
  end.

(** ** Vocabulary of the statements *)

Definition le_key {A : Type} (key : A -> Z) (a b : A) : Prop :=
  (key a <= key b)%Z.

Definition en_ubicacion (u : string) (r : fila) : bool :=
  String.eqb (ubicacion r) u.

Definition alerta_en (u : string) (a : alerta) : bool :=
  String.eqb (alerta_ubicacion a) u.

(** The readings of location [u] among [rows], oldest first, as the
    detector orders them on line 183. *)
Definition lecturas_de (u : string) (rows : list fila) : list fila :=
  sort_key fecha_hora (filter (en_ubicacion u) rows).

(** The most recent reading of every location carries a temperature;
    the query's [temperatura IS NOT NULL] gives this for every row. *)
Definition ultimas_con_temperatura (rows : list fila) : Prop :=
  forall u pre ult,
    lecturas_de u rows = pre ++ [ult] -> temperatura ult <> None.

(** [datos.get(u)]. *)
Fixpoint buscar (u : string) (datos : list (string * list fila))
    : option (list fila) :=
  match datos with
  | [] => None
  | (k, v) :: resto => if String.eqb k u then Some v else buscar u resto
  end.

(** What the group found under [u] adds to the detector's list. *)
Definition aporte (u : string) (og : option (list fila)) : list alerta :=
  match og with
  | Some g =>
      match spike_de_grupo u g with
      | Ok (Some a) => [a]
      | _ => []
      end
  | None => []
  end.

(** The call a turn of the scheduler makes for recipient [dest]. *)
Definition llamada_a (asunto_ html dest : string) : llamada :=
  {| destinatario := dest; asunto := asunto_; cuerpo := html |}.

(** The alerts the threshold loop collects from [lecturas], in the
    order of the readings. *)
Definition alertas_umbral (um : umbrales) (lecturas : list fila) : list alerta :=
  flat_map (fun r => match alerta_umbral um r with
                     | Ok (Some a) => [a]
                     | _ => []
                     end) lecturas.

Definition nivel_conocido (a : alerta) : Prop :=
  nivel a = "roja" \/ nivel a = "amarilla" \/ nivel a = "azul".

(** The exceptions for which [EnviarCorreoSSL] has a handler. *)
Definition capturada (e : excepcion) : bool :=
  match e with
  | SMTPAuthenticationError | SMTPSenderRefused | SMTPRecipientsRefused
  | SMTPDataError | SMTPException _ => true
  | _ => false
  end.

(** The interval configured in [ent], as a [timedelta]. *)
Definition intervalo_de (ent : entorno) : Z :=
  timedelta_minutes (cfg_intervalo_envio_min (email (config ent))).

(** A turn is due: nothing was sent yet, or the interval has elapsed
    since the last send. *)
Definition toca (ent : entorno) (w : proceso) : Prop :=
  last_alert_sent (alert_manager w) = None
  \/ exists t, last_alert_sent (alert_manager w) = Some t
               /\ (intervalo_de ent <= ahora ent - t)%Z.

(** The subject line of the alert mail. *)
Definition asunto_alerta : string := "⚠️ ALERTA DE TEMPERATURA EN CPD".

(** [str()] of a value stored with one decimal place. *)
Definition str_un_decimal (x : Q) : string :=
  let m := redondeo_par (Z.abs (Qnum x) * 10) (Zpos (Qden x)) in
  ((if Qnegativo x then "-" else EmptyString)
     ++ digitos (m / 10) ++ "." ++ digitos (m mod 10))%string.

(** The alerts of level [n] in a list, in order. *)
Definition de_nivel (n : string) (l : list alerta) : list alerta :=
  filter (fun a => String.eqb (nivel a) n) l.

(** [ent] with another answer to the detector's query. *)
Definition con_fetch_ventana (ent : entorno)
    (f : option string -> resultado (list fila)) : entorno :=
  {| config := config ent;
     smtp_credenciales := smtp_credenciales ent;
     ahora := ahora ent;
     fetch_latest := fetch_latest ent;
     fetch_ventana := f;
     isfile := isfile ent;
     leer_archivo := leer_archivo ent;
     sesion_smtp := sesion_smtp ent |}.

(** The alert manager holds a batch exactly when it holds a send time. *)
Definition estado_coherente (am : AlertManager) : Prop :=
  (last_alert_sent am = None /\ ultimas_alertas am = [])
  \/ (exists t, last_alert_sent am = Some t) /\ ultimas_alertas am <> [].

(** The words of a regular expression. *)
Inductive en_lenguaje : regex -> list ascii -> Prop :=
| L_epsilon : en_lenguaje Epsilon []
| L_clase (p : ascii -> bool) (c : ascii) :
    p c = true -> en_lenguaje (Clase p) [c]
| L_cat (r1 r2 : regex) (s1 s2 : list ascii) :
    en_lenguaje r1 s1 -> en_lenguaje r2 s2 -> en_lenguaje (Cat r1 r2) (s1 ++ s2)
| L_alt_izq (r1 r2 : regex) (s : list ascii) :
    en_lenguaje r1 s -> en_lenguaje (Alt r1 r2) s
| L_alt_der (r1 r2 : regex) (s : list ascii) :
    en_lenguaje r2 s -> en_lenguaje (Alt r1 r2) s
| L_estrella_nil (r : regex) : en_lenguaje (Estrella r) []
| L_estrella_mas (r : regex) (s1 s2 : list ascii) :
    en_lenguaje r s1 -> en_lenguaje (Estrella r) s2 ->
    en_lenguaje (Estrella r) (s1 ++ s2).

(** Every character is an ASCII character. *)
Definition es_ascii (s : string) : Prop :=
  Forall (fun c => (nat_of_ascii c < 128)%nat) (list_ascii_of_string s).

Definition arroba : ascii := "@".
Definition punto : ascii := ".".

(** The characters a word of [r] can be made of. *)
Fixpoint alfabeto (r : regex) (c : ascii) : bool :=
  match r with
  | Vacio | Epsilon => false
  | Clase p => p c
  | Cat r1 r2 | Alt r1 r2 => alfabeto r1 c || alfabeto r2 c
  | Estrella r1 => alfabeto r1 c
  end.

(** Labels joined by dots: [a.b.c]. *)
Definition unir_con_puntos (partes : list (list ascii)) : list ascii :=
  match partes with
  | [] => []
  | p :: resto => p ++ flat_map (fun x => punto :: x) resto
  end.

(** A non-empty word whose characters, lowered, are all in class [p]. *)
Definition palabra_de (p : ascii -> bool) (s : list ascii) : Prop :=
  s <> [] /\ Forall (fun c => p (lower_ascii c) = true) s.

(** A non-empty word over class [p]. *)
Definition palabra (p : ascii -> bool) (s : list ascii) : Prop :=
  s <> [] /\ Forall (fun c => p c = true) s.

(** [atomo(.atomo)*@etiqueta(.etiqueta)*.tld]: atoms of letters, digits,
    [_] and [-]; labels of letters, digits and [-]; a last label of two
    to four letters; lower case throughout. *)
Definition direccion_bien_formada (s : list ascii) : Prop :=
  exists atomos etiquetas tld,
    s = unir_con_puntos atomos ++ [arroba] ++ unir_con_puntos etiquetas
          ++ [punto] ++ tld
    /\ atomos <> [] /\ Forall (palabra clase_local) atomos
    /\ etiquetas <> [] /\ Forall (palabra clase_dominio) etiquetas
    /\ (2 <= List.length tld <= 4)%nat
    /\ Forall (fun c => clase_letra c = true) tld.

(** The texts of the sends that went through, oldest first. *)
Definition envios_ok (traza : list evento_ws) : list string :=
  flat_map (fun ev => match ev with
                      | WsSendText json_str true => [json_str]
                      | _ => []
                      end) traza.

(** A turn in which the client is connected, the readings are fetched
    and serialised to [json_str], and the send goes through. *)
Definition vuelta_enviada (dumps : list fila -> resultado string)
    (filter_val : option string) (v : vuelta_ws) (json_str : string) : Prop :=
  ws_conectado v = true
  /\ (exists data, ws_latest v filter_val = Ok data /\ dumps data = Ok json_str)
  /\ ws_send v = None.

(** The message [EnviarCorreoSSL] hands to the SMTP session when the
    attached part is [adj]. *)
Definition cabecera_de (cred : credenciales)
    (dest asunto_ mensaje : string) (adj : option (string * string))
    (copia_oculta : bool) : mensaje_mime :=
  {| Subject := asunto_;
     From := remitente cred;
     To := dest;
     Bcc := if copia_oculta then Some (remitente cred) else None;
     cuerpo_html := mensaje;
     adjunto := adj |}.

(** The recipients the loop of lines 105-113 of the scheduler gets
    to: all of them in order, unless the SMTP session opened for one
    raises something the mailer has no handler for, and that call is
    then the last one. *)
Fixpoint alcanzados (ent : entorno) (cred : credenciales)
    (asunto_ html : string) (dests : list string) : list string :=
  match dests with
  | [] => []
  | dest :: resto =>
      match sesion_smtp ent cred
              (cabecera_de cred dest asunto_ html None false) with
      | Some e =>
          if capturada e then dest :: alcanzados ent cred asunto_ html resto
          else [dest]
      | None => dest :: alcanzados ent cred asunto_ html resto
      end
  end.

(** The list item of one alert in the mail body. *)
Definition item_html (a : alerta) : string :=
  ("<li><strong>" ++ alerta_ubicacion a ++ "</strong>: " ++ texto a
     ++ "</li>")%string.

(** ** Sample inputs *)

Definition cfg_ejemplo : parametros :=
  {| thresholds := {| warning := 27; danger := 30 |};
     alertas := Some {| detectar_spikes := Some true |};
     email := Some {| enabled := Some true;
                      intervalo_envio_min := Some 60%Z;
                      destinatarios := Some ["ops@cpd.example";
                                             "noc@cpd.example"] |} |}.

Definition cred_ejemplo : credenciales :=
  {| remitente := "alertas@cpd.example"; smtp_server := "smtp.cpd.example";
     smtp_port := 465%Z; smtp_user := "alertas"; smtp_pass := "secreto" |}.

(** Location CPD-1 went from 26.5 to 31.0 degrees in eight minutes. *)
Definition cpd1_t0 : fila :=
  {| ubicacion := "CPD-1"; temperatura := Some 26.5; fecha_hora := 0%Z |}.
Definition cpd1_t8 : fila :=
  {| ubicacion := "CPD-1"; temperatura := Some 31;
     fecha_hora := timedelta_minutes 8 |}.

Definition ent_ejemplo : entorno :=
  {| config := cfg_ejemplo;
     smtp_credenciales := cred_ejemplo;
     ahora := timedelta_minutes 9;
     fetch_latest := fun _ => Ok [cpd1_t8];
     fetch_ventana := fun _ => Ok [cpd1_t8; cpd1_t0];
     isfile := fun _ => false;
     leer_archivo := fun _ => Raise (ExcepcionNoSMTP "FileNotFoundError");
     sesion_smtp := fun _ _ => None |}.

(** The two alerts CPD-1 raises at [ent_ejemplo]: its temperature is
    above [danger], and it rose 4.5 degrees in eight minutes. *)
Definition alerta_umbral_cpd1 : alerta :=
  {| alerta_ubicacion := "CPD-1"; nivel := "roja";
     texto := "TEMPERATURA CRÍTICA 31.0°C en CPD-1" |}.
Definition alerta_spike_cpd1 : alerta :=
  {| alerta_ubicacion := "CPD-1"; nivel := "roja";
     texto := "SUBIDA CRÍTICA → CPD-1: +4.5°C en 8 min ¡POSIBLE EMERGENCIA!" |}.

(** A reading of [temp] degrees at location [u], [minuto] minutes after
    the origin of time. *)
Definition lectura (u : string) (minuto : Z) (temp : Q) : fila :=
  {| ubicacion := u; temperatura := Some temp;
     fecha_hora := timedelta_minutes minuto |}.

(** A reading without temperature. *)
Definition lectura_nula (u : string) (minuto : Z) : fila :=
  {| ubicacion := u; temperatura := None;
     fecha_hora := timedelta_minutes minuto |}.

(** The same, thirty minutes later. *)
Definition ent_ejemplo_mas_tarde : entorno :=
  {| config := cfg_ejemplo;
     smtp_credenciales := cred_ejemplo;
     ahora := timedelta_minutes 39;
     fetch_latest := fun _ => Ok [cpd1_t8];
     fetch_ventana := fun _ => Ok [];
     isfile := fun _ => false;
     leer_archivo := fun _ => Raise (ExcepcionNoSMTP "FileNotFoundError");
     sesion_smtp := fun _ _ => None |}.

(** Nothing is above a threshold and nothing moved. *)
Definition ent_tranquilo : entorno :=
  {| config := cfg_ejemplo;
     smtp_credenciales := cred_ejemplo;
     ahora := timedelta_minutes 9;
     fetch_latest := fun _ => Ok [cpd1_t0];
     fetch_ventana := fun _ => Ok [cpd1_t0];
     isfile := fun _ => false;
     leer_archivo := fun _ => Raise (ExcepcionNoSMTP "FileNotFoundError");
     sesion_smtp := fun _ _ => None |}.

(** The latest row of CPD-2 has a NULL temperature. *)
Definition cpd2_sin_temperatura : fila :=
  {| ubicacion := "CPD-2"; temperatura := None;
     fecha_hora := timedelta_minutes 8 |}.

Definition ent_lectura_nula : entorno :=
  {| config := cfg_ejemplo;
     smtp_credenciales := cred_ejemplo;
     ahora := timedelta_minutes 9;
     fetch_latest := fun _ => Ok [cpd1_t8; cpd2_sin_temperatura];
     fetch_ventana := fun _ => Ok [cpd1_t8; cpd1_t0];
     isfile := fun _ => false;
     leer_archivo := fun _ => Raise (ExcepcionNoSMTP "FileNotFoundError");
     sesion_smtp := fun _ _ => None |}.

(** The SMTP server refuses the connection made for the first
    recipient and accepts every other one. *)
Definition ent_smtp_caido : entorno :=
  {| config := cfg_ejemplo;
     smtp_credenciales := cred_ejemplo;
     ahora := timedelta_minutes 9;
     fetch_latest := fun _ => Ok [cpd1_t8];
     fetch_ventana := fun _ => Ok [cpd1_t8; cpd1_t0];
     isfile := fun _ => false;
     leer_archivo := fun _ => Raise (ExcepcionNoSMTP "FileNotFoundError");
     sesion_smtp := fun _ m =>
       if String.eqb (To m) "ops@cpd.example"
       then Some (ExcepcionNoSMTP "ConnectionRefusedError")
       else None |}.

(** The SMTP server rejects the first recipient with an SMTP error. *)
Definition ent_smtp_rechaza : entorno :=
  {| config := cfg_ejemplo;
     smtp_credenciales := cred_ejemplo;
     ahora := timedelta_minutes 9;
     fetch_latest := fun _ => Ok [cpd1_t8];
     fetch_ventana := fun _ => Ok [cpd1_t8; cpd1_t0];
     isfile := fun _ => false;
     leer_archivo := fun _ => Raise (ExcepcionNoSMTP "FileNotFoundError");
     sesion_smtp := fun _ m =>
       if String.eqb (To m) "ops@cpd.example"
       then Some SMTPRecipientsRefused
       else None |}.

(** The list a result carries, empty when it is an error. *)
Definition alertas_de (r : resultado (list alerta)) : list alerta :=
  match r with
  | Ok l => l
  | Raise _ => []
  end.

(** [ent] with another configuration. *)
Definition con_config (ent : entorno) (cfg : parametros) : entorno :=
  {| config := cfg;
     smtp_credenciales := smtp_credenciales ent;
     ahora := ahora ent;
     fetch_latest := fetch_latest ent;
     fetch_ventana := fetch_ventana ent;
     isfile := isfile ent;
     leer_archivo := leer_archivo ent;
     sesion_smtp := sesion_smtp ent |}.

(** The sample configuration without its [alertas] section, without
    its [email] section, and with an empty list of recipients. *)
Definition cfg_sin_spikes : parametros :=
  {| thresholds := thresholds cfg_ejemplo;
     alertas := None;
     email := email cfg_ejemplo |}.
Definition cfg_sin_email : parametros :=
  {| thresholds := thresholds cfg_ejemplo;
     alertas := alertas cfg_ejemplo;
     email := None |}.
Definition cfg_sin_destinatarios : parametros :=
  {| thresholds := thresholds cfg_ejemplo;
     alertas := alertas cfg_ejemplo;
     email := Some {| enabled := Some true;
                      intervalo_envio_min := None;
                      destinatarios := Some [] |} |}.

(** The store does not answer the latest-readings query. *)
Definition ent_store_caido : entorno :=
  {| config := cfg_ejemplo;
     smtp_credenciales := cred_ejemplo;
     ahora := timedelta_minutes 9;
     fetch_latest := fun _ => Raise StoreError;
     fetch_ventana := fun _ => Ok [cpd1_t8; cpd1_t0];
     isfile := fun _ => false;
     leer_archivo := fun _ => Raise (ExcepcionNoSMTP "FileNotFoundError");
     sesion_smtp := fun _ _ => None |}.

(** Two locations in one window, and the rows of the first alone. *)
Definition ventana_a : list fila := [lectura "A" 8 24.5; lectura "A" 0 20].
Definition ventana_a_b : list fila :=
  [lectura "A" 8 24.5; lectura "B" 8 22.7; lectura "A" 0 20; lectura "B" 0 20].

(** A websocket client that receives two frames and is gone at the
    third turn. *)
Definition vuelta_conectada : vuelta_ws :=
  {| ws_conectado := true;
     ws_latest := fun _ => Ok [cpd1_t8];
     ws_send := None;
     ws_sleep := None |}.
Definition vuelta_desconectada : vuelta_ws :=
  {| ws_conectado := false;
     ws_latest := fun _ => Ok [cpd1_t8];
     ws_send := None;
     ws_sleep := None |}.

(** A stand-in for [json.dumps]: the locations of the rows. *)
Definition dumps_ejemplo (data : list fila) : resultado string :=
  Ok (String.concat "," (map ubicacion data)).

(** Three locations read at once: A is above [danger], B between the
    two thresholds, C below [warning]; nothing moved. *)
Definition ent_tres_lecturas : entorno :=
  {| config := cfg_ejemplo;
     smtp_credenciales := cred_ejemplo;
     ahora := timedelta_minutes 9;
     fetch_latest := fun _ => Ok [lectura "A" 8 31; lectura "B" 8 28;
                                  lectura "C" 8 20];
     fetch_ventana := fun _ => Ok [];
     isfile := fun _ => false;
     leer_archivo := fun _ => Raise (ExcepcionNoSMTP "FileNotFoundError");
     sesion_smtp := fun _ _ => None |}.
Definition alerta_umbral_a : alerta :=
  {| alerta_ubicacion := "A"; nivel := "roja";
     texto := "TEMPERATURA CRÍTICA 31.0°C en A" |}.
Definition alerta_umbral_b : alerta :=
  {| alerta_ubicacion := "B"; nivel := "amarilla";
     texto := "Temperatura elevada 28.0°C en B" |}.

(** A window in which A dropped 5.5 degrees in twelve minutes, B rose
    2.7 and C rose 4.5 in eight: the groups come in the order A, B, C,
    the reverse of the priorities of their alerts. *)
Definition ventana_a_b_c : list fila :=
  [lectura "A" 12 19.5; lectura "A" 0 25;
   lectura "B" 8 22.7; lectura "B" 0 20;
   lectura "C" 8 24.5; lectura "C" 0 20].
Definition ent_tres_spikes : entorno :=
  {| config := cfg_ejemplo;
     smtp_credenciales := cred_ejemplo;
     ahora := timedelta_minutes 13;
     fetch_latest := fun _ => Ok [];
     fetch_ventana := fun _ => Ok ventana_a_b_c;
     isfile := fun _ => false;
     leer_archivo := fun _ => Raise (ExcepcionNoSMTP "FileNotFoundError");
     sesion_smtp := fun _ _ => None |}.
Definition alerta_spike_a : alerta :=
  {| alerta_ubicacion := "A"; nivel := "azul";
     texto := "Bajada brusca → A: -5.5°C en 12 min → Revisar sensor" |}.
Definition alerta_spike_b : alerta :=
  {| alerta_ubicacion := "B"; nivel := "amarilla";
     texto := "Subida rápida → B: +2.7°C en 8 min" |}.
Definition alerta_spike_c : alerta :=
  {| alerta_ubicacion := "C"; nivel := "roja";
     texto := "SUBIDA CRÍTICA → C: +4.5°C en 8 min ¡POSIBLE EMERGENCIA!" |}.

(** [ent] at another time. *)
Definition con_ahora (ent : entorno) (t : Z) : entorno :=
  {| config := config ent;
     smtp_credenciales := smtp_credenciales ent;
     ahora := t;
     fetch_latest := fetch_latest ent;
     fetch_ventana := fetch_ventana ent;
     isfile := isfile ent;
     leer_archivo := leer_archivo ent;
     sesion_smtp := sesion_smtp ent |}.

(** A process whose last dispatch was made fifty-one minutes before
    the origin of time: with an interval of sixty minutes the next one
    is due at minute nine, the time of [ent_ejemplo]. *)
Definition proceso_tras_envio : proceso :=
  {| alert_manager := {| last_alert_sent := Some (timedelta_minutes (-51));
                         ultimas_alertas := [alerta_umbral_cpd1] |};
     llamadas_mailer := [];
     registro := [] |}.

(** A report that exists and cannot be read, and one that can. *)
Definition ent_adjunto_ilegible : entorno :=
  {| config := cfg_ejemplo;
     smtp_credenciales := cred_ejemplo;
     ahora := timedelta_minutes 9;
     fetch_latest := fun _ => Ok [cpd1_t8];
     fetch_ventana := fun _ => Ok [cpd1_t8; cpd1_t0];
     isfile := fun _ => true;
     leer_archivo := fun _ => Raise (ExcepcionNoSMTP "PermissionError");
     sesion_smtp := fun _ _ => None |}.
Definition ent_adjunto_legible : entorno :=
  {| config := cfg_ejemplo;
     smtp_credenciales := cred_ejemplo;
     ahora := timedelta_minutes 9;
     fetch_latest := fun _ => Ok [cpd1_t8];
     fetch_ventana := fun _ => Ok [cpd1_t8; cpd1_t0];
     isfile := fun _ => true;
     leer_archivo := fun _ => Ok "31.0";
     sesion_smtp := fun _ m =>
       match adjunto m with
       | Some _ => None
       | None => Some SMTPDataError
       end |}.

(** * Properties *)

(** ** The stable sort *)

Section SortFacts.
Context {A : Type} (key : A -> Z).

Lemma insertar_perm (x : A) (l : list A) :
  Permutation (insertar key x l) (x :: l).
Proof.
  induction l as [|y l IH]; simpl.
  - apply Permutation_refl.
  - destruct (key x <=? key y)%Z.
    + apply Permutation_refl.
    + eapply Permutation_trans; [apply perm_skip, IH | apply perm_swap].
Qed.

Lemma sort_key_perm (l : list A) : Permutation (sort_key key l) l.
Proof.
  induction l as [|x l IH]; simpl.
  - constructor.
  - eapply Permutation_trans; [apply insertar_perm | now apply perm_skip].
Qed.

Lemma sort_key_length (l : list A) :
  List.length (sort_key key l) = List.length l.
Proof. apply Permutation_length, sort_key_perm. Qed.

Lemma insertar_sorted (x : A) (l : list A) :
  StronglySorted (le_key key) l -> StronglySorted (le_key key) (insertar key x l).
Proof.
  induction 1 as [|y l Hs IH Hall]; simpl.
  - repeat constructor.
  - destruct (Z.leb_spec (key x) (key y)) as [Hle|Hgt].
    + constructor; [now constructor|].
      constructor; [exact Hle|].
      eapply Forall_impl; [|exact Hall].
      unfold le_key; intros; lia.
    + constructor; [exact IH|].
      eapply Permutation_Forall;
        [apply Permutation_sym, insertar_perm|].
      constructor; [unfold le_key; lia | exact Hall].
Qed.

Lemma sort_key_sorted (l : list A) : StronglySorted (le_key key) (sort_key key l).
Proof.
  induction l; simpl; [constructor | now apply insertar_sorted].
Qed.

(** Stability: the elements of any one key keep their order. *)
Lemma insertar_filter_key (k : Z) (x : A) (l : list A) :
  filter (fun a => (key a =? k)%Z) (insertar key x l)
  = filter (fun a => (key a =? k)%Z) (x :: l).
Proof.
  induction l as [|y l IH]; [reflexivity|].
  cbn [insertar].
  destruct (Z.leb_spec (key x) (key y)) as [Hle|Hgt]; [reflexivity|].
  cbn [filter] in *. rewrite IH.
  destruct (Z.eqb_spec (key y) k), (Z.eqb_spec (key x) k);
    try reflexivity; lia.
Qed.

Lemma sort_key_stable (k : Z) (l : list A) :
  filter (fun a => (key a =? k)%Z) (sort_key key l)
  = filter (fun a => (key a =? k)%Z) l.
Proof.
  induction l as [|x l IH]; [reflexivity|].
  cbn [sort_key]. rewrite insertar_filter_key.
  cbn [filter]. now rewrite IH.
Qed.

(** In a sorted list an element never has a larger key than a
    later one. *)
Lemma sorted_app_le (l1 l2 l3 : list A) (a b : A) :
  StronglySorted (le_key key) (l1 ++ a :: l2 ++ b :: l3) -> (key a <= key b)%Z.
Proof.
  intros Hs.
  induction l1 as [|c l1 IH];
    [| apply IH; now apply StronglySorted_inv in Hs].
  apply StronglySorted_inv in Hs as [_ Hall].
  rewrite Forall_forall in Hall. apply Hall.
  apply in_or_app. right. now left.
Qed.
End SortFacts.

(** A filter that keeps at most one element is not disturbed by a
    permutation. *)
Lemma filter_perm_le1 {A} (f : A -> bool) (l l' : list A) :
  Permutation l l' ->
  (List.length (filter f l) <= 1)%nat ->
  filter f l' = filter f l.
Proof.
  intros Hp Hlen.
  assert (Hpf : Permutation (filter f l) (filter f l')).
  { clear Hlen. induction Hp; simpl.
    - constructor.
    - destruct (f x); [now apply perm_skip | assumption].
    - destruct (f x), (f y); try apply Permutation_refl.
      apply perm_swap.
    - eapply Permutation_trans; eassumption. }
  destruct (filter f l) as [|a [|b t]].
  - now apply Permutation_nil in Hpf.
  - now apply Permutation_length_1_inv in Hpf.
  - simpl in Hlen. lia.
Qed.

(** ** Grouping by location *)

Lemma buscar_setdefault_append (u loc : string) (r : fila) datos :
  buscar u (setdefault_append loc r datos)
  = if String.eqb u loc
    then Some (match buscar u datos with
               | Some g => g ++ [r]
               | None => [r]
               end)
    else buscar u datos.
Proof.
  induction datos as [|[k v] resto IH]; simpl.
  - rewrite (String.eqb_sym loc u). now destruct (String.eqb u loc).
  - destruct (String.eqb_spec k loc) as [->|Hk]; simpl.
    + destruct (String.eqb_spec loc u) as [->|Hu].
      * now rewrite String.eqb_refl.
      * destruct (String.eqb_spec u loc); [congruence | reflexivity].
    + rewrite IH.
      destruct (String.eqb_spec k u) as [->|Hu]; [|reflexivity].
      destruct (String.eqb_spec u loc); [congruence | reflexivity].
Qed.

Lemma buscar_fold (u : string) (rows : list fila) :
  forall datos,
    buscar u (fold_left (fun d r => setdefault_append (ubicacion r) r d) rows datos)
    = match buscar u datos, filter (en_ubicacion u) rows with
      | None, [] => None
      | None, f => Some f
      | Some g, f => Some (g ++ f)
      end.
Proof.
  induction rows as [|r rows IH]; intros datos; simpl.
  - destruct (buscar u datos); [now rewrite app_nil_r | reflexivity].
  - rewrite IH, buscar_setdefault_append.
    change (filter (fun r0 : fila => String.eqb (ubicacion r0) u) rows)
      with (filter (en_ubicacion u) rows).
    replace (en_ubicacion u r) with (String.eqb u (ubicacion r))
      by apply String.eqb_sym.
    destruct (String.eqb u (ubicacion r)), (buscar u datos);
      try reflexivity.
    now rewrite <- app_assoc.
Qed.

Lemma buscar_agrupar (u : string) (rows : list fila) :
  buscar u (agrupar rows)
  = match filter (en_ubicacion u) rows with
    | [] => None
    | f => Some f
    end.
Proof. unfold agrupar. now rewrite buscar_fold. Qed.

Lemma claves_setdefault_append (k loc : string) (r : fila) datos :
  In k (map fst (setdefault_append loc r datos))
  <-> k = loc \/ In k (map fst datos).
Proof.
  induction datos as [|[k' v] resto IH]; simpl.
  - intuition congruence.
  - destruct (String.eqb_spec k' loc) as [->|Hk]; simpl.
    + intuition.
    + rewrite IH. intuition.
Qed.

Lemma NoDup_setdefault_append (loc : string) (r : fila) datos :
  NoDup (map fst datos) -> NoDup (map fst (setdefault_append loc r datos)).
Proof.
  induction datos as [|[k v] resto IH]; simpl; intros Hnd.
  - repeat constructor. intros [].
  - apply NoDup_cons_iff in Hnd as [Hnin Hnd].
    destruct (String.eqb_spec k loc) as [->|Hk]; simpl.
    + now constructor.
    + constructor; [|now apply IH].
      rewrite claves_setdefault_append. intuition.
Qed.

Lemma NoDup_agrupar (rows : list fila) : NoDup (map fst (agrupar rows)).
Proof.
  unfold agrupar.
  assert (H : forall datos, NoDup (map fst datos) ->
            NoDup (map fst (fold_left
              (fun d r => setdefault_append (ubicacion r) r d) rows datos))).
  { induction rows as [|r rows IH]; intros datos Hnd; simpl; [exact Hnd|].
    now apply IH, NoDup_setdefault_append. }
  apply H. constructor.
Qed.

Lemma buscar_ausente (u : string) datos :
  ~ In u (map fst datos) -> buscar u datos = None.
Proof.
  induction datos as [|[k v] resto IH]; simpl; intros Hnin; [reflexivity|].
  destruct (String.eqb_spec k u); [tauto|]. apply IH. tauto.
Qed.

Lemma buscar_presente (u : string) (g : list fila) datos :
  NoDup (map fst datos) -> In (u, g) datos -> buscar u datos = Some g.
Proof.
  induction datos as [|[k v] resto IH]; simpl; intros Hnd Hin; [tauto|].
  apply NoDup_cons_iff in Hnd as [Hnin Hnd].
  destruct Hin as [Heq|Hin].
  - inversion Heq; subst. now rewrite String.eqb_refl.
  - destruct (String.eqb_spec k u) as [->|Hk]; [|now apply IH].
    exfalso. apply Hnin. apply (in_map fst) in Hin. exact Hin.
Qed.

(** Every group of [agrupar rows] is the sub-list of the rows of its
    location, in fetch order. *)
Lemma grupo_de_agrupar (u : string) (g : list fila) (rows : list fila) :
  In (u, g) (agrupar rows) -> g = filter (en_ubicacion u) rows.
Proof.
  intros Hin.
  apply buscar_presente in Hin; [|apply NoDup_agrupar].
  rewrite buscar_agrupar in Hin.
  destruct (filter (en_ubicacion u) rows); congruence.
Qed.

(** ** One group *)

Lemma clasificar_spike_ubicacion u dT dM a :
  clasificar_spike u dT dM = Some a -> alerta_ubicacion a = u.
Proof.
  unfold clasificar_spike.
  repeat match goal with
         | |- context [if ?c then _ else _] => destruct c
         end; intros H; inversion H; reflexivity.
Qed.

Lemma spike_de_grupo_ubicacion u g a :
  spike_de_grupo u g = Ok (Some a) -> alerta_ubicacion a = u.
Proof.
  unfold spike_de_grupo.
  destruct (List.length g <? 2)%nat; [discriminate|].
  destruct (nth_error _ _) as [ult|]; [|discriminate].
  destruct (buscar_anterior _ _) as [ant|]; [|discriminate].
  destruct (restar _ _) as [dT|e]; simpl; [|discriminate].
  intros H. inversion H as [H']. now apply clasificar_spike_ubicacion in H'.
Qed.

Lemma nth_error_ultimo {A} (l : list A) (x : A) :
  nth_error l (List.length l - 1) = Some x -> exists pre, l = pre ++ [x].
Proof.
  destruct l as [|a l] using rev_ind; simpl; intros H; [discriminate|].
  exists l. rewrite length_app in H. simpl in H.
  replace (List.length l + 1 - 1)%nat with (List.length l) in H by lia.
  rewrite nth_error_app2, Nat.sub_diag in H by lia.
  simpl in H. congruence.
Qed.

Lemma buscar_anterior_con_temperatura lecturas n ant :
  buscar_anterior lecturas n = Some ant -> temperatura ant <> None.
Proof.
  induction n as [|i IH]; simpl; [discriminate|].
  destruct (nth_error lecturas i) as [r|]; [|discriminate].
  destruct (temperatura r) eqn:Ht; [|exact IH].
  intros H; inversion H; subst. congruence.
Qed.

(** The backward scan stops at the nearest earlier reading that has a
    temperature. *)
Lemma buscar_anterior_cercano pre ant ta (nulos : list fila) :
  temperatura ant = Some ta ->
  Forall (fun r => temperatura r = None) nulos ->
  forall resto,
    buscar_anterior (pre ++ ant :: nulos ++ resto)
      (List.length pre + 1 + List.length nulos) = Some ant.
Proof.
  intros Hta.
  induction nulos as [|x nulos IH] using rev_ind; intros Hnul resto.
  - simpl. replace (List.length pre + 1 + 0)%nat with (S (List.length pre)) by lia.
    simpl. rewrite nth_error_app2, Nat.sub_diag by lia. simpl.
    now rewrite Hta.
  - apply Forall_app in Hnul as [Hnul Hx].
    apply Forall_inv in Hx.
    rewrite length_app. simpl.
    replace (List.length pre + 1 + (List.length nulos + 1))%nat
      with (S (List.length pre + 1 + List.length nulos)) by lia.
    simpl.
    rewrite nth_error_app2 by lia.
    replace (List.length pre + 1 + List.length nulos - List.length pre)%nat
      with (S (List.length nulos)) by lia.
    simpl. rewrite <- app_assoc.
    rewrite nth_error_app2, Nat.sub_diag by lia. simpl.
    rewrite Hx. apply (IH Hnul).
Qed.

(** A group never raises when its latest reading has a temperature. *)
Lemma spike_de_grupo_ok (u : string) (g : list fila) :
  (forall pre ult, sort_key fecha_hora g = pre ++ [ult] ->
                   temperatura ult <> None) ->
  exists o, spike_de_grupo u g = Ok o.
Proof.
  intros Hult. unfold spike_de_grupo.
  destruct (List.length g <? 2)%nat; [now eexists|].
  destruct (nth_error _ _) as [ult|] eqn:Hn; [|now eexists].
  destruct (buscar_anterior _ _) as [ant|] eqn:Hb; [|now eexists].
  apply nth_error_ultimo in Hn as [pre Hpre].
  apply Hult in Hpre. apply buscar_anterior_con_temperatura in Hb.
  destruct (temperatura ult), (temperatura ant); try congruence.
  simpl. now eexists.
Qed.

(** The group of a location whose sorted readings end with a
    reference, readings without temperature, and the latest one. *)
Lemma spike_de_grupo_clasifica (u : string) (g pre nulos : list fila)
    (ant ult : fila) (ta tu : Q) :
  sort_key fecha_hora g = pre ++ ant :: nulos ++ [ult] ->
  temperatura ant = Some ta ->
  Forall (fun r => temperatura r = None) nulos ->
  temperatura ult = Some tu ->
  spike_de_grupo u g
  = Ok (clasificar_spike u (tu - ta)
          (total_seconds (fecha_hora ult - fecha_hora ant) / 60)).
Proof.
  intros Hs Hta Hnul Htu. unfold spike_de_grupo.
  assert (Hlen : List.length (sort_key fecha_hora g)
                 = (List.length pre + 1 + List.length nulos + 1)%nat).
  { rewrite Hs. rewrite length_app. simpl. rewrite length_app. simpl. lia. }
  rewrite sort_key_length in Hlen.
  destruct (Nat.ltb_spec (List.length g) 2) as [Hlt|_]; [lia|].
  rewrite sort_key_length, Hlen.
  replace (List.length pre + 1 + List.length nulos + 1 - 1)%nat
    with (List.length pre + 1 + List.length nulos)%nat by lia.
  rewrite Hs.
  rewrite (buscar_anterior_cercano pre ant ta nulos Hta Hnul [ult]).
  rewrite nth_error_app2 by lia.
  replace (List.length pre + 1 + List.length nulos - List.length pre)%nat
    with (S (List.length nulos)) by lia.
  simpl. rewrite nth_error_app2, Nat.sub_diag by lia. simpl.
  rewrite Htu, Hta. reflexivity.
Qed.

(** ** The loop over the groups and the whole detector *)

Lemma recorrer_grupos_filter (u : string) datos :
  forall acc alertas_,
    NoDup (map fst datos) ->
    recorrer_grupos datos acc = Ok alertas_ ->
    filter (alerta_en u) alertas_
    = filter (alerta_en u) acc ++ aporte u (buscar u datos).
Proof.
  induction datos as [|[k g] resto IH]; simpl; intros acc alertas_ Hnd Hrec.
  - inversion Hrec; subst. now rewrite app_nil_r.
  - apply NoDup_cons_iff in Hnd as [Hnin Hnd].
    destruct (spike_de_grupo k g) as [[a|]|e] eqn:Hsp; [| |discriminate].
    + rewrite (IH _ _ Hnd Hrec), filter_app, <- app_assoc. f_equal.
      pose proof (spike_de_grupo_ubicacion _ _ _ Hsp) as Hu.
      simpl. unfold alerta_en at 1. rewrite Hu.
      destruct (String.eqb_spec k u) as [->|Hk]; simpl.
      * rewrite Hsp, (buscar_ausente _ _ Hnin). reflexivity.
      * reflexivity.
    + rewrite (IH _ _ Hnd Hrec). f_equal.
      destruct (String.eqb_spec k u) as [->|Hk]; simpl; [|reflexivity].
      now rewrite Hsp, (buscar_ausente _ _ Hnin).
Qed.

Lemma recorrer_grupos_ok datos :
  (forall k g, In (k, g) datos -> exists o, spike_de_grupo k g = Ok o) ->
  forall acc, exists alertas_, recorrer_grupos datos acc = Ok alertas_.
Proof.
  induction datos as [|[k g] resto IH]; simpl; intros Hok acc.
  - now eexists.
  - destruct (Hok k g (or_introl eq_refl)) as [o Ho]. rewrite Ho.
    destruct o; apply IH; intros; apply Hok; now right.
Qed.

Lemma aporte_le1 (u : string) og : (List.length (aporte u og) <= 1)%nat.
Proof.
  unfold aporte. destruct og as [g|]; simpl; [|lia].
  destruct (spike_de_grupo u g) as [[a|]|e]; simpl; lia.
Qed.

Lemma clasificar_spike_nivel u dT dM a :
  clasificar_spike u dT dM = Some a ->
  nivel a = "roja" \/ nivel a = "amarilla" \/ nivel a = "azul".
Proof.
  unfold clasificar_spike.
  repeat match goal with
         | |- context [if ?c then _ else _] => destruct c
         end; intros H; inversion H; simpl; auto.
Qed.

Lemma spike_de_grupo_nivel u g a :
  spike_de_grupo u g = Ok (Some a) ->
  nivel a = "roja" \/ nivel a = "amarilla" \/ nivel a = "azul".
Proof.
  unfold spike_de_grupo.
  destruct (List.length g <? 2)%nat; [discriminate|].
  destruct (nth_error _ _) as [ult|]; [|discriminate].
  destruct (buscar_anterior _ _) as [ant|]; [|discriminate].
  destruct (restar _ _) as [dT|e]; simpl; [|discriminate].
  intros H. inversion H as [H']. now apply clasificar_spike_nivel in H'.
Qed.

Lemma recorrer_grupos_niveles (P : alerta -> Prop) datos :
  (forall k g a, spike_de_grupo k g = Ok (Some a) -> P a) ->
  forall acc alertas_,
    Forall P acc -> recorrer_grupos datos acc = Ok alertas_ ->
    Forall P alertas_.
Proof.
  intros HP.
  induction datos as [|[k g] resto IH]; simpl; intros acc alertas_ Hacc Hrec.
  - now inversion Hrec; subst.
  - destruct (spike_de_grupo k g) as [[a|]|e] eqn:Hsp; [| |discriminate].
    + eapply IH; [|exact Hrec]. apply Forall_app. split; [exact Hacc|].
      constructor; [now apply (HP k g)|constructor].
    + eapply IH; eassumption.
Qed.

(** The rows [spikes_de_rows] is given decide its result as follows. *)
Lemma spikes_de_rows_ok (rows : list fila) :
  ultimas_con_temperatura rows ->
  exists alertas_, spikes_de_rows rows = Ok alertas_.
Proof.
  intros Hult. destruct rows as [|r rows]; [now eexists|].
  unfold spikes_de_rows.
  destruct (recorrer_grupos_ok (agrupar (r :: rows))) with (acc := @nil alerta)
    as [alertas_ Hrec].
  - intros k g Hin. apply spike_de_grupo_ok. intros pre ult Hs.
    apply grupo_de_agrupar in Hin. subst g. now apply (Hult k pre).
  - rewrite Hrec. simpl. now eexists.
Qed.

Lemma spikes_de_rows_inv (rows : list fila) (alertas_ : list alerta) :
  spikes_de_rows rows = Ok alertas_ ->
  exists sin_ordenar,
    recorrer_grupos (agrupar rows) [] = Ok sin_ordenar
    /\ alertas_ = sort_key (clave_prioridad 9) sin_ordenar.
Proof.
  destruct rows as [|r rows]; simpl.
  - intros H; inversion H; subst. exists []. now split.
  - unfold spikes_de_rows.
    destruct (recorrer_grupos _ _) as [l|e]; simpl; [|discriminate].
    intros H; inversion H; subst. now exists l.
Qed.

Lemma spikes_de_rows_filter (u : string) (rows : list fila) alertas_ :
  spikes_de_rows rows = Ok alertas_ ->
  filter (alerta_en u) alertas_ = aporte u (buscar u (agrupar rows)).
Proof.
  intros H. apply spikes_de_rows_inv in H as (l & Hrec & ->).
  pose proof (recorrer_grupos_filter u _ _ _ (NoDup_agrupar rows) Hrec) as Hf.
  simpl in Hf.
  rewrite (filter_perm_le1 _ l).
  - exact Hf.
  - apply Permutation_sym, sort_key_perm.
  - rewrite Hf. apply aporte_le1.
Qed.

Lemma spikes_de_rows_sorted (rows : list fila) alertas_ :
  spikes_de_rows rows = Ok alertas_ ->
  StronglySorted (le_key (clave_prioridad 9)) alertas_.
Proof.
  intros H. apply spikes_de_rows_inv in H as (l & _ & ->).
  apply sort_key_sorted.
Qed.

Lemma spikes_de_rows_niveles (rows : list fila) alertas_ :
  spikes_de_rows rows = Ok alertas_ ->
  Forall (fun a => nivel a = "roja" \/ nivel a = "amarilla" \/ nivel a = "azul")
         alertas_.
Proof.
  intros H. apply spikes_de_rows_inv in H as (l & Hrec & ->).
  eapply Permutation_Forall; [apply Permutation_sym, sort_key_perm|].
  eapply recorrer_grupos_niveles; [|constructor|exact Hrec].
  intros k g a. apply spike_de_grupo_nivel.
Qed.

(** The detector is its pure part applied to the fetched rows, and it
    leaves the process state alone. *)
Lemma detect_temperature_spikes_eq ent location w :
  detect_temperature_spikes ent location w
  = (rbind (fetch_ventana ent (if truthy location then location else None))
           spikes_de_rows, w).
Proof.
  unfold detect_temperature_spikes, bind, lift.
  now destruct (fetch_ventana ent _).
Qed.

Lemma sin_nulos_ultimas (rows : list fila) :
  Forall (fun r => temperatura r <> None) rows ->
  ultimas_con_temperatura rows.
Proof.
  intros Hall u pre ult Hs.
  rewrite Forall_forall in Hall. apply Hall.
  assert (Hin : In ult (lecturas_de u rows)).
  { rewrite Hs. apply in_or_app. right. now left. }
  unfold lecturas_de in Hin.
  apply (Permutation_in _ (sort_key_perm fecha_hora _)) in Hin.
  now apply filter_In in Hin as [Hin _].
Qed.

Lemma Qle_bool_spec (x y : Q) : reflect (x <= y) (Qle_bool x y).
Proof. apply iff_reflect. symmetry. apply Qle_bool_iff. Qed.

(** ** The spike detector *)

(** C1. For a location whose readings in the fetched window, sorted by
    time, end with a reference reading that has a temperature, then
    only readings without one, then the latest reading, the detector
    returns and its alerts for that location follow the first matching
    rule in order: deltaTemp >= 4.0 and deltaMinutes <= 10 gives one
    'roja' alert; else deltaTemp >= 2.5 and deltaMinutes <= 10 one
    'amarilla' alert; else deltaTemp <= -5.0 and deltaMinutes <= 15 one
    'azul' alert; else none; and deltaMinutes <= 0 or > 20 gives none. *)
Theorem spike_first_matching_rule
    (ent : entorno) (location : option string) (w : proceso)
    (rows : list fila) (u : string) (pre nulos : list fila)
    (ant ult : fila) (ta tu : Q) :
  fetch_ventana ent (if truthy location then location else None) = Ok rows ->
  ultimas_con_temperatura rows ->
  lecturas_de u rows = pre ++ ant :: nulos ++ [ult] ->
  temperatura ant = Some ta ->
  Forall (fun r => temperatura r = None) nulos ->
  temperatura ult = Some tu ->
  let deltaTemp := tu - ta in
  let deltaMinutes := total_seconds (fecha_hora ult - fecha_hora ant) / 60 in
  let texto_ := (u ++ ": " ++ fmt_signo_1f deltaTemp ++ "°C en "
                   ++ fmt_0f deltaMinutes ++ " min")%string in
  exists alertas_,
    detect_temperature_spikes ent location w = (Ok alertas_, w)
    /\ let de_u := filter (alerta_en u) alertas_ in
       (deltaMinutes <= 0 \/ 20 < deltaMinutes -> de_u = [])
       /\ (0 < deltaMinutes /\ deltaMinutes <= 20 ->
           (4 <= deltaTemp /\ deltaMinutes <= 10 ->
            de_u = [{| alerta_ubicacion := u; nivel := "roja";
                       texto := ("SUBIDA CRÍTICA → " ++ texto_
                                   ++ " ¡POSIBLE EMERGENCIA!")%string |}])
           /\ (~ (4 <= deltaTemp /\ deltaMinutes <= 10) ->
               (2.5 <= deltaTemp /\ deltaMinutes <= 10 ->
                de_u = [{| alerta_ubicacion := u; nivel := "amarilla";
                           texto := ("Subida rápida → " ++ texto_)%string |}])
               /\ (~ (2.5 <= deltaTemp /\ deltaMinutes <= 10) ->
                   (deltaTemp <= -5 /\ deltaMinutes <= 15 ->
                    de_u = [{| alerta_ubicacion := u; nivel := "azul";
                               texto := ("Bajada brusca → " ++ texto_
                                           ++ " → Revisar sensor")%string |}])
                   /\ (~ (deltaTemp <= -5 /\ deltaMinutes <= 15) ->
                       de_u = [])))).
Proof.
  clear str_num.
  intros Hfetch Hult Hs Hta Hnul Htu deltaTemp deltaMinutes texto_.
  destruct (spikes_de_rows_ok rows Hult) as [alertas_ Hok].
  exists alertas_. split.
  { rewrite detect_temperature_spikes_eq, Hfetch. simpl. now rewrite Hok. }
  cbv zeta.
  rewrite (spikes_de_rows_filter u rows alertas_ Hok), buscar_agrupar.
  assert (Hsp := spike_de_grupo_clasifica u _ _ _ _ _ _ _ Hs Hta Hnul Htu).
  fold deltaTemp deltaMinutes in Hsp.
  unfold lecturas_de in Hs.
  destruct (filter (en_ubicacion u) rows) as [|r0 g] eqn:Hg.
  { destruct pre; discriminate Hs. }
  unfold aporte. rewrite Hsp. unfold clasificar_spike. fold texto_.
  clearbody deltaTemp deltaMinutes texto_.
  destruct (Qle_bool_spec deltaMinutes 0) as [H0|H0];
    destruct (Qle_bool_spec deltaMinutes 20) as [H20|H20]; simpl;
    try (split; [reflexivity | intros [Hpos Hle];
         try apply Qnot_le_lt in H20;
         exfalso; first [now apply (Qlt_not_le _ _ Hpos)
                        | now apply (Qlt_not_le _ _ H20)]]).
  split.
  { intros [Hc|Hc]; [tauto | exfalso; now apply (Qlt_not_le _ _ Hc)]. }
  intros _.
  destruct (Qle_bool_spec 4 deltaTemp) as [H4|H4];
    destruct (Qle_bool_spec deltaMinutes 10) as [H10|H10];
    destruct (Qle_bool_spec 2.5 deltaTemp) as [H25|H25];
    destruct (Qle_bool_spec deltaTemp (-5)) as [H5|H5];
    destruct (Qle_bool_spec deltaMinutes 15) as [H15|H15];
    simpl; tauto.
Qed.

Lemma detect_temperature_spikes_inv ent location w rows alertas_ w' :
  fetch_ventana ent (if truthy location then location else None) = Ok rows ->
  detect_temperature_spikes ent location w = (Ok alertas_, w') ->
  spikes_de_rows rows = Ok alertas_ /\ w' = w.
Proof.
  intros Hfetch. rewrite detect_temperature_spikes_eq, Hfetch. simpl.
  intros H; inversion H; subst. now split.
Qed.

Lemma detect_temperature_spikes_returns ent location w rows :
  fetch_ventana ent (if truthy location then location else None) = Ok rows ->
  ultimas_con_temperatura rows ->
  exists alertas_, detect_temperature_spikes ent location w = (Ok alertas_, w).
Proof.
  intros Hfetch Hult.
  destruct (spikes_de_rows_ok rows Hult) as [alertas_ Hok].
  exists alertas_.
  rewrite detect_temperature_spikes_eq, Hfetch. simpl. now rewrite Hok.
Qed.

(** C9. A call of the spike detector returns, for every location, at
    most one alert with that location; when the window holds no rows
    the result is the empty list; and the call does return whenever
    the latest reading of each location has a temperature. *)
Theorem spike_at_most_one_per_location
    (ent : entorno) (location : option string) (w : proceso)
    (rows : list fila) :
  fetch_ventana ent (if truthy location then location else None) = Ok rows ->
  (rows = [] -> detect_temperature_spikes ent location w = (Ok [], w))
  /\ (ultimas_con_temperatura rows ->
      exists alertas_,
        detect_temperature_spikes ent location w = (Ok alertas_, w))
  /\ (forall alertas_ w',
        detect_temperature_spikes ent location w = (Ok alertas_, w') ->
        forall u, (List.length (filter (alerta_en u) alertas_) <= 1)%nat).
Proof.
  intros Hfetch. split; [|split].
  - intros ->. now rewrite detect_temperature_spikes_eq, Hfetch.
  - now apply detect_temperature_spikes_returns.
  - intros alertas_ w' Hdet u.
    apply (detect_temperature_spikes_inv _ _ _ _ _ _ Hfetch) in Hdet as [Hsp _].
    rewrite (spikes_de_rows_filter u rows alertas_ Hsp).
    apply aporte_le1.
Qed.

Lemma clave_roja (defecto : Z) (a : alerta) :
  nivel a = "roja" -> clave_prioridad defecto a = 0%Z.
Proof. unfold clave_prioridad. now intros ->. Qed.

Lemma clave_amarilla (defecto : Z) (a : alerta) :
  nivel a = "amarilla" -> clave_prioridad defecto a = 1%Z.
Proof. unfold clave_prioridad. now intros ->. Qed.

Lemma clave_azul (defecto : Z) (a : alerta) :
  nivel a = "azul" -> clave_prioridad defecto a = 2%Z.
Proof. unfold clave_prioridad. now intros ->. Qed.


(** C10. The list the spike detector returns is already sorted by
    priority: among its alerts, whose levels are 'roja', 'amarilla' or
    'azul', nothing but 'roja' comes before a 'roja' alert and no
    'azul' comes before an 'amarilla' one; and the detector does
    return whenever the latest reading of each location has a
    temperature. *)
Theorem spike_result_sorted_by_priority
    (ent : entorno) (location : option string) (w : proceso)
    (rows : list fila) :
  fetch_ventana ent (if truthy location then location else None) = Ok rows ->
  (ultimas_con_temperatura rows ->
   exists alertas_,
     detect_temperature_spikes ent location w = (Ok alertas_, w))
  /\ (forall alertas_ w',
        detect_temperature_spikes ent location w = (Ok alertas_, w') ->
        StronglySorted (le_key (clave_prioridad 9)) alertas_
        /\ Forall (fun a => nivel a = "roja" \/ nivel a = "amarilla"
                            \/ nivel a = "azul") alertas_
        /\ forall l1 a l2 b l3,
             alertas_ = l1 ++ a :: l2 ++ b :: l3 ->
             (nivel b = "roja" -> nivel a = "roja")
             /\ (nivel b = "amarilla" -> nivel a <> "azul")).
Proof.
  intros Hfetch. split; [now apply detect_temperature_spikes_returns|].
  intros alertas_ w' Hdet.
  apply (detect_temperature_spikes_inv _ _ _ _ _ _ Hfetch) in Hdet as [Hsp _].
  pose proof (spikes_de_rows_sorted _ _ Hsp) as Hsorted.
  pose proof (spikes_de_rows_niveles _ _ Hsp) as Hniv.
  split; [exact Hsorted|]. split; [exact Hniv|].
  intros l1 a l2 b l3 ->.
  pose proof (sorted_app_le _ _ _ _ _ _ Hsorted) as Hle.
  assert (Ha : nivel a = "roja" \/ nivel a = "amarilla" \/ nivel a = "azul").
  { rewrite Forall_forall in Hniv. apply Hniv.
    apply in_or_app. right. now left. }
  split.
  - intros Hb. rewrite (clave_roja 9 b Hb) in Hle.
    destruct Ha as [Ha|[Ha|Ha]]; [exact Ha| |].
    + rewrite (clave_amarilla 9 a Ha) in Hle. lia.
    + rewrite (clave_azul 9 a Ha) in Hle. lia.
  - intros Hb Ha'. rewrite (clave_amarilla 9 b Hb) in Hle.
    rewrite (clave_azul 9 a Ha') in Hle. lia.
Qed.

(** ** The threshold evaluator and the aggregator *)

(** The three branches of the body of the threshold loop. *)
Lemma alerta_umbral_casos (um : umbrales) (r : fila) (temp : Q) :
  temperatura r = Some temp ->
  warning um < danger um ->
  (danger um <= temp ->
   alerta_umbral um r
   = Ok (Some {| alerta_ubicacion := ubicacion r; nivel := "roja";
                 texto := ("TEMPERATURA CRÍTICA " ++ str_num temp
                             ++ "°C en " ++ ubicacion r)%string |}))
  /\ (warning um <= temp /\ temp < danger um ->
      alerta_umbral um r
      = Ok (Some {| alerta_ubicacion := ubicacion r; nivel := "amarilla";
                    texto := ("Temperatura elevada " ++ str_num temp
                                ++ "°C en " ++ ubicacion r)%string |}))
  /\ (temp < warning um -> alerta_umbral um r = Ok None).
Proof.
  intros Ht Hwd. unfold alerta_umbral. rewrite Ht.
  destruct (Qle_bool_spec (danger um) temp) as [Hd|Hd];
    destruct (Qle_bool_spec (warning um) temp) as [Hw|Hw];
    repeat split; try reflexivity; intros H; exfalso.
  - destruct H as [_ H]. now apply (Qlt_not_le _ _ H).
  - now apply (Qlt_not_le _ _ H).
  - destruct H as [_ H]. now apply (Qlt_not_le _ _ H).
  - apply (Qlt_not_le _ _ H). apply Qle_trans with (danger um); [|exact Hd].
    now apply Qlt_le_weak.
  - now apply Hd.
  - now apply (Qlt_not_le _ _ H).
  - now apply Hd.
  - now destruct H as [H _].
Qed.

Lemma recorrer_lecturas_ok (um : umbrales) (lecturas : list fila) :
  Forall (fun r => temperatura r <> None) lecturas ->
  forall acc,
    recorrer_lecturas um lecturas acc = Ok (acc ++ alertas_umbral um lecturas).
Proof.
  induction 1 as [|r resto Hr _ IH]; intros acc; simpl.
  - now rewrite app_nil_r.
  - destruct (alerta_umbral um r) as [[a|]|e] eqn:Ha.
    + rewrite IH. now rewrite <- app_assoc.
    + now rewrite IH.
    + exfalso. unfold alerta_umbral in Ha.
      destruct (temperatura r) as [temp|]; [|congruence].
      destruct (Qle_bool (danger um) temp);
        [|destruct (Qle_bool (warning um) temp)]; discriminate.
Qed.

(** The loop stops with [TypeError] at the first reading without a
    temperature. *)
Lemma recorrer_lecturas_nulo (um : umbrales) (pre post : list fila) (r : fila) :
  Forall (fun r => temperatura r <> None) pre ->
  temperatura r = None ->
  forall acc, recorrer_lecturas um (pre ++ r :: post) acc = Raise TypeError.
Proof.
  intros Hpre Hr.
  induction Hpre as [|x pre Hx _ IH]; intros acc; simpl.
  - unfold alerta_umbral. now rewrite Hr.
  - unfold alerta_umbral at 1.
    destruct (temperatura x) as [temp|]; [|congruence].
    destruct (Qle_bool (danger um) temp);
      [|destruct (Qle_bool (warning um) temp)]; apply IH.
Qed.

Lemma alertas_umbral_niveles (um : umbrales) (lecturas : list fila) :
  Forall nivel_conocido (alertas_umbral um lecturas).
Proof.
  unfold alertas_umbral. rewrite Forall_forall. intros a Hin.
  apply in_flat_map in Hin as (r & _ & Hin).
  unfold alerta_umbral in Hin.
  destruct (temperatura r) as [temp|]; [|contradiction].
  unfold nivel_conocido.
  destruct (Qle_bool (danger um) temp);
    [|destruct (Qle_bool (warning um) temp)];
    simpl in Hin; try contradiction;
    destruct Hin as [<-|[]]; simpl; auto.
Qed.

(** The aggregator as a function of what its two readers return. *)
Lemma generar_alertas_eq (ent : entorno) (location : option string) (w : proceso) :
  generar_alertas ent location w
  = (rbind (fetch_latest ent location) (fun lecturas =>
     rbind (recorrer_lecturas (thresholds (config ent)) lecturas [])
       (fun alertas1 =>
     rbind (if spikes_activados (config ent)
            then rbind (rbind (fetch_ventana ent
                                 (if truthy location then location else None))
                              spikes_de_rows)
                       (fun spikes => Ok (alertas1 ++ spikes))
            else Ok alertas1) (fun alertas2 =>
     Ok (sort_key (clave_prioridad 99) alertas2)))), w).
Proof.
  unfold generar_alertas, get_latest_readings, bind, lift, ret.
  destruct (fetch_latest ent location) as [lecturas|e]; simpl; [|reflexivity].
  destruct (recorrer_lecturas _ lecturas []) as [alertas1|e]; simpl;
    [|reflexivity].
  destruct (spikes_activados (config ent)); [|reflexivity].
  rewrite detect_temperature_spikes_eq.
  destruct (rbind (fetch_ventana ent _) spikes_de_rows); reflexivity.
Qed.

(** What the loop appends for one reading, seen from its place in the
    list of readings. *)
Lemma recorrer_lecturas_en_medio (um : umbrales) (pre post : list fila)
    (r : fila) (propias : list alerta) :
  Forall (fun x => temperatura x <> None) (pre ++ post) ->
  alerta_umbral um r = Ok (hd_error propias) ->
  (List.length propias <= 1)%nat ->
  forall acc,
    recorrer_lecturas um (pre ++ r :: post) acc
    = Ok (acc ++ alertas_umbral um pre ++ propias ++ alertas_umbral um post).
Proof.
  intros Htemp Hr Hlen acc.
  apply Forall_app in Htemp as [Hpre Hpost].
  assert (Hnn : temperatura r <> None).
  { intros Hn. unfold alerta_umbral in Hr. rewrite Hn in Hr. discriminate. }
  rewrite recorrer_lecturas_ok
    by (apply Forall_app; split; [exact Hpre | constructor; assumption]).
  unfold alertas_umbral. rewrite flat_map_app. cbn [flat_map].
  rewrite Hr.
  destruct propias as [|a [|b l]]; simpl in *; [reflexivity|reflexivity|lia].
Qed.

(** C3. A reading of the latest readings with a present temperature,
    under thresholds with danger > warning, makes the threshold loop
    of [generar_alertas] append, at the place of the reading among
    the alerts of the other readings, exactly one 'roja' alert when
    temperature >= danger, exactly one 'amarilla' alert when
    warning <= temperature < danger, and nothing when
    temperature < warning; the aggregator returns these alerts and
    the spike alerts sorted by priority. *)
Theorem threshold_classification
    (ent : entorno) (location : option string) (w : proceso)
    (pre post : list fila) (r : fila) (temp : Q) (spikes : list alerta) :
  fetch_latest ent location = Ok (pre ++ r :: post) ->
  Forall (fun x => temperatura x <> None) (pre ++ post) ->
  temperatura r = Some temp ->
  (if spikes_activados (config ent)
   then detect_temperature_spikes ent location w = (Ok spikes, w)
   else spikes = []) ->
  let um := thresholds (config ent) in
  warning um < danger um ->
  let con (propias : list alerta) : Prop :=
    (forall acc,
       recorrer_lecturas um (pre ++ r :: post) acc
       = Ok (acc ++ alertas_umbral um pre ++ propias ++ alertas_umbral um post))
    /\ generar_alertas ent location w
       = (Ok (sort_key (clave_prioridad 99)
                (alertas_umbral um pre ++ propias ++ alertas_umbral um post
                   ++ spikes)), w) in
  (danger um <= temp ->
   con [{| alerta_ubicacion := ubicacion r; nivel := "roja";
           texto := ("TEMPERATURA CRÍTICA " ++ str_num temp
                       ++ "°C en " ++ ubicacion r)%string |}])
  /\ (warning um <= temp /\ temp < danger um ->
      con [{| alerta_ubicacion := ubicacion r; nivel := "amarilla";
              texto := ("Temperatura elevada " ++ str_num temp
                          ++ "°C en " ++ ubicacion r)%string |}])
  /\ (temp < warning um -> con []).
Proof.
  intros Hlatest Htemp Hr Hspikes um Hwd con.
  assert (Hcon : forall propias,
            alerta_umbral um r = Ok (hd_error propias) ->
            (List.length propias <= 1)%nat -> con propias).
  { intros propias Hbody Hlen.
    pose proof (recorrer_lecturas_en_medio um pre post r propias
                  Htemp Hbody Hlen) as Hloop.
    split; [exact Hloop|].
    unfold um in *.
    rewrite generar_alertas_eq, Hlatest. simpl.
    rewrite (Hloop []). simpl.
    destruct (spikes_activados (config ent)).
    - rewrite detect_temperature_spikes_eq in Hspikes.
      inversion Hspikes as [Hs]. rewrite Hs. simpl.
      now rewrite <- !app_assoc.
    - subst spikes. simpl. now rewrite app_nil_r. }
  destruct (alerta_umbral_casos um r temp Hr Hwd) as (Hroja & Hamarilla & Hnada).
  split; [|split]; intros H; apply Hcon; simpl; auto.
Qed.

(** C8. A call of the aggregator, with any location filter and
    whatever it returns or raises, leaves the process state, and in
    particular [last_alert_sent] and [ultimas_alertas] of the alert
    manager, as it found it. *)
Theorem aggregator_preserves_dispatch_state
    (ent : entorno) (location : option string) (w : proceso) :
  snd (generar_alertas ent location w) = w
  /\ last_alert_sent (alert_manager (snd (generar_alertas ent location w)))
     = last_alert_sent (alert_manager w)
  /\ ultimas_alertas (alert_manager (snd (generar_alertas ent location w)))
     = ultimas_alertas (alert_manager w).
Proof. rewrite generar_alertas_eq. simpl. auto. Qed.


(** ** The mailer and the scheduler *)

(** A call of the mailer is recorded, touches nothing of the alert
    manager, and returns unless the SMTP session raises something the
    function has no handler for. *)
Lemma EnviarCorreoSSL_efecto ent cred dest asunto_ html w :
  let header := {| Subject := asunto_; From := remitente cred; To := dest;
                   Bcc := None; cuerpo_html := html; adjunto := None |} in
  let '(r, w') := EnviarCorreoSSL ent cred dest asunto_ html EmptyString false w in
  alert_manager w' = alert_manager w
  /\ llamadas_mailer w' = llamadas_mailer w ++ [llamada_a asunto_ html dest]
  /\ match sesion_smtp ent cred header with
     | None => exists errores, r = Ok (true, errores)
     | Some e => if capturada e
                 then exists errores, r = Ok (false, errores)
                 else r = Raise e
     end.
Proof.
  unfold EnviarCorreoSSL, adjuntar, anotar_llamada, intentar_envio, bind,
    ret, lift, logging, llamada_a.
  cbn [no_vacia andb].
  destruct (sesion_smtp ent cred _) as [[]|]; cbn; eauto.
Qed.

(** The loop over the recipients: the calls it makes are those of the
    first [k] recipients, it never writes the alert manager, and only
    an exception escaping the mailer makes [k] smaller than the number
    of recipients. *)
Lemma enviar_a_destinatarios_efecto ent cred asunto_ html dests :
  forall w,
    let '(r, w') := enviar_a_destinatarios ent cred asunto_ html dests w in
    alert_manager w' = alert_manager w
    /\ exists k,
         (k <= List.length dests)%nat
         /\ llamadas_mailer w'
            = llamadas_mailer w ++ map (llamada_a asunto_ html) (firstn k dests)
         /\ (r = Ok tt -> k = List.length dests).
Proof.
  induction dests as [|dest resto IH]; intros w; simpl.
  - split; [reflexivity|]. exists 0%nat. simpl.
    rewrite app_nil_r. auto.
  - unfold bind at 1.
    pose proof (EnviarCorreoSSL_efecto ent cred dest asunto_ html w) as He.
    cbv zeta in He.
    destruct (EnviarCorreoSSL ent cred dest asunto_ html EmptyString false w)
      as [[x|e] w1].
    + destruct He as (Ham & Hll & _).
      specialize (IH w1).
      destruct (enviar_a_destinatarios ent cred asunto_ html resto w1)
        as [r w2].
      destruct IH as (Ham2 & k & Hk & Hll2 & Hr).
      split; [congruence|]. exists (S k). simpl.
      split; [lia|]. split.
      * rewrite Hll2, Hll, <- app_assoc. reflexivity.
      * intros Hok. now rewrite (Hr Hok).
    + destruct He as (Ham & Hll & _).
      split; [exact Ham|]. exists 1%nat. simpl.
      split; [lia|]. split; [exact Hll|discriminate].
Qed.

(** When every failure of the SMTP session is one the mailer handles,
    each recipient gets its call. *)
Lemma enviar_a_destinatarios_todos ent cred asunto_ html dests :
  (forall m e, sesion_smtp ent cred m = Some e -> capturada e = true) ->
  forall w,
    exists w',
      enviar_a_destinatarios ent cred asunto_ html dests w = (Ok tt, w')
      /\ alert_manager w' = alert_manager w
      /\ llamadas_mailer w'
         = llamadas_mailer w ++ map (llamada_a asunto_ html) dests.
Proof.
  intros Hcap.
  induction dests as [|dest resto IH]; intros w; simpl.
  - exists w. now rewrite app_nil_r.
  - unfold bind at 1.
    pose proof (EnviarCorreoSSL_efecto ent cred dest asunto_ html w) as He.
    cbv zeta in He.
    destruct (EnviarCorreoSSL ent cred dest asunto_ html EmptyString false w)
      as [r w1].
    destruct He as (Ham & Hll & Hr).
    destruct (sesion_smtp ent cred _) as [e|] eqn:Hs.
    + rewrite (Hcap _ _ Hs) in Hr. destruct Hr as [errores ->].
      destruct (IH w1) as (w2 & Heq & Ham2 & Hll2).
      exists w2. rewrite Heq, Ham2, Hll2, Ham, Hll, <- app_assoc. auto.
    + destruct Hr as [errores ->].
      destruct (IH w1) as (w2 & Heq & Ham2 & Hll2).
      exists w2. rewrite Heq, Ham2, Hll2, Ham, Hll, <- app_assoc. auto.
Qed.

(** The three ways a turn ends without doing anything. *)
Lemma tick_desactivado ent w :
  cfg_enabled (email (config ent)) = false ->
  enviar_alertas_si_toca ent w = (Ok tt, w).
Proof. intros H. unfold enviar_alertas_si_toca. now rewrite H. Qed.

Lemma tick_dentro_del_intervalo ent w :
  dentro_del_intervalo (alert_manager w) (ahora ent) (intervalo_de ent) = true ->
  enviar_alertas_si_toca ent w = (Ok tt, w).
Proof.
  intros H. unfold enviar_alertas_si_toca.
  destruct (cfg_enabled _); [|reflexivity]. simpl.
  unfold bind, get_alert_manager. unfold intervalo_de in H. now rewrite H.
Qed.

Lemma tick_sin_alertas ent w w' :
  generar_alertas ent None w = (Ok [], w') ->
  enviar_alertas_si_toca ent w = (Ok tt, w).
Proof.
  intros Hgen. unfold enviar_alertas_si_toca.
  destruct (cfg_enabled _); [|reflexivity]. simpl.
  unfold bind at 1. unfold get_alert_manager.
  destruct (dentro_del_intervalo _ _ _); [reflexivity|].
  unfold bind. rewrite Hgen.
  rewrite generar_alertas_eq in Hgen. inversion Hgen. reflexivity.
Qed.

(** A turn that dispatches stores the new state first and then runs
    the loop over the recipients from that state. *)
Lemma tick_despacha ent w alertas_ :
  cfg_enabled (email (config ent)) = true ->
  dentro_del_intervalo (alert_manager w) (ahora ent) (intervalo_de ent) = false ->
  generar_alertas ent None w = (Ok alertas_, w) ->
  alertas_ <> [] ->
  enviar_alertas_si_toca ent w
  = enviar_a_destinatarios ent (smtp_credenciales ent) asunto_alerta
      (preparar_html alertas_) (cfg_destinatarios (email (config ent)))
      {| alert_manager := {| last_alert_sent := Some (ahora ent);
                             ultimas_alertas := alertas_ |};
         llamadas_mailer := llamadas_mailer w;
         registro := registro w |}.
Proof.
  intros Hen Hdentro Hgen Hne. unfold enviar_alertas_si_toca.
  rewrite Hen. simpl. unfold bind at 1. unfold get_alert_manager.
  unfold intervalo_de in Hdentro. rewrite Hdentro.
  unfold bind at 1. rewrite Hgen.
  destruct alertas_ as [|a l]; [congruence|].
  unfold bind at 1. unfold set_alert_manager. reflexivity.
Qed.

Lemma toca_fuera_del_intervalo ent w :
  toca ent w ->
  dentro_del_intervalo (alert_manager w) (ahora ent) (intervalo_de ent) = false.
Proof.
  unfold toca, dentro_del_intervalo.
  intros [->|(t & -> & Ht)]; [reflexivity|].
  apply Z.ltb_ge. exact Ht.
Qed.

Lemma generar_alertas_fst ent location w r :
  fst (generar_alertas ent location w) = r ->
  generar_alertas ent location w = (r, w).
Proof. rewrite generar_alertas_eq. simpl. now intros ->. Qed.

(** A dispatching turn leaves the alert manager holding the turn's
    time and batch, whatever the SMTP sessions do, and calls the
    mailer for a prefix of the recipients. *)
Lemma despacho_guarda_estado ent w alertas_ :
  cfg_enabled (email (config ent)) = true ->
  toca ent w ->
  fst (generar_alertas ent None w) = Ok alertas_ ->
  alertas_ <> [] ->
  alert_manager (tick ent w)
  = {| last_alert_sent := Some (ahora ent); ultimas_alertas := alertas_ |}
  /\ exists k,
       (k <= List.length (cfg_destinatarios (email (config ent))))%nat
       /\ llamadas_mailer (tick ent w)
          = llamadas_mailer w
            ++ map (llamada_a asunto_alerta (preparar_html alertas_))
                   (firstn k (cfg_destinatarios (email (config ent))))
       /\ (fst (enviar_alertas_si_toca ent w) = Ok tt ->
           k = List.length (cfg_destinatarios (email (config ent)))).
Proof.
  intros Hen Htoca Hgen Hne. unfold tick.
  rewrite (tick_despacha ent w alertas_ Hen
             (toca_fuera_del_intervalo _ _ Htoca)
             (generar_alertas_fst _ _ _ _ Hgen) Hne).
  match goal with
  | |- context [enviar_a_destinatarios ?e ?c ?a ?h ?d ?w0] =>
      pose proof (enviar_a_destinatarios_efecto e c a h d w0) as He;
      destruct (enviar_a_destinatarios e c a h d w0) as [r w1]
  end.
  simpl in *. exact He.
Qed.

(** If the SMTP sessions only fail with exceptions the mailer
    handles, a dispatching turn calls the mailer once for every
    configured recipient, in order. *)
Lemma despacho_a_todos ent w alertas_ :
  cfg_enabled (email (config ent)) = true ->
  toca ent w ->
  fst (generar_alertas ent None w) = Ok alertas_ ->
  alertas_ <> [] ->
  (forall m e, sesion_smtp ent (smtp_credenciales ent) m = Some e ->
               capturada e = true) ->
  fst (enviar_alertas_si_toca ent w) = Ok tt
  /\ llamadas_mailer (tick ent w)
     = llamadas_mailer w
       ++ map (llamada_a asunto_alerta (preparar_html alertas_))
              (cfg_destinatarios (email (config ent))).
Proof.
  intros Hen Htoca Hgen Hne Hcap. unfold tick.
  rewrite (tick_despacha ent w alertas_ Hen
             (toca_fuera_del_intervalo _ _ Htoca)
             (generar_alertas_fst _ _ _ _ Hgen) Hne).
  match goal with
  | |- context [enviar_a_destinatarios ?e ?c ?a ?h ?d ?w0] =>
      destruct (enviar_a_destinatarios_todos e c a h d Hcap w0)
        as (w1 & -> & _ & Hll)
  end.
  simpl in *. auto.
Qed.

(** The calls the loop over the recipients makes, exactly. *)
Lemma enviar_a_destinatarios_alcanzados ent cred asunto_ html dests :
  forall w,
    llamadas_mailer (snd (enviar_a_destinatarios ent cred asunto_ html dests w))
    = llamadas_mailer w
      ++ map (llamada_a asunto_ html) (alcanzados ent cred asunto_ html dests).
Proof.
  induction dests as [|dest resto IH]; intros w; simpl.
  - now rewrite app_nil_r.
  - unfold bind at 1.
    pose proof (EnviarCorreoSSL_efecto ent cred dest asunto_ html w) as He.
    cbv zeta in He. unfold cabecera_de.
    destruct (EnviarCorreoSSL ent cred dest asunto_ html EmptyString false w)
      as [r w1].
    destruct He as (_ & Hll & Hr).
    destruct (sesion_smtp ent cred _) as [e|].
    + destruct (capturada e).
      * destruct Hr as [errores ->]. rewrite IH, Hll, <- app_assoc.
        reflexivity.
      * rewrite Hr. simpl. exact Hll.
    + destruct Hr as [errores ->]. rewrite IH, Hll, <- app_assoc.
      reflexivity.
Qed.

(** The first recipient is always called, the calls follow the
    configured order, and every recipient is called when the SMTP
    sessions fail only in ways the mailer handles. *)
Lemma alcanzados_prefijo ent cred asunto_ html dests :
  hd_error (alcanzados ent cred asunto_ html dests) = hd_error dests
  /\ (exists k, alcanzados ent cred asunto_ html dests = firstn k dests)
  /\ ((forall m e, sesion_smtp ent cred m = Some e -> capturada e = true) ->
      alcanzados ent cred asunto_ html dests = dests).
Proof.
  induction dests as [|dest resto (_ & (k & Hk) & Htodos)]; simpl.
  - split; [reflexivity|]. split; [now exists 0%nat | reflexivity].
  - destruct (sesion_smtp ent cred _) as [e|] eqn:Hs.
    + destruct (capturada e) eqn:Hc.
      * split; [reflexivity|]. split.
        -- exists (S k). simpl. now rewrite Hk.
        -- intros Hcap. now rewrite (Htodos Hcap).
      * split; [reflexivity|]. split.
        -- now exists 1%nat.
        -- intros Hcap. rewrite (Hcap _ _ Hs) in Hc. discriminate.
    + split; [reflexivity|]. split.
      * exists (S k). simpl. now rewrite Hk.
      * intros Hcap. now rewrite (Htodos Hcap).
Qed.

(** C2. A turn of the scheduler at which [last_alert_sent] is set and
    [ahora - last_alert_sent] is strictly below the configured
    interval returns without a mailer call and without changing the
    process state. Hence, when a turn dispatches and the next turn
    comes before the interval (as configured at that next turn) has
    elapsed, the two turns together make exactly the mailer calls of
    one batch, that of the first turn: one call for each recipient the
    loop of that turn gets to, in the configured order, starting with
    the first recipient, and one call for every recipient when the
    SMTP sessions fail only in ways the mailer handles. *)
Theorem throttled_tick_does_nothing
    (ent : entorno) (w : proceso) (t : Z)
    (ent1 ent2 : entorno) (w0 : proceso) (alertas_ : list alerta) :
  (last_alert_sent (alert_manager w) = Some t ->
   (ahora ent - t < intervalo_de ent)%Z ->
   enviar_alertas_si_toca ent w = (Ok tt, w))
  /\ (cfg_enabled (email (config ent1)) = true ->
      toca ent1 w0 ->
      fst (generar_alertas ent1 None w0) = Ok alertas_ ->
      alertas_ <> [] ->
      (ahora ent2 - ahora ent1 < intervalo_de ent2)%Z ->
      let dests := cfg_destinatarios (email (config ent1)) in
      let lote :=
        alcanzados ent1 (smtp_credenciales ent1) asunto_alerta
          (preparar_html alertas_) dests in
      last_alert_sent (alert_manager (tick ent1 w0)) = Some (ahora ent1)
      /\ tick ent2 (tick ent1 w0) = tick ent1 w0
      /\ loop_envio_alertas [ent1; ent2] w0 = loop_envio_alertas [ent1] w0
      /\ llamadas_mailer (loop_envio_alertas [ent1; ent2] w0)
         = llamadas_mailer w0
           ++ map (llamada_a asunto_alerta (preparar_html alertas_)) lote
      /\ hd_error lote = hd_error dests
      /\ (exists k, lote = firstn k dests)
      /\ ((forall m e,
             sesion_smtp ent1 (smtp_credenciales ent1) m = Some e ->
             capturada e = true) ->
          lote = dests)).
Proof.
  assert (Hskip : forall e p s,
            last_alert_sent (alert_manager p) = Some s ->
            (ahora e - s < intervalo_de e)%Z ->
            enviar_alertas_si_toca e p = (Ok tt, p)).
  { intros e p s Hlast Hlt. apply tick_dentro_del_intervalo.
    unfold dentro_del_intervalo. rewrite Hlast. now apply Z.ltb_lt. }
  split; [apply Hskip|].
  intros Hen Htoca Hgen Hne Hlt dests lote.
  destruct (despacho_guarda_estado ent1 w0 alertas_ Hen Htoca Hgen Hne)
    as (Ham & _).
  assert (Hlast : last_alert_sent (alert_manager (tick ent1 w0))
                  = Some (ahora ent1)) by now rewrite Ham.
  assert (Htick2 : tick ent2 (tick ent1 w0) = tick ent1 w0).
  { unfold tick at 1. now rewrite (Hskip ent2 _ _ Hlast Hlt). }
  split; [exact Hlast|]. split; [exact Htick2|].
  simpl. rewrite Htick2. split; [reflexivity|].
  split.
  - unfold tick.
    rewrite (tick_despacha ent1 w0 alertas_ Hen
               (toca_fuera_del_intervalo _ _ Htoca)
               (generar_alertas_fst _ _ _ _ Hgen) Hne).
    rewrite enviar_a_destinatarios_alcanzados. reflexivity.
  - apply alcanzados_prefijo.
Qed.

(** C5. A turn of the scheduler that is enabled and due, but whose
    aggregation yields no alert, returns with [last_alert_sent],
    [ultimas_alertas] and the list of mailer calls unchanged: the
    empty cycle does not consume the throttle window. *)
Theorem empty_cycle_keeps_dispatch_state (ent : entorno) (w : proceso) :
  cfg_enabled (email (config ent)) = true ->
  toca ent w ->
  fst (generar_alertas ent None w) = Ok [] ->
  enviar_alertas_si_toca ent w = (Ok tt, w)
  /\ last_alert_sent (alert_manager (tick ent w))
     = last_alert_sent (alert_manager w)
  /\ ultimas_alertas (alert_manager (tick ent w))
     = ultimas_alertas (alert_manager w)
  /\ llamadas_mailer (tick ent w) = llamadas_mailer w
  /\ toca ent (tick ent w).
Proof.
  intros _ Htoca Hgen.
  apply generar_alertas_fst in Hgen.
  pose proof (tick_sin_alertas ent w w Hgen) as Heq.
  unfold tick. rewrite Heq. simpl. auto.
Qed.

(** The aggregator raises [TypeError] as soon as one of the latest
    readings has no temperature, whatever the other readings are. *)
Lemma generar_alertas_lectura_nula (ent : entorno) (location : option string)
    (w : proceso) (pre post : list fila) (r : fila) :
  fetch_latest ent location = Ok (pre ++ r :: post) ->
  Forall (fun x => temperatura x <> None) pre ->
  temperatura r = None ->
  generar_alertas ent location w = (Raise TypeError, w).
Proof.
  intros Hlatest Hpre Hr.
  rewrite generar_alertas_eq, Hlatest. simpl.
  now rewrite (recorrer_lecturas_nulo _ pre post r Hpre Hr).
Qed.

(** Rows that satisfy the WHERE clause of the detector's query give
    every location a latest reading with a temperature. *)
Lemma where_ventana_ultimas (now : Z) (location : option string)
    (rows : list fila) :
  Forall (where_ventana now location) rows -> ultimas_con_temperatura rows.
Proof.
  intros Hall. apply sin_nulos_ultimas.
  eapply Forall_impl; [|exact Hall].
  intros r (_ & Hr & _). exact Hr.
Qed.

(** * Further properties of the code *)

(** ** The spike detector, beyond the first-match rule *)

Lemma spikes_de_rows_por_ubicacion (u : string) (rows : list fila) alertas_ :
  spikes_de_rows rows = Ok alertas_ ->
  filter (alerta_en u) alertas_ = aporte u (Some (filter (en_ubicacion u) rows)).
Proof.
  intros H. rewrite (spikes_de_rows_filter u rows alertas_ H), buscar_agrupar.
  now destruct (filter (en_ubicacion u) rows).
Qed.

Lemma buscar_In (u : string) (g : list fila) datos :
  buscar u datos = Some g -> In (u, g) datos.
Proof.
  induction datos as [|[k v] resto IH]; simpl; [discriminate|].
  destruct (String.eqb_spec k u) as [->|Hk].
  - intros H; inversion H; subst. now left.
  - intros H. right. now apply IH.
Qed.

Lemma recorrer_grupos_ok_inv datos :
  forall acc alertas_,
    recorrer_grupos datos acc = Ok alertas_ ->
    forall k g, In (k, g) datos -> exists o, spike_de_grupo k g = Ok o.
Proof.
  induction datos as [|[k0 g0] resto IH]; simpl; intros acc alertas_ Hrec k g Hin;
    [contradiction|].
  destruct (spike_de_grupo k0 g0) as [o|e] eqn:Hsp; [|discriminate].
  destruct Hin as [Heq|Hin].
  - inversion Heq; subst. now exists o.
  - destruct o; eapply IH; eassumption.
Qed.

(** The detector returns exactly when no location makes its group
    raise. *)
Lemma spikes_de_rows_ok_iff (rows : list fila) :
  (exists alertas_, spikes_de_rows rows = Ok alertas_)
  <-> forall u, exists o,
        spike_de_grupo u (filter (en_ubicacion u) rows) = Ok o.
Proof.
  split.
  - intros [alertas_ H] u.
    apply spikes_de_rows_inv in H as (l & Hrec & _).
    destruct (filter (en_ubicacion u) rows) as [|r g] eqn:Hg; [now eexists|].
    apply (recorrer_grupos_ok_inv _ _ _ Hrec u).
    apply buscar_In. rewrite buscar_agrupar, Hg. reflexivity.
  - intros Hall. destruct rows as [|r rows]; [now eexists|].
    unfold spikes_de_rows.
    destruct (recorrer_grupos_ok (agrupar (r :: rows))) with (acc := @nil alerta)
      as [alertas_ Hrec].
    + intros k g Hin. apply grupo_de_agrupar in Hin. subst g. apply Hall.
    + rewrite Hrec. simpl. now eexists.
Qed.

(** X1. A location with fewer than two readings in the fetched window
    gets no spike alert. *)
Theorem spike_needs_two_readings
    (ent : entorno) (location : option string) (w w' : proceso)
    (rows : list fila) (alertas_ : list alerta) (u : string) :
  fetch_ventana ent (if truthy location then location else None) = Ok rows ->
  (List.length (filter (en_ubicacion u) rows) < 2)%nat ->
  detect_temperature_spikes ent location w = (Ok alertas_, w') ->
  filter (alerta_en u) alertas_ = [].
Proof.
  intros Hfetch Hlen Hdet.
  apply (detect_temperature_spikes_inv _ _ _ _ _ _ Hfetch) in Hdet as [Hsp _].
  rewrite (spikes_de_rows_por_ubicacion u rows alertas_ Hsp).
  unfold aporte, spike_de_grupo.
  destruct (Nat.ltb_spec (List.length (filter (en_ubicacion u) rows)) 2);
    [reflexivity | lia].
Qed.

(** X2. The spike alerts of a location depend on the readings of that
    location only: two fetched windows that agree on the rows of [u], in
    order, give the same alerts for [u]. *)
Theorem spike_alerts_are_local
    (rows1 rows2 : list fila) (alertas1 alertas2 : list alerta) (u : string) :
  filter (en_ubicacion u) rows1 = filter (en_ubicacion u) rows2 ->
  spikes_de_rows rows1 = Ok alertas1 ->
  spikes_de_rows rows2 = Ok alertas2 ->
  filter (alerta_en u) alertas1 = filter (alerta_en u) alertas2.
Proof.
  intros Heq H1 H2.
  rewrite (spikes_de_rows_por_ubicacion u rows1 alertas1 H1).
  rewrite (spikes_de_rows_por_ubicacion u rows2 alertas2 H2).
  now rewrite Heq.
Qed.

(** X3. On rows that satisfy the WHERE clause of its own query the
    detector never raises. *)
Theorem spike_detector_total_on_query_rows
    (ent : entorno) (location : option string) (w : proceso)
    (now : Z) (rows : list fila) :
  fetch_ventana ent (if truthy location then location else None) = Ok rows ->
  Forall (where_ventana now location) rows ->
  exists alertas_,
    detect_temperature_spikes ent location w = (Ok alertas_, w).
Proof.
  intros Hfetch Hwhere.
  apply (detect_temperature_spikes_returns ent location w rows Hfetch).
  now apply (where_ventana_ultimas now location).
Qed.

(** Two sorted lists with the same elements and pairwise different
    keys are the same list. *)
Lemma sorted_perm_unique {A} (key : A -> Z) (l1 : list A) :
  forall l2,
    StronglySorted (le_key key) l1 ->
    StronglySorted (le_key key) l2 ->
    Permutation l1 l2 ->
    NoDup (map key l1) ->
    l1 = l2.
Proof.
  induction l1 as [|a t1 IH]; intros l2 Hs1 Hs2 Hp Hnd.
  - now apply Permutation_nil in Hp.
  - destruct l2 as [|b t2].
    { apply Permutation_sym, Permutation_nil in Hp. discriminate. }
    apply StronglySorted_inv in Hs1 as [Hs1 Ha].
    apply StronglySorted_inv in Hs2 as [Hs2 Hb].
    simpl in Hnd. apply NoDup_cons_iff in Hnd as [Hnin Hnd].
    rewrite Forall_forall in Ha, Hb.
    assert (Hab : a = b).
    { assert (Hb1 : In b (a :: t1)).
      { apply (Permutation_in _ (Permutation_sym Hp)). now left. }
      destruct Hb1 as [Heq|Hb1]; [exact Heq|].
      assert (Ha2 : In a (b :: t2)).
      { apply (Permutation_in _ Hp). now left. }
      destruct Ha2 as [Heq|Ha2]; [now symmetry|].
      exfalso. apply Hnin.
      pose proof (Ha b Hb1) as H1. pose proof (Hb a Ha2) as H2.
      unfold le_key in H1, H2.
      replace (key a) with (key b) by lia.
      now apply in_map. }
    subst b. f_equal.
    apply IH; try assumption.
    now apply Permutation_cons_inv in Hp.
Qed.

Lemma sort_key_perm_nodup {A} (key : A -> Z) (l l' : list A) :
  Permutation l l' ->
  NoDup (map key l) ->
  sort_key key l = sort_key key l'.
Proof.
  intros Hp Hnd.
  apply (sorted_perm_unique key); try apply sort_key_sorted.
  - eapply Permutation_trans; [apply sort_key_perm|].
    eapply Permutation_trans; [exact Hp|].
    apply Permutation_sym, sort_key_perm.
  - eapply Permutation_NoDup; [|exact Hnd].
    apply Permutation_map, Permutation_sym, sort_key_perm.
Qed.

Lemma filter_Permutation {A} (f : A -> bool) (l l' : list A) :
  Permutation l l' -> Permutation (filter f l) (filter f l').
Proof.
  induction 1; simpl.
  - constructor.
  - destruct (f x); [now apply perm_skip | assumption].
  - destruct (f x), (f y); try apply Permutation_refl. apply perm_swap.
  - eapply Permutation_trans; eassumption.
Qed.

(** When the readings of each location have different timestamps, the
    group of a location gives the same result whatever the order of the
    fetched rows. *)
Lemma spike_de_grupo_perm (u : string) (rows rows' : list fila) :
  Permutation rows rows' ->
  NoDup (map fecha_hora (filter (en_ubicacion u) rows)) ->
  spike_de_grupo u (filter (en_ubicacion u) rows')
  = spike_de_grupo u (filter (en_ubicacion u) rows).
Proof.
  intros Hp Hnd.
  pose proof (filter_Permutation (en_ubicacion u) _ _ Hp) as Hpf.
  unfold spike_de_grupo.
  rewrite <- (Permutation_length Hpf).
  now rewrite <- (sort_key_perm_nodup fecha_hora _ _ Hpf Hnd).
Qed.

Lemma alerta_eq_dec (a b : alerta) : {a = b} + {a <> b}.
Proof. decide equality; apply string_dec. Defined.

(** Lists of alerts that agree location by location have the same
    alerts. *)
Lemma Permutation_por_ubicacion (l l' : list alerta) :
  (forall u, filter (alerta_en u) l = filter (alerta_en u) l') ->
  Permutation l l'.
Proof.
  intros Hall.
  apply (Permutation_count_occ alerta_eq_dec). intros x.
  assert (Hcount : forall m,
            count_occ alerta_eq_dec m x
            = count_occ alerta_eq_dec
                (filter (alerta_en (alerta_ubicacion x)) m) x).
  { induction m as [|y m IH]; [reflexivity|]. simpl.
    destruct (alerta_eq_dec y x) as [->|Hne].
    - unfold alerta_en at 1. rewrite String.eqb_refl. simpl.
      destruct (alerta_eq_dec x x); [now rewrite IH | congruence].
    - destruct (alerta_en (alerta_ubicacion x) y); [|exact IH].
      simpl. destruct (alerta_eq_dec y x); [congruence | exact IH]. }
  now rewrite (Hcount l), (Hcount l'), Hall.
Qed.

(** X4. When the readings of each location have pairwise different
    timestamps, the order in which the store returns the rows does not
    matter: the detector returns for the reordered rows too, with the
    same alerts, and the same alerts for each location. *)
Theorem spike_alerts_independent_of_row_order
    (rows rows' : list fila) (alertas_ : list alerta) :
  Permutation rows rows' ->
  (forall u, NoDup (map fecha_hora (filter (en_ubicacion u) rows))) ->
  spikes_de_rows rows = Ok alertas_ ->
  exists alertas',
    spikes_de_rows rows' = Ok alertas'
    /\ Permutation alertas_ alertas'
    /\ forall u, filter (alerta_en u) alertas_ = filter (alerta_en u) alertas'.
Proof.
  intros Hp Hnd Hok.
  assert (Hex : exists alertas', spikes_de_rows rows' = Ok alertas').
  { apply spikes_de_rows_ok_iff. intros u.
    rewrite (spike_de_grupo_perm u rows rows' Hp (Hnd u)).
    revert u. apply spikes_de_rows_ok_iff. now exists alertas_. }
  destruct Hex as [alertas' Hok']. exists alertas'.
  assert (Hloc : forall u,
            filter (alerta_en u) alertas_ = filter (alerta_en u) alertas').
  { intros u.
    rewrite (spikes_de_rows_por_ubicacion u rows alertas_ Hok).
    rewrite (spikes_de_rows_por_ubicacion u rows' alertas' Hok').
    unfold aporte. now rewrite (spike_de_grupo_perm u rows rows' Hp (Hnd u)). }
  split; [exact Hok'|]. split; [|exact Hloc].
  now apply Permutation_por_ubicacion.
Qed.

(** ** The aggregator, beyond the sort *)

Lemma recorrer_lecturas_inv (um : umbrales) (lecturas : list fila) :
  forall acc alertas_,
    recorrer_lecturas um lecturas acc = Ok alertas_ ->
    alertas_ = acc ++ alertas_umbral um lecturas
    /\ Forall (fun r => temperatura r <> None) lecturas.
Proof.
  induction lecturas as [|r resto IH]; simpl; intros acc alertas_ H.
  - inversion H; subst. rewrite app_nil_r. now split.
  - assert (Hr : temperatura r <> None).
    { unfold alerta_umbral in H. now destruct (temperatura r). }
    destruct (alerta_umbral um r) as [[a|]|e]; [| |discriminate].
    + apply IH in H as [-> Hall]. rewrite <- app_assoc. now split; [|constructor].
    + apply IH in H as [-> Hall]. now split; [|constructor].
Qed.

(** What a returning call of the aggregator went through. *)
Lemma generar_alertas_inv (ent : entorno) (location : option string)
    (w w' : proceso) (salida : list alerta) :
  generar_alertas ent location w = (Ok salida, w') ->
  w' = w
  /\ exists lecturas spikes,
       fetch_latest ent location = Ok lecturas
       /\ Forall (fun r => temperatura r <> None) lecturas
       /\ (if spikes_activados (config ent)
           then exists rows,
                  fetch_ventana ent (if truthy location then location else None)
                  = Ok rows
                  /\ spikes_de_rows rows = Ok spikes
           else spikes = [])
       /\ salida
          = sort_key (clave_prioridad 99)
              (alertas_umbral (thresholds (config ent)) lecturas ++ spikes).
Proof.
  rewrite generar_alertas_eq. intros H. inversion H as [[Hr Hw]].
  split; [reflexivity|]. clear H Hw.
  destruct (fetch_latest ent location) as [lecturas|e]; simpl in Hr;
    [|discriminate].
  destruct (recorrer_lecturas _ lecturas []) as [alertas1|e] eqn:Hrec;
    simpl in Hr; [|discriminate].
  apply recorrer_lecturas_inv in Hrec as [-> Htemp]. simpl in Hr.
  destruct (spikes_activados (config ent)).
  - destruct (fetch_ventana ent _) as [rows|e]; simpl in Hr; [|discriminate].
    destruct (spikes_de_rows rows) as [spikes|e] eqn:Hsp; simpl in Hr;
      [|discriminate].
    inversion Hr; subst. exists lecturas, spikes.
    repeat split; try assumption. now exists rows.
  - simpl in Hr. inversion Hr; subst. exists lecturas, [].
    rewrite app_nil_r. repeat split; assumption.
Qed.

Lemma alerta_umbral_bien_formada (um : umbrales) (r : fila) (a : alerta) :
  alerta_umbral um r = Ok (Some a) ->
  nivel_conocido a /\ texto a <> EmptyString /\ alerta_ubicacion a = ubicacion r.
Proof.
  unfold alerta_umbral, nivel_conocido.
  destruct (temperatura r) as [temp|]; [|discriminate].
  destruct (Qle_bool (danger um) temp);
    [|destruct (Qle_bool (warning um) temp)];
    intros H; inversion H; simpl; repeat split; auto; discriminate.
Qed.

Lemma clasificar_spike_texto u dT dM a :
  clasificar_spike u dT dM = Some a -> texto a <> EmptyString.
Proof.
  unfold clasificar_spike.
  repeat match goal with
         | |- context [if ?c then _ else _] => destruct c
         end; intros H; inversion H; simpl; discriminate.
Qed.

Lemma spike_de_grupo_texto u g a :
  spike_de_grupo u g = Ok (Some a) -> texto a <> EmptyString.
Proof.
  unfold spike_de_grupo.
  destruct (List.length g <? 2)%nat; [discriminate|].
  destruct (nth_error _ _) as [ult|]; [|discriminate].
  destruct (buscar_anterior _ _) as [ant|]; [|discriminate].
  destruct (restar _ _) as [dT|e]; simpl; [|discriminate].
  intros H. inversion H as [H']. now apply clasificar_spike_texto in H'.
Qed.

(** Every alert of the detector is the alert of a location that has
    readings among the rows. *)
Lemma spikes_de_rows_ubicaciones (rows : list fila) alertas_ :
  spikes_de_rows rows = Ok alertas_ ->
  Forall (fun a => texto a <> EmptyString
                   /\ In (alerta_ubicacion a) (map ubicacion rows)) alertas_.
Proof.
  intros H. rewrite Forall_forall. intros a Hin.
  assert (Ha : In a (filter (alerta_en (alerta_ubicacion a)) alertas_)).
  { apply filter_In. split; [exact Hin|]. apply String.eqb_refl. }
  rewrite (spikes_de_rows_por_ubicacion _ rows alertas_ H) in Ha.
  unfold aporte in Ha.
  destruct (spike_de_grupo _ _) as [[b|]|e] eqn:Hsp; try contradiction.
  destruct Ha as [->|[]]. split; [now apply spike_de_grupo_texto in Hsp|].
  unfold spike_de_grupo in Hsp.
  destruct (filter (en_ubicacion (alerta_ubicacion a)) rows) as [|r g] eqn:Hg;
    [discriminate|].
  assert (Hr : In r (filter (en_ubicacion (alerta_ubicacion a)) rows))
    by (rewrite Hg; now left).
  apply filter_In in Hr as [Hr Hu].
  unfold en_ubicacion in Hu. apply String.eqb_eq in Hu. rewrite <- Hu.
  now apply in_map.
Qed.

(** X5. Every alert the aggregator returns has one of the three known
    levels, a non-empty text, and the location of one of the rows that
    were read: a latest reading, or a row of the spike window. *)
Theorem aggregator_alerts_well_formed
    (ent : entorno) (location : option string) (w w' : proceso)
    (salida : list alerta) :
  generar_alertas ent location w = (Ok salida, w') ->
  exists lecturas rows,
    fetch_latest ent location = Ok lecturas
    /\ (spikes_activados (config ent) = true ->
        fetch_ventana ent (if truthy location then location else None) = Ok rows)
    /\ Forall (fun a =>
                 nivel_conocido a
                 /\ texto a <> EmptyString
                 /\ (In (alerta_ubicacion a) (map ubicacion lecturas)
                     \/ spikes_activados (config ent) = true
                        /\ In (alerta_ubicacion a) (map ubicacion rows)))
              salida.
Proof.
  intros H.
  apply generar_alertas_inv in H as (_ & lecturas & spikes & Hl & _ & Hs & ->).
  assert (Hum : Forall (fun a =>
                 nivel_conocido a /\ texto a <> EmptyString
                 /\ In (alerta_ubicacion a) (map ubicacion lecturas))
              (alertas_umbral (thresholds (config ent)) lecturas)).
  { rewrite Forall_forall. intros a Hin. unfold alertas_umbral in Hin.
    apply in_flat_map in Hin as (r & Hr & Hin).
    destruct (alerta_umbral _ r) as [[b|]|e] eqn:Hb; try contradiction.
    destruct Hin as [->|[]].
    apply alerta_umbral_bien_formada in Hb as (Hn & Ht & Hu).
    repeat split; try assumption. rewrite Hu. now apply in_map. }
  destruct (spikes_activados (config ent)).
  - destruct Hs as (rows & Hrows & Hsp).
    exists lecturas, rows. split; [exact Hl|]. split; [auto|].
    eapply Permutation_Forall; [apply Permutation_sym, sort_key_perm|].
    apply Forall_app. split.
    + eapply Forall_impl; [|exact Hum]. intros a (Hn & Ht & Hu). auto.
    + pose proof (spikes_de_rows_niveles _ _ Hsp) as Hniv.
      pose proof (spikes_de_rows_ubicaciones _ _ Hsp) as Hub.
      rewrite Forall_forall in *. intros a Hin.
      destruct (Hub a Hin) as [Ht Hu].
      split; [exact (Hniv a Hin)|]. split; [exact Ht|]. right. now split.
  - subst spikes. exists lecturas, []. split; [exact Hl|].
    split; [discriminate|].
    eapply Permutation_Forall; [apply Permutation_sym, sort_key_perm|].
    rewrite app_nil_r.
    eapply Forall_impl; [|exact Hum]. intros a (Hn & Ht & Hu). auto.
Qed.

Lemma filter_ninguno {A} (f : A -> bool) (l : list A) :
  (forall x, In x l -> f x = false) -> filter f l = [].
Proof.
  induction l as [|a l IH]; intros H; [reflexivity|].
  simpl. rewrite (H a (or_introl eq_refl)). apply IH.
  intros x Hx. apply H. now right.
Qed.

(** A list sorted by priority whose levels are known is its 'roja'
    alerts, then its 'amarilla' alerts, then its 'azul' alerts. *)
Lemma sorted_por_niveles (defecto : Z) (l : list alerta) :
  StronglySorted (le_key (clave_prioridad defecto)) l ->
  Forall nivel_conocido l ->
  l = de_nivel "roja" l ++ de_nivel "amarilla" l ++ de_nivel "azul" l.
Proof.
  unfold de_nivel.
  induction 1 as [|a l Hs IH Hall]; intros Hniv; [reflexivity|].
  apply Forall_cons_iff in Hniv as [Ha Hniv]. specialize (IH Hniv).
  rewrite Forall_forall in Hall, Hniv.
  destruct Ha as [Ha|[Ha|Ha]]; cbn [filter]; rewrite Ha.
  - cbn. now f_equal.
  - assert (Hr : filter (fun a0 => String.eqb (nivel a0) "roja") l = []).
    { apply filter_ninguno. intros b Hb.
      destruct (String.eqb_spec (nivel b) "roja") as [Hb'|]; [|reflexivity].
      pose proof (Hall b Hb) as Hle. unfold le_key in Hle.
      rewrite (clave_amarilla _ a Ha), (clave_roja _ b Hb') in Hle. lia. }
    cbn. rewrite Hr in *. cbn in *. now f_equal.
  - assert (Hr : filter (fun a0 => String.eqb (nivel a0) "roja") l = []).
    { apply filter_ninguno. intros b Hb.
      destruct (String.eqb_spec (nivel b) "roja") as [Hb'|]; [|reflexivity].
      pose proof (Hall b Hb) as Hle. unfold le_key in Hle.
      rewrite (clave_azul _ a Ha), (clave_roja _ b Hb') in Hle. lia. }
    assert (Hy : filter (fun a0 => String.eqb (nivel a0) "amarilla") l = []).
    { apply filter_ninguno. intros b Hb.
      destruct (String.eqb_spec (nivel b) "amarilla") as [Hb'|]; [|reflexivity].
      pose proof (Hall b Hb) as Hle. unfold le_key in Hle.
      rewrite (clave_azul _ a Ha), (clave_amarilla _ b Hb') in Hle. lia. }
    cbn. rewrite Hr, Hy in *. cbn in *. now f_equal.
Qed.

Lemma de_nivel_clave (defecto : Z) (l : list alerta) :
  Forall nivel_conocido l ->
  de_nivel "roja" l = filter (fun a => (clave_prioridad defecto a =? 0)%Z) l
  /\ de_nivel "amarilla" l
     = filter (fun a => (clave_prioridad defecto a =? 1)%Z) l
  /\ de_nivel "azul" l = filter (fun a => (clave_prioridad defecto a =? 2)%Z) l.
Proof.
  intros Hniv. unfold de_nivel.
  repeat split; apply filter_ext_in; intros a Ha;
    rewrite Forall_forall in Hniv; destruct (Hniv a Ha) as [H|[H|H]];
    first [rewrite (clave_roja _ a H) | rewrite (clave_amarilla _ a H)
          | rewrite (clave_azul _ a H)];
    rewrite H; reflexivity.
Qed.

(** X6. Whenever the aggregator returns, its output is the 'roja'
    alerts of the concatenation of threshold alerts and spike alerts,
    then its 'amarilla' alerts, then its 'azul' alerts, each block in
    the order of the concatenation. *)
Theorem aggregator_output_by_level
    (ent : entorno) (location : option string) (w w' : proceso)
    (salida : list alerta) :
  generar_alertas ent location w = (Ok salida, w') ->
  exists lecturas spikes,
    fetch_latest ent location = Ok lecturas
    /\ (if spikes_activados (config ent)
        then detect_temperature_spikes ent location w = (Ok spikes, w)
        else spikes = [])
    /\ let concatenadas :=
         alertas_umbral (thresholds (config ent)) lecturas ++ spikes in
       salida = de_nivel "roja" concatenadas
                ++ de_nivel "amarilla" concatenadas
                ++ de_nivel "azul" concatenadas.
Proof.
  intros H.
  apply generar_alertas_inv in H as (_ & lecturas & spikes & Hl & _ & Hs & ->).
  exists lecturas, spikes. split; [exact Hl|].
  assert (Hniv : Forall nivel_conocido
                   (alertas_umbral (thresholds (config ent)) lecturas ++ spikes)
                 /\ (if spikes_activados (config ent)
                     then detect_temperature_spikes ent location w = (Ok spikes, w)
                     else spikes = [])).
  { destruct (spikes_activados (config ent)).
    - destruct Hs as (rows & Hrows & Hsp). split.
      + apply Forall_app. split; [apply alertas_umbral_niveles|].
        exact (spikes_de_rows_niveles _ _ Hsp).
      + rewrite detect_temperature_spikes_eq, Hrows. simpl. now rewrite Hsp.
    - subst spikes. split; [|reflexivity].
      rewrite app_nil_r. apply alertas_umbral_niveles. }
  destruct Hniv as [Hniv Hdet]. split; [exact Hdet|]. cbv zeta.
  set (conc := alertas_umbral (thresholds (config ent)) lecturas ++ spikes) in *.
  assert (Hniv' : Forall nivel_conocido (sort_key (clave_prioridad 99) conc)).
  { eapply Permutation_Forall; [apply Permutation_sym, sort_key_perm|exact Hniv]. }
  rewrite (sorted_por_niveles 99 _ (sort_key_sorted _ conc) Hniv') at 1.
  destruct (de_nivel_clave 99 _ Hniv') as (-> & -> & ->).
  destruct (de_nivel_clave 99 _ Hniv) as (-> & -> & ->).
  now rewrite !sort_key_stable.
Qed.

(** X7. Unless [alertas.detectar_spikes] is present and true in the
    configuration, the aggregator does not read the spike window at
    all: whatever that query would return or raise, the result is the
    same. *)
Theorem aggregator_ignores_window_when_spikes_off
    (ent : entorno) (location : option string) (w : proceso)
    (f : option string -> resultado (list fila)) :
  (forall a, alertas (config ent) = Some a -> detectar_spikes a <> Some true) ->
  generar_alertas (con_fetch_ventana ent f) location w
  = generar_alertas ent location w.
Proof.
  intros Hoff.
  assert (Hs : spikes_activados (config ent) = false).
  { unfold spikes_activados. destruct (alertas (config ent)) as [a|]; [|reflexivity].
    specialize (Hoff a eq_refl).
    destruct (detectar_spikes a) as [[|]|]; congruence. }
  rewrite !generar_alertas_eq. cbn [con_fetch_ventana config fetch_latest].
  rewrite Hs. reflexivity.
Qed.

(** X8. An error of either store query is the outcome of the
    aggregator: it raises when the latest-readings query fails, and,
    with spike detection on, when the window query fails, in which case
    the threshold alerts already collected are lost. *)
Theorem aggregator_propagates_store_errors
    (ent : entorno) (location : option string) (w : proceso) (e : excepcion) :
  (fetch_latest ent location = Raise e ->
   generar_alertas ent location w = (Raise e, w))
  /\ (forall lecturas,
        fetch_latest ent location = Ok lecturas ->
        Forall (fun r => temperatura r <> None) lecturas ->
        spikes_activados (config ent) = true ->
        fetch_ventana ent (if truthy location then location else None) = Raise e ->
        generar_alertas ent location w = (Raise e, w)).
Proof.
  split.
  - intros H. now rewrite generar_alertas_eq, H.
  - intros lecturas Hl Htemp Hs Hv.
    rewrite generar_alertas_eq, Hl. simpl.
    rewrite (recorrer_lecturas_ok _ _ Htemp []). simpl.
    now rewrite Hs, Hv.
Qed.

(** ** The scheduler, over one turn and over a run *)

(** What one turn can do: nothing at all, or a dispatch. *)
Lemma tick_casos (ent : entorno) (w : proceso) :
  (tick ent w = w
   /\ (cfg_enabled (email (config ent)) = false
       \/ dentro_del_intervalo (alert_manager w) (ahora ent) (intervalo_de ent)
          = true
       \/ fst (generar_alertas ent None w) = Ok []
       \/ exists e, fst (generar_alertas ent None w) = Raise e))
  \/ (cfg_enabled (email (config ent)) = true
      /\ dentro_del_intervalo (alert_manager w) (ahora ent) (intervalo_de ent)
         = false
      /\ exists alertas_,
           alertas_ <> []
           /\ fst (generar_alertas ent None w) = Ok alertas_
           /\ alert_manager (tick ent w)
              = {| last_alert_sent := Some (ahora ent);
                   ultimas_alertas := alertas_ |}
           /\ exists k,
                (k <= List.length (cfg_destinatarios (email (config ent))))%nat
                /\ llamadas_mailer (tick ent w)
                   = llamadas_mailer w
                     ++ map (llamada_a asunto_alerta (preparar_html alertas_))
                          (firstn k (cfg_destinatarios (email (config ent))))
                /\ (fst (enviar_alertas_si_toca ent w) = Ok tt ->
                    k = List.length (cfg_destinatarios (email (config ent))))).
Proof.
  destruct (cfg_enabled (email (config ent))) eqn:Hen.
  2:{ left. unfold tick. rewrite (tick_desactivado ent w Hen). auto. }
  destruct (dentro_del_intervalo (alert_manager w) (ahora ent) (intervalo_de ent))
    eqn:Hd.
  { left. unfold tick. rewrite (tick_dentro_del_intervalo ent w Hd). auto. }
  destruct (fst (generar_alertas ent None w)) as [[|a l]|e] eqn:Hgen.
  - left. apply generar_alertas_fst in Hgen.
    unfold tick. rewrite (tick_sin_alertas ent w w Hgen). auto.
  - right. split; [reflexivity|]. split; [reflexivity|].
    exists (a :: l). split; [discriminate|]. split; [reflexivity|].
    assert (Htoca : toca ent w).
    { unfold toca. unfold dentro_del_intervalo in Hd.
      destruct (last_alert_sent (alert_manager w)) as [t|]; [|now left].
      right. exists t. split; [reflexivity|]. now apply Z.ltb_ge. }
    apply (despacho_guarda_estado ent w (a :: l) Hen Htoca Hgen).
    discriminate.
  - left. apply generar_alertas_fst in Hgen. split; [|eauto 6].
    unfold tick, enviar_alertas_si_toca. rewrite Hen. simpl.
    unfold bind at 1. unfold get_alert_manager.
    unfold intervalo_de in Hd. rewrite Hd.
    unfold bind. now rewrite Hgen.
Qed.

(** X9. A turn in which the aggregation raises (a store error, a
    reading without temperature) leaves the process state as it was: no
    mailer call, no stored send time, so the next turn is as due as this
    one was. *)
Theorem failed_aggregation_leaves_state
    (ent : entorno) (w : proceso) (e : excepcion) :
  fst (generar_alertas ent None w) = Raise e ->
  tick ent w = w
  /\ (cfg_enabled (email (config ent)) = true -> toca ent w ->
      fst (enviar_alertas_si_toca ent w) = Raise e).
Proof.
  intros Hgen. split.
  - destruct (tick_casos ent w) as [[Heq _]|(_ & _ & a & _ & Ha & _)];
      [exact Heq | congruence].
  - intros Hen Htoca. apply generar_alertas_fst in Hgen.
    unfold enviar_alertas_si_toca. rewrite Hen. simpl.
    unfold bind at 1. unfold get_alert_manager.
    pose proof (toca_fuera_del_intervalo ent w Htoca) as Hd.
    unfold intervalo_de in Hd. rewrite Hd.
    unfold bind. now rewrite Hgen.
Qed.

(** X10. Mail dispatch is opt-in: unless the configuration has an
    [email] section whose [enabled] key is true, a turn does nothing,
    whatever the readings and the time. *)
Theorem dispatch_is_opt_in (ent : entorno) (w : proceso) :
  (forall c, email (config ent) = Some c -> enabled c <> Some true) ->
  enviar_alertas_si_toca ent w = (Ok tt, w).
Proof.
  intros Hoff. apply tick_desactivado. unfold cfg_enabled.
  destruct (email (config ent)) as [c|]; [|reflexivity].
  specialize (Hoff c eq_refl). destruct (enabled c) as [[|]|]; congruence.
Qed.

(** X11. [proximo_envio] is the exact boundary of the throttle: with
    the same configuration, a turn strictly before it does nothing,
    and an enabled turn at or after it whose aggregation yields alerts
    dispatches: it stores its own time and the batch, and calls the
    mailer for the recipients its loop gets to. Without any send
    [proximo_envio] is [None] and every such turn dispatches. *)
Theorem proximo_envio_is_the_boundary
    (ent : entorno) (w : proceso) (alertas_ : list alerta) :
  let despacha : Prop :=
    cfg_enabled (email (config ent)) = true ->
    fst (generar_alertas ent None w) = Ok alertas_ ->
    alertas_ <> [] ->
    alert_manager (tick ent w)
    = {| last_alert_sent := Some (ahora ent); ultimas_alertas := alertas_ |}
    /\ llamadas_mailer (tick ent w)
       = llamadas_mailer w
         ++ map (llamada_a asunto_alerta (preparar_html alertas_))
              (alcanzados ent (smtp_credenciales ent) asunto_alerta
                 (preparar_html alertas_)
                 (cfg_destinatarios (email (config ent)))) in
  match proximo_envio ent (alert_manager w) with
  | Some p =>
      ((ahora ent < p)%Z -> enviar_alertas_si_toca ent w = (Ok tt, w))
      /\ ((p <= ahora ent)%Z -> despacha)
  | None => despacha
  end.
Proof.
  assert (Hdespacha : toca ent w ->
            cfg_enabled (email (config ent)) = true ->
            fst (generar_alertas ent None w) = Ok alertas_ ->
            alertas_ <> [] ->
            alert_manager (tick ent w)
            = {| last_alert_sent := Some (ahora ent);
                 ultimas_alertas := alertas_ |}
            /\ llamadas_mailer (tick ent w)
               = llamadas_mailer w
                 ++ map (llamada_a asunto_alerta (preparar_html alertas_))
                      (alcanzados ent (smtp_credenciales ent) asunto_alerta
                         (preparar_html alertas_)
                         (cfg_destinatarios (email (config ent))))).
  { intros Htoca Hen Hgen Hne.
    split; [exact (proj1 (despacho_guarda_estado ent w alertas_
                            Hen Htoca Hgen Hne))|].
    unfold tick.
    rewrite (tick_despacha ent w alertas_ Hen
               (toca_fuera_del_intervalo _ _ Htoca)
               (generar_alertas_fst _ _ _ _ Hgen) Hne).
    rewrite enviar_a_destinatarios_alcanzados. reflexivity. }
  cbv zeta. unfold proximo_envio.
  destruct (last_alert_sent (alert_manager w)) as [t|] eqn:Hlast.
  - fold (intervalo_de ent). split.
    + intros Hlt. apply tick_dentro_del_intervalo.
      unfold dentro_del_intervalo. rewrite Hlast. apply Z.ltb_lt. lia.
    + intros Hle. apply Hdespacha. right. exists t.
      split; [exact Hlast | lia].
  - apply Hdespacha. now left.
Qed.

(** X12. With alerts to send but no recipient configured, a due turn
    still stores the send time and the batch, and calls the mailer for
    nobody: the throttle window is consumed by a send that reached no
    one. *)
Theorem dispatch_without_recipients
    (ent : entorno) (w : proceso) (alertas_ : list alerta) :
  cfg_enabled (email (config ent)) = true ->
  toca ent w ->
  fst (generar_alertas ent None w) = Ok alertas_ ->
  alertas_ <> [] ->
  cfg_destinatarios (email (config ent)) = [] ->
  enviar_alertas_si_toca ent w
  = (Ok tt, {| alert_manager := {| last_alert_sent := Some (ahora ent);
                                   ultimas_alertas := alertas_ |};
               llamadas_mailer := llamadas_mailer w;
               registro := registro w |}).
Proof.
  intros Hen Htoca Hgen Hne Hdest.
  rewrite (tick_despacha ent w alertas_ Hen
             (toca_fuera_del_intervalo _ _ Htoca)
             (generar_alertas_fst _ _ _ _ Hgen) Hne).
  now rewrite Hdest.
Qed.

(** X13. Over any run of the scheduler loop from the initial state, the
    alert manager holds a batch exactly when it holds a send time; a
    stored batch is never emptied again, not even by later turns that
    find no alert. *)
Theorem run_keeps_last_batch (turnos : list entorno) :
  estado_coherente (alert_manager (loop_envio_alertas turnos proceso_inicial))
  /\ forall mas,
       ultimas_alertas
         (alert_manager (loop_envio_alertas turnos proceso_inicial)) <> [] ->
       ultimas_alertas
         (alert_manager (loop_envio_alertas (turnos ++ mas) proceso_inicial))
       <> [].
Proof.
  assert (Hstep : forall ent w,
            estado_coherente (alert_manager w) ->
            estado_coherente (alert_manager (tick ent w))).
  { intros ent w Hw.
    destruct (tick_casos ent w)
      as [[-> _]|(_ & _ & a & Hne & _ & -> & _)]; [exact Hw|].
    right. simpl. split; [now eexists | exact Hne]. }
  assert (Hrun : forall l w,
            estado_coherente (alert_manager w) ->
            estado_coherente (alert_manager (loop_envio_alertas l w))).
  { induction l as [|ent l IH]; intros w Hw; simpl; [exact Hw|].
    apply IH, Hstep, Hw. }
  assert (Hkeep : forall l w,
            ultimas_alertas (alert_manager w) <> [] ->
            ultimas_alertas (alert_manager (loop_envio_alertas l w)) <> []).
  { induction l as [|ent l IH]; intros w Hw; simpl; [exact Hw|].
    apply IH.
    destruct (tick_casos ent w)
      as [[-> _]|(_ & _ & a & Hne & _ & -> & _)]; [exact Hw | exact Hne]. }
  split.
  - apply Hrun. left. now split.
  - intros mas Hne. unfold loop_envio_alertas. rewrite fold_left_app.
    now apply Hkeep.
Qed.

(** X14. A turn changes the stored send time only to its own time, and
    only when no send was stored or the configured interval has elapsed
    since the stored one: two stored send times are never closer than
    the interval in force at the later one. *)
Theorem send_times_are_spaced (ent : entorno) (w : proceso) :
  last_alert_sent (alert_manager (tick ent w)) = last_alert_sent (alert_manager w)
  \/ (last_alert_sent (alert_manager (tick ent w)) = Some (ahora ent)
      /\ forall t, last_alert_sent (alert_manager w) = Some t ->
                   (intervalo_de ent <= ahora ent - t)%Z).
Proof.
  destruct (tick_casos ent w)
    as [[-> _]|(_ & Hd & a & _ & _ & -> & _)]; [now left|].
  right. split; [reflexivity|]. intros t Ht.
  unfold dentro_del_intervalo in Hd. rewrite Ht in Hd.
  now apply Z.ltb_ge.
Qed.

(** X15. No mail without a record of it: if a turn calls the mailer at
    all, then after the turn the alert manager holds the turn's time and
    a non-empty batch, and every call of the turn carries the fixed
    subject and the HTML rendering of exactly that batch, addressed to
    the configured recipients in their order, each at most once. *)
Theorem mail_implies_recorded_batch (ent : entorno) (w : proceso) :
  llamadas_mailer (tick ent w) <> llamadas_mailer w ->
  last_alert_sent (alert_manager (tick ent w)) = Some (ahora ent)
  /\ ultimas_alertas (alert_manager (tick ent w)) <> []
  /\ exists k,
       (k <= List.length (cfg_destinatarios (email (config ent))))%nat
       /\ llamadas_mailer (tick ent w)
          = llamadas_mailer w
            ++ map (llamada_a asunto_alerta
                      (preparar_html
                         (ultimas_alertas (alert_manager (tick ent w)))))
                   (firstn k (cfg_destinatarios (email (config ent)))).
Proof.
  intros Hcalls.
  destruct (tick_casos ent w)
    as [[Heq _]|(_ & _ & a & Hne & _ & Ham & k & Hk & Hll & _)].
  - rewrite Heq in Hcalls. congruence.
  - rewrite Ham. simpl. split; [reflexivity|]. split; [exact Hne|].
    exists k. split; [exact Hk | exact Hll].
Qed.

(** ** The mailer's report and the mail body *)


Lemma append_assoc (s1 s2 s3 : string) :
  ((s1 ++ s2) ++ s3 = s1 ++ (s2 ++ s3))%string.
Proof. induction s1 as [|c s1 IH]; simpl; [reflexivity | now rewrite IH]. Qed.

Lemma append_nil_r (s : string) : (s ++ EmptyString)%string = s.
Proof. induction s as [|c s IH]; simpl; [reflexivity | now rewrite IH]. Qed.

Lemma concat_vacio_cons (x : string) (l : list string) :
  String.concat EmptyString (x :: l)
  = (x ++ String.concat EmptyString l)%string.
Proof. destruct l; simpl; [now rewrite append_nil_r | reflexivity]. Qed.

(** X17. The mail body is the heading, one list item per alert in the
    order of the batch, and the closing tag; location and text of each
    alert appear in it as they are, without any escaping. *)
Theorem preparar_html_structure (alertas_ : list alerta) :
  preparar_html alertas_
  = ("<h3>Alertas de Temperatura</h3><ul>"
       ++ String.concat EmptyString (map item_html alertas_) ++ "</ul>")%string.
Proof.
  unfold preparar_html.
  assert (H : forall l acc,
            fold_left (fun html a => (html ++ item_html a)%string) l acc
            = (acc ++ String.concat EmptyString (map item_html l))%string).
  { induction l as [|a l IH]; intros acc.
    - simpl. now rewrite append_nil_r.
    - cbn [fold_left map]. rewrite IH, concat_vacio_cons.
      apply append_assoc. }
  change (fun (html : string) (a : alerta) =>
            (html ++ "<li><strong>" ++ alerta_ubicacion a
               ++ "</strong>: " ++ texto a ++ "</li>")%string)
    with (fun (html : string) (a : alerta) => (html ++ item_html a)%string).
  rewrite H. apply append_assoc.
Qed.

(** ** The stored batch over a run *)

Lemma generar_alertas_ordenadas (ent : entorno) (location : option string)
    (w w' : proceso) (salida : list alerta) :
  generar_alertas ent location w = (Ok salida, w') ->
  StronglySorted (le_key (clave_prioridad 99)) salida
  /\ Forall nivel_conocido salida.
Proof.
  intros H.
  apply generar_alertas_inv in H as (_ & lecturas & spikes & _ & _ & Hs & ->).
  split; [apply sort_key_sorted|].
  eapply Permutation_Forall; [apply Permutation_sym, sort_key_perm|].
  apply Forall_app. split; [apply alertas_umbral_niveles|].
  destruct (spikes_activados (config ent)).
  - destruct Hs as (rows & _ & Hsp). exact (spikes_de_rows_niveles _ _ Hsp).
  - subst spikes. constructor.
Qed.

(** X18. Over any run of the scheduler loop from the initial state, the
    batch the alert manager holds, which the status endpoint shows, is
    sorted by priority and made of alerts of the three known levels: no
    'amarilla' or 'azul' alert comes before a 'roja' one in it. *)
Theorem run_batch_is_sorted (turnos : list entorno) :
  let lote :=
    ultimas_alertas (alert_manager (loop_envio_alertas turnos proceso_inicial)) in
  StronglySorted (le_key (clave_prioridad 99)) lote
  /\ Forall nivel_conocido lote
  /\ lote = de_nivel "roja" lote ++ de_nivel "amarilla" lote
            ++ de_nivel "azul" lote.
Proof.
  cbv zeta.
  assert (Hstep : forall ent w,
            StronglySorted (le_key (clave_prioridad 99))
              (ultimas_alertas (alert_manager w))
            /\ Forall nivel_conocido (ultimas_alertas (alert_manager w)) ->
            StronglySorted (le_key (clave_prioridad 99))
              (ultimas_alertas (alert_manager (tick ent w)))
            /\ Forall nivel_conocido
                 (ultimas_alertas (alert_manager (tick ent w)))).
  { intros ent w Hw.
    destruct (tick_casos ent w)
      as [[-> _]|(_ & _ & a & _ & Hgen & -> & _)]; [exact Hw|].
    simpl. apply generar_alertas_fst in Hgen.
    exact (generar_alertas_ordenadas _ _ _ _ _ Hgen). }
  assert (Hrun : forall l w,
            StronglySorted (le_key (clave_prioridad 99))
              (ultimas_alertas (alert_manager w))
            /\ Forall nivel_conocido (ultimas_alertas (alert_manager w)) ->
            StronglySorted (le_key (clave_prioridad 99))
              (ultimas_alertas (alert_manager (loop_envio_alertas l w)))
            /\ Forall nivel_conocido
                 (ultimas_alertas (alert_manager (loop_envio_alertas l w)))).
  { induction l as [|ent l IH]; intros w Hw; simpl; [exact Hw|].
    apply IH, Hstep, Hw. }
  destruct (Hrun turnos proceso_inicial) as [Hs Hn].
  { simpl. split; constructor. }
  split; [exact Hs|]. split; [exact Hn|].
  now apply (sorted_por_niveles 99).
Qed.

End Pipeline.

(** * The properties at the sample inputs *)

(** Comparisons between concrete rationals. *)
Ltac q_concreto :=
  repeat split; vm_compute; first [reflexivity | discriminate].

Lemma spike_first_matching_rule_witness :
  (fetch_ventana ent_ejemplo None = Ok [cpd1_t8; cpd1_t0]
   /\ ultimas_con_temperatura [cpd1_t8; cpd1_t0]
   /\ lecturas_de "CPD-1" [cpd1_t8; cpd1_t0] = [] ++ cpd1_t0 :: [] ++ [cpd1_t8]
   /\ temperatura cpd1_t0 = Some 26.5
   /\ temperatura cpd1_t8 = Some 31)
  /\ exists alertas_,
       detect_temperature_spikes ent_ejemplo None proceso_inicial
       = (Ok alertas_, proceso_inicial)
       /\ filter (alerta_en "CPD-1") alertas_
          = [{| alerta_ubicacion := "CPD-1"; nivel := "roja";
                texto := "SUBIDA CRÍTICA → CPD-1: +4.5°C en 8 min ¡POSIBLE EMERGENCIA!" |}].
Proof.
  assert (Hult : ultimas_con_temperatura [cpd1_t8; cpd1_t0]).
  { apply sin_nulos_ultimas. repeat constructor; discriminate. }
  split; [repeat split; try reflexivity; exact Hult|].
  destruct (spike_first_matching_rule ent_ejemplo None proceso_inicial
              [cpd1_t8; cpd1_t0] "CPD-1" [] [] cpd1_t0 cpd1_t8 26.5 31
              eq_refl Hult eq_refl eq_refl (Forall_nil _) eq_refl)
    as (alertas_ & Hdet & _ & Hreglas).
  exists alertas_. split; [exact Hdet|].
  apply Hreglas; q_concreto.
Defined.

Lemma spike_at_most_one_per_location_witness :
  fetch_ventana ent_ejemplo None = Ok [cpd1_t8; cpd1_t0]
  /\ exists alertas_,
       detect_temperature_spikes ent_ejemplo None proceso_inicial
       = (Ok alertas_, proceso_inicial)
       /\ forall u, (List.length (filter (alerta_en u) alertas_) <= 1)%nat.
Proof.
  split; [reflexivity|].
  destruct (spike_at_most_one_per_location ent_ejemplo None proceso_inicial
              [cpd1_t8; cpd1_t0] eq_refl) as (_ & Hret & Huno).
  destruct Hret as [alertas_ Hdet].
  { apply sin_nulos_ultimas. repeat constructor; discriminate. }
  exists alertas_. split; [exact Hdet|].
  exact (Huno alertas_ proceso_inicial Hdet).
Defined.

Lemma spike_result_sorted_by_priority_witness :
  (fetch_ventana ent_tres_spikes None = Ok ventana_a_b_c
   /\ ultimas_con_temperatura ventana_a_b_c
   /\ recorrer_grupos (agrupar ventana_a_b_c) []
      = Ok [alerta_spike_a; alerta_spike_b; alerta_spike_c])
  /\ detect_temperature_spikes ent_tres_spikes None proceso_inicial
     = (Ok [alerta_spike_c; alerta_spike_b; alerta_spike_a], proceso_inicial)
  /\ StronglySorted (le_key (clave_prioridad 9))
       [alerta_spike_c; alerta_spike_b; alerta_spike_a]
  /\ map nivel [alerta_spike_c; alerta_spike_b; alerta_spike_a]
     = ["roja"; "amarilla"; "azul"]
  /\ nivel alerta_spike_c <> "azul".
Proof.
  assert (Hult : ultimas_con_temperatura ventana_a_b_c).
  { apply sin_nulos_ultimas. repeat constructor; discriminate. }
  assert (Hgrupos : recorrer_grupos (agrupar ventana_a_b_c) []
                    = Ok [alerta_spike_a; alerta_spike_b; alerta_spike_c])
    by (vm_compute; reflexivity).
  assert (Hdet : detect_temperature_spikes ent_tres_spikes None proceso_inicial
                 = (Ok [alerta_spike_c; alerta_spike_b; alerta_spike_a],
                    proceso_inicial))
    by (vm_compute; reflexivity).
  split; [split; [reflexivity | split; [exact Hult | exact Hgrupos]]|].
  destruct (spike_result_sorted_by_priority ent_tres_spikes None
              proceso_inicial ventana_a_b_c eq_refl) as (_ & Hord).
  destruct (Hord _ _ Hdet) as (Hsorted & _ & Hprec).
  split; [exact Hdet|]. split; [exact Hsorted|]. split; [reflexivity|].
  exact (proj2 (Hprec [] alerta_spike_c [] alerta_spike_b [alerta_spike_a]
                  eq_refl) eq_refl).
Defined.

Lemma threshold_classification_witness :
  (fetch_latest ent_tres_lecturas None
   = Ok ([lectura "A" 8 31] ++ lectura "B" 8 28 :: [lectura "C" 8 20])
   /\ Forall (fun x => temperatura x <> None)
        ([lectura "A" 8 31] ++ [lectura "C" 8 20])
   /\ temperatura (lectura "B" 8 28) = Some 28
   /\ detect_temperature_spikes ent_tres_lecturas None proceso_inicial
      = (Ok [], proceso_inicial)
   /\ warning (thresholds cfg_ejemplo) < danger (thresholds cfg_ejemplo)
   /\ warning (thresholds cfg_ejemplo) <= 28
   /\ 28 < danger (thresholds cfg_ejemplo))
  /\ recorrer_lecturas str_un_decimal (thresholds cfg_ejemplo)
       [lectura "A" 8 31; lectura "B" 8 28; lectura "C" 8 20] []
     = Ok [alerta_umbral_a; alerta_umbral_b]
  /\ generar_alertas str_un_decimal ent_tres_lecturas None proceso_inicial
     = (Ok [alerta_umbral_a; alerta_umbral_b], proceso_inicial).
Proof.
  assert (Htemp : Forall (fun x => temperatura x <> None)
                    ([lectura "A" 8 31] ++ [lectura "C" 8 20])).
  { repeat constructor; discriminate. }
  assert (Hwd : warning (thresholds cfg_ejemplo) < danger (thresholds cfg_ejemplo))
    by q_concreto.
  assert (Hw : warning (thresholds cfg_ejemplo) <= 28) by q_concreto.
  assert (Hd : 28 < danger (thresholds cfg_ejemplo)) by q_concreto.
  split; [repeat split; try reflexivity; assumption|].
  destruct (threshold_classification str_un_decimal ent_tres_lecturas None
              proceso_inicial [lectura "A" 8 31] [lectura "C" 8 20]
              (lectura "B" 8 28) 28 [] eq_refl Htemp eq_refl eq_refl Hwd)
    as (_ & Hamarilla & _).
  destruct (Hamarilla (conj Hw Hd)) as (Hloop & Hgen).
  split; [exact (Hloop []) | exact Hgen].
Defined.


Lemma throttled_tick_does_nothing_witness :
  (last_alert_sent
     (alert_manager (tick str_un_decimal ent_ejemplo proceso_inicial))
   = Some (timedelta_minutes 9)
   /\ (ahora ent_ejemplo_mas_tarde - timedelta_minutes 9
       < intervalo_de ent_ejemplo_mas_tarde)%Z
   /\ cfg_enabled (email (config ent_ejemplo)) = true
   /\ toca ent_ejemplo proceso_inicial
   /\ fst (generar_alertas str_un_decimal ent_ejemplo None proceso_inicial)
      = Ok [alerta_umbral_cpd1; alerta_spike_cpd1]
   /\ (ahora ent_ejemplo_mas_tarde - ahora ent_ejemplo
       < intervalo_de ent_ejemplo_mas_tarde)%Z)
  /\ enviar_alertas_si_toca str_un_decimal ent_ejemplo_mas_tarde
       (tick str_un_decimal ent_ejemplo proceso_inicial)
     = (Ok tt, tick str_un_decimal ent_ejemplo proceso_inicial)
  /\ loop_envio_alertas str_un_decimal [ent_ejemplo; ent_ejemplo_mas_tarde]
       proceso_inicial
     = loop_envio_alertas str_un_decimal [ent_ejemplo] proceso_inicial
  /\ llamadas_mailer
       (loop_envio_alertas str_un_decimal [ent_ejemplo; ent_ejemplo_mas_tarde]
          proceso_inicial)
     = [llamada_a asunto_alerta
          (preparar_html [alerta_umbral_cpd1; alerta_spike_cpd1])
          "ops@cpd.example";
        llamada_a asunto_alerta
          (preparar_html [alerta_umbral_cpd1; alerta_spike_cpd1])
          "noc@cpd.example"].
Proof.
  assert (Htoca : toca ent_ejemplo proceso_inicial) by (left; reflexivity).
  assert (Hlt : (ahora ent_ejemplo_mas_tarde - timedelta_minutes 9
                 < intervalo_de ent_ejemplo_mas_tarde)%Z) by reflexivity.
  assert (Hne : [alerta_umbral_cpd1; alerta_spike_cpd1] <> []) by discriminate.
  assert (Hcap : forall m e,
            sesion_smtp ent_ejemplo (smtp_credenciales ent_ejemplo) m = Some e ->
            capturada e = true) by discriminate.
  destruct (throttled_tick_does_nothing str_un_decimal
              ent_ejemplo_mas_tarde
              (tick str_un_decimal ent_ejemplo proceso_inicial)
              (timedelta_minutes 9)
              ent_ejemplo ent_ejemplo_mas_tarde proceso_inicial
              [alerta_umbral_cpd1; alerta_spike_cpd1])
    as (Hsalta & Hdos).
  destruct (Hdos eq_refl Htoca eq_refl Hne Hlt)
    as (_ & _ & Hloop & Hll & _ & _ & Htodos).
  rewrite (Htodos Hcap) in Hll.
  split; [repeat split; try reflexivity; assumption|].
  split; [exact (Hsalta eq_refl Hlt)|]. split; [exact Hloop | exact Hll].
Defined.

Lemma empty_cycle_keeps_dispatch_state_witness :
  (cfg_enabled (email (config ent_tranquilo)) = true
   /\ toca ent_tranquilo proceso_inicial
   /\ fst (generar_alertas str_un_decimal ent_tranquilo None proceso_inicial)
      = Ok [])
  /\ enviar_alertas_si_toca str_un_decimal ent_tranquilo proceso_inicial
     = (Ok tt, proceso_inicial)
  /\ llamadas_mailer (tick str_un_decimal ent_tranquilo proceso_inicial) = [].
Proof.
  assert (Htoca : toca ent_tranquilo proceso_inicial) by (left; reflexivity).
  split; [repeat split; try reflexivity; exact Htoca|].
  destruct (empty_cycle_keeps_dispatch_state str_un_decimal ent_tranquilo
              proceso_inicial eq_refl Htoca eq_refl)
    as (Heq & _ & _ & Hll & _).
  split; [exact Heq | exact Hll].
Defined.

(** C6. A latest reading with a NULL temperature does not pass through
    the threshold evaluation silently: at [ent_lectura_nula], where the
    latest row of CPD-2 has no temperature, [temp >= thresholds["danger"]]
    raises [TypeError], and so does the whole aggregation, although the
    other reading, CPD-1 at 31.0 degrees, is above [danger]. *)
Theorem null_temperature_raises_in_aggregation :
  fetch_latest ent_lectura_nula None = Ok [cpd1_t8; cpd2_sin_temperatura]
  /\ temperatura cpd2_sin_temperatura = None
  /\ alerta_umbral str_un_decimal (thresholds (config ent_lectura_nula))
       cpd2_sin_temperatura
     = Raise TypeError
  /\ generar_alertas str_un_decimal ent_lectura_nula None proceso_inicial
     = (Raise TypeError, proceso_inicial).
Proof.
  split; [reflexivity|]. split; [reflexivity|]. split; [reflexivity|].
  apply (generar_alertas_lectura_nula str_un_decimal ent_lectura_nula None
           proceso_inicial [cpd1_t8] [] cpd2_sin_temperatura eq_refl).
  - repeat constructor; discriminate.
  - reflexivity.
Qed.

(** C4. A dispatching turn stores [last_alert_sent] and
    [ultimas_alertas] before the first delivery and keeps them when a
    delivery fails, but a failed send can keep the mailer from being
    called for the remaining recipients: at [ent_smtp_caido], with
    recipients ops@ and noc@, the connection made for ops@ is refused,
    the exception is none of those [EnviarCorreoSSL] handles, it leaves
    the loop over the recipients, and noc@ is never called. *)
Theorem refused_connection_skips_remaining_recipients :
  cfg_destinatarios (email (config ent_smtp_caido))
  = ["ops@cpd.example"; "noc@cpd.example"]
  /\ fst (enviar_alertas_si_toca str_un_decimal ent_smtp_caido proceso_inicial)
     = Raise (ExcepcionNoSMTP "ConnectionRefusedError")
  /\ map destinatario
       (llamadas_mailer (tick str_un_decimal ent_smtp_caido proceso_inicial))
     = ["ops@cpd.example"]
  /\ alert_manager (tick str_un_decimal ent_smtp_caido proceso_inicial)
     = {| last_alert_sent := Some (ahora ent_smtp_caido);
          ultimas_alertas := [alerta_umbral_cpd1; alerta_spike_cpd1] |}.
Proof. repeat split; vm_compute; reflexivity. Qed.

(** When the failure is one the mailer handles, here the server
    rejecting the first recipient, the second recipient is still
    called. *)
Example smtp_rejection_reaches_remaining_recipients :
  fst (enviar_alertas_si_toca str_un_decimal ent_smtp_rechaza proceso_inicial)
  = Ok tt
  /\ map destinatario
       (llamadas_mailer (tick str_un_decimal ent_smtp_rechaza proceso_inicial))
     = ["ops@cpd.example"; "noc@cpd.example"].
Proof. repeat split; vm_compute; reflexivity. Qed.

(** ** The detector on the scenarios of the specification *)

Example spike_20_0_to_24_5_in_8_min :
  spikes_de_rows [lectura "A" 8 24.5; lectura "A" 0 20]
  = Ok [{| alerta_ubicacion := "A"; nivel := "roja";
           texto := "SUBIDA CRÍTICA → A: +4.5°C en 8 min ¡POSIBLE EMERGENCIA!" |}].
Proof. vm_compute. reflexivity. Qed.

Example spike_20_0_to_22_7_in_8_min :
  spikes_de_rows [lectura "A" 8 22.7; lectura "A" 0 20]
  = Ok [{| alerta_ubicacion := "A"; nivel := "amarilla";
           texto := "Subida rápida → A: +2.7°C en 8 min" |}].
Proof. vm_compute. reflexivity. Qed.

Example spike_25_0_to_19_5_in_12_min :
  spikes_de_rows [lectura "A" 12 19.5; lectura "A" 0 25]
  = Ok [{| alerta_ubicacion := "A"; nivel := "azul";
           texto := "Bajada brusca → A: -5.5°C en 12 min → Revisar sensor" |}].
Proof. vm_compute. reflexivity. Qed.

Example spike_20_0_to_23_0_in_18_min :
  spikes_de_rows [lectura "A" 18 23; lectura "A" 0 20] = Ok [].
Proof. vm_compute. reflexivity. Qed.

(** The thresholds are inclusive. *)
Example spike_exactly_4_0_in_exactly_10_min :
  spikes_de_rows [lectura "A" 10 24; lectura "A" 0 20]
  = Ok [{| alerta_ubicacion := "A"; nivel := "roja";
           texto := "SUBIDA CRÍTICA → A: +4.0°C en 10 min ¡POSIBLE EMERGENCIA!" |}].
Proof. vm_compute. reflexivity. Qed.

Example spike_single_reading :
  spikes_de_rows [lectura "A" 8 31] = Ok [].
Proof. vm_compute. reflexivity. Qed.

Example spike_same_timestamp :
  spikes_de_rows [lectura "A" 8 31; lectura "A" 8 20] = Ok [].
Proof. vm_compute. reflexivity. Qed.

(** The backward scan passes over a reading without temperature. *)
Example spike_reference_behind_a_null_reading :
  spikes_de_rows [lectura "A" 8 24.5; lectura_nula "A" 4; lectura "A" 0 20]
  = Ok [{| alerta_ubicacion := "A"; nivel := "roja";
           texto := "SUBIDA CRÍTICA → A: +4.5°C en 8 min ¡POSIBLE EMERGENCIA!" |}].
Proof. vm_compute. reflexivity. Qed.

(** Several locations: groups are visited in order of first appearance
    and the result is sorted by priority afterwards. *)
Example spike_three_locations :
  map (fun a => (alerta_ubicacion a, nivel a))
    match spikes_de_rows [lectura "A" 12 19.5; lectura "A" 0 25;
                          lectura "B" 8 22.7; lectura "B" 0 20;
                          lectura "C" 8 24.5; lectura "C" 0 20] with
    | Ok l => l
    | Raise _ => []
    end
  = [("C", "roja"); ("B", "amarilla"); ("A", "azul")].
Proof. vm_compute. reflexivity. Qed.

(** ** The status query *)

Lemma proximo_envio_antes_del_primer_envio (ent : entorno) :
  proximo_envio ent (alert_manager proceso_inicial) = None.
Proof. reflexivity. Qed.

Lemma proximo_envio_tras_un_envio (ent : entorno) (am : AlertManager) (t : Z) :
  last_alert_sent am = Some t ->
  proximo_envio ent am = Some (t + intervalo_de ent)%Z.
Proof. intros H. unfold proximo_envio. now rewrite H. Qed.

(** The on-demand endpoint [/api/alerts] reads the detector and leaves
    the process state alone. *)
Lemma api_alerts_sin_efectos (ent : entorno) (location : option string)
    (w : proceso) :
  snd (api_alerts ent location w) = w.
Proof.
  unfold api_alerts, bind. rewrite detect_temperature_spikes_eq.
  now destruct (rbind _ _).
Qed.

(** * The address validator *)

(** ** Matching by derivatives is membership *)

Lemma cat_inv (r1 r2 : regex) (s : list ascii) :
  en_lenguaje (Cat r1 r2) s ->
  exists s1 s2, s = s1 ++ s2 /\ en_lenguaje r1 s1 /\ en_lenguaje r2 s2.
Proof. intros H. inversion H; subst. eauto. Qed.

Lemma alt_inv (r1 r2 : regex) (s : list ascii) :
  en_lenguaje (Alt r1 r2) s -> en_lenguaje r1 s \/ en_lenguaje r2 s.
Proof. intros H. inversion H; subst; auto. Qed.

Lemma clase_inv (p : ascii -> bool) (s : list ascii) :
  en_lenguaje (Clase p) s -> exists c, s = [c] /\ p c = true.
Proof. intros H. inversion H; subst. eauto. Qed.

Lemma epsilon_inv (s : list ascii) : en_lenguaje Epsilon s -> s = [].
Proof. intros H. now inversion H. Qed.

Lemma nullable_correcto (r : regex) :
  nullable r = true <-> en_lenguaje r [].
Proof.
  induction r as [| |p|r1 IH1 r2 IH2|r1 IH1 r2 IH2|r IH]; simpl.
  - split; [discriminate | intros H; inversion H].
  - split; [constructor | reflexivity].
  - split; [discriminate | intros H; inversion H].
  - rewrite andb_true_iff, IH1, IH2. split.
    + intros [H1 H2]. now apply (L_cat r1 r2 [] []).
    + intros H. apply cat_inv in H as (s1 & s2 & Heq & H1 & H2).
      symmetry in Heq. apply app_eq_nil in Heq as [-> ->]. now split.
  - rewrite orb_true_iff, IH1, IH2. split.
    + intros [H|H]; [now apply L_alt_izq | now apply L_alt_der].
    + apply alt_inv.
  - split; [constructor | reflexivity].
Qed.

Lemma estrella_cons_inv (r : regex) (c : ascii) (s : list ascii) :
  en_lenguaje (Estrella r) (c :: s) ->
  exists s1 s2,
    s = s1 ++ s2 /\ en_lenguaje r (c :: s1) /\ en_lenguaje (Estrella r) s2.
Proof.
  intros H. remember (Estrella r) as r' eqn:Hr. remember (c :: s) as w eqn:Hw.
  induction H as [| | | | | |r0 s1 s2 H1 _ H2 IH2]; try discriminate.
  inversion Hr; subst r0.
  destruct s1 as [|c1 s1]; simpl in Hw.
  - now apply IH2.
  - inversion Hw; subst. now exists s1, s2.
Qed.

Lemma deriv_correcto (r : regex) :
  forall (c : ascii) (s : list ascii),
    en_lenguaje (deriv c r) s <-> en_lenguaje r (c :: s).
Proof.
  induction r as [| |p|r1 IH1 r2 IH2|r1 IH1 r2 IH2|r IH]; intros c s; simpl.
  - split; intros H; inversion H.
  - split; intros H; inversion H.
  - destruct (p c) eqn:Hp; split; intros H.
    + apply epsilon_inv in H. subst. now constructor.
    + apply clase_inv in H as (c' & Heq & _). inversion Heq. constructor.
    + inversion H.
    + apply clase_inv in H as (c' & Heq & Hc). inversion Heq; subst. congruence.
  - assert (Hcat : en_lenguaje (Cat (deriv c r1) r2) s ->
                   en_lenguaje (Cat r1 r2) (c :: s)).
    { intros Hc. apply cat_inv in Hc as (s1 & s2 & -> & H1 & H2).
      apply IH1 in H1. now apply (L_cat r1 r2 (c :: s1) s2). }
    split.
    + intros H.
      destruct (nullable r1) eqn:Hn; [|now apply Hcat].
      apply alt_inv in H as [H|H]; [now apply Hcat|].
      apply (L_cat r1 r2 [] (c :: s)); [now apply nullable_correcto|].
      now apply IH2.
    + intros H. apply cat_inv in H as (s1 & s2 & Heq & H1 & H2).
      destruct s1 as [|c1 s1]; simpl in Heq.
      * subst s2. apply nullable_correcto in H1. rewrite H1.
        apply L_alt_der. now apply IH2.
      * inversion Heq; subst.
        assert (Hc : en_lenguaje (Cat (deriv c1 r1) r2) (s1 ++ s2)).
        { constructor; [now apply IH1 | exact H2]. }
        destruct (nullable r1); [now apply L_alt_izq | exact Hc].
  - split; intros H; apply alt_inv in H as [H|H].
    + apply L_alt_izq. now apply IH1.
    + apply L_alt_der. now apply IH2.
    + apply L_alt_izq. now apply IH1.
    + apply L_alt_der. now apply IH2.
  - split.
    + intros H. apply cat_inv in H as (s1 & s2 & -> & H1 & H2).
      apply IH in H1. now apply (L_estrella_mas r (c :: s1) s2).
    + intros H. apply estrella_cons_inv in H as (s1 & s2 & -> & H1 & H2).
      constructor; [now apply IH | exact H2].
Qed.

Lemma coincide_correcto (r : regex) (s : list ascii) :
  coincide r s = true <-> en_lenguaje r s.
Proof.
  revert r. induction s as [|c s IH]; intros r; simpl.
  - apply nullable_correcto.
  - rewrite IH. apply deriv_correcto.
Qed.

Lemma en_lenguaje_alfabeto (r : regex) (s : list ascii) :
  en_lenguaje r s -> Forall (fun c => alfabeto r c = true) s.
Proof.
  induction 1; simpl.
  - constructor.
  - repeat constructor. assumption.
  - apply Forall_app. split.
    + eapply Forall_impl; [|eassumption]. intros a Ha. now rewrite Ha.
    + eapply Forall_impl; [|eassumption]. intros a Ha. rewrite Ha.
      apply orb_true_r.
  - eapply Forall_impl; [|eassumption]. intros a Ha. now rewrite Ha.
  - eapply Forall_impl; [|eassumption]. intros a Ha. rewrite Ha.
    apply orb_true_r.
  - constructor.
  - apply Forall_app. now split.
Qed.

(** ** What the pattern accepts *)

Lemma caracter_inv (c : ascii) (s : list ascii) :
  en_lenguaje (Caracter c) s -> s = [c].
Proof.
  intros H. apply clase_inv in H as (c' & -> & Hc).
  apply Ascii.eqb_eq in Hc. now subst.
Qed.

Lemma mas_no_vacio (r : regex) (s : list ascii) :
  en_lenguaje (Mas r) s -> ~ en_lenguaje r [] -> s <> [].
Proof.
  intros H Hr. apply cat_inv in H as (s1 & s2 & -> & H1 & _).
  destruct s1; [contradiction | discriminate].
Qed.

Lemma opcional_clase_inv (p : ascii -> bool) (s : list ascii) :
  en_lenguaje (Opcional (Clase p)) s ->
  (List.length s <= 1)%nat /\ Forall (fun c => p c = true) s.
Proof.
  intros H. apply alt_inv in H as [H|H].
  - apply clase_inv in H as (c & -> & Hc). simpl. split; [lia|].
    now repeat constructor.
  - apply epsilon_inv in H. subst. simpl. split; [lia | constructor].
Qed.

(** The words of the pattern: a local part, [@], a domain, a dot and a
    top-level label of two to four letters. *)
Lemma patron_email_forma (s : list ascii) :
  en_lenguaje patron_email s ->
  exists local dominio tld,
    s = local ++ [arroba] ++ dominio ++ [punto] ++ tld
    /\ local <> []
    /\ Forall (fun c => clase_local c = true \/ c = punto) local
    /\ dominio <> []
    /\ Forall (fun c => clase_dominio c = true \/ c = punto) dominio
    /\ (2 <= List.length tld <= 4)%nat
    /\ Forall (fun c => clase_letra c = true) tld.
Proof.
  unfold patron_email. intros H.
  apply cat_inv in H as (l1 & s1 & -> & Hl1 & H).
  apply cat_inv in H as (l2 & s2 & -> & Hl2 & H).
  apply cat_inv in H as (a & s3 & -> & Ha & H).
  apply cat_inv in H as (d1 & s4 & -> & Hd1 & H).
  apply cat_inv in H as (d2 & s5 & -> & Hd2 & H).
  apply cat_inv in H as (pt & s6 & -> & Hpt & H).
  apply cat_inv in H as (t1 & s7 & -> & Ht1 & H).
  apply cat_inv in H as (t2 & s8 & -> & Ht2 & H).
  apply cat_inv in H as (t3 & t4 & -> & Ht3 & Ht4).
  apply caracter_inv in Ha, Hpt. subst a pt.
  apply clase_inv in Ht1 as (c1 & -> & Hc1).
  apply clase_inv in Ht2 as (c2 & -> & Hc2).
  apply opcional_clase_inv in Ht3 as [Hn3 Hf3].
  apply opcional_clase_inv in Ht4 as [Hn4 Hf4].
  exists (l1 ++ l2), (d1 ++ d2), ([c1] ++ [c2] ++ t3 ++ t4).
  assert (Hcl : forall p, ~ en_lenguaje (Clase p) []).
  { intros p Hp. apply clase_inv in Hp as (c & Hc & _). discriminate. }
  split; [now rewrite <- !app_assoc|].
  split.
  { pose proof (mas_no_vacio _ _ Hl1 (Hcl _)). now destruct l1. }
  split.
  { apply Forall_app. split.
    - apply en_lenguaje_alfabeto in Hl1.
      eapply Forall_impl; [|exact Hl1]. intros c Hc.
      unfold Mas in Hc. cbn [alfabeto] in Hc.
      left. now destruct (clase_local c).
    - apply en_lenguaje_alfabeto in Hl2.
      eapply Forall_impl; [|exact Hl2]. intros c Hc.
      unfold Mas, Caracter in Hc. cbn [alfabeto] in Hc.
      destruct (Ascii.eqb_spec "." c) as [Heq|_]; [right; now rewrite <- Heq|].
      left. now destruct (clase_local c). }
  split.
  { pose proof (mas_no_vacio _ _ Hd1 (Hcl _)). now destruct d1. }
  split.
  { apply Forall_app. split.
    - apply en_lenguaje_alfabeto in Hd1.
      eapply Forall_impl; [|exact Hd1]. intros c Hc.
      unfold Mas in Hc. cbn [alfabeto] in Hc.
      left. now destruct (clase_dominio c).
    - apply en_lenguaje_alfabeto in Hd2.
      eapply Forall_impl; [|exact Hd2]. intros c Hc.
      unfold Mas, Caracter in Hc. cbn [alfabeto] in Hc.
      destruct (Ascii.eqb_spec "." c) as [Heq|_]; [right; now rewrite <- Heq|].
      left. now destruct (clase_dominio c). }
  split.
  { simpl. rewrite length_app. lia. }
  simpl. constructor; [exact Hc1|]. constructor; [exact Hc2|].
  apply Forall_app. now split.
Qed.

Lemma lower_ascii_arroba (c : ascii) : lower_ascii c = arroba <-> c = arroba.
Proof.
  destruct c as [[] [] [] [] [] [] [] []]; vm_compute;
    split; intros H; first [reflexivity | discriminate H].
Qed.

Lemma lower_ascii_salto (c : ascii) :
  lower_ascii c = salto_de_linea <-> c = salto_de_linea.
Proof.
  destruct c as [[] [] [] [] [] [] [] []]; vm_compute;
    split; intros H; first [reflexivity | discriminate H].
Qed.

Lemma count_occ_lower_arroba (l : list ascii) :
  count_occ ascii_dec (lower l) arroba = count_occ ascii_dec l arroba.
Proof.
  induction l as [|c l IH]; [reflexivity|]. simpl.
  destruct (ascii_dec (lower_ascii c) arroba) as [H|H];
    destruct (ascii_dec c arroba) as [H'|H'];
    rewrite IH; try reflexivity.
  - apply (proj1 (lower_ascii_arroba c)) in H. contradiction.
  - apply (proj2 (lower_ascii_arroba c)) in H'. contradiction.
Qed.

Lemma sin_arroba (p : ascii -> bool) (l : list ascii) :
  p arroba = false ->
  Forall (fun c => p c = true \/ c = punto) l ->
  count_occ ascii_dec l arroba = 0%nat.
Proof.
  intros Hp Hall. apply count_occ_not_In. intros Hin.
  rewrite Forall_forall in Hall. destruct (Hall _ Hin) as [H|H].
  - congruence.
  - discriminate H.
Qed.

(** What [re_match_anclado] accepts: a word of the pattern, possibly
    followed by one newline. *)
Lemma re_match_anclado_spec (r : regex) (s : list ascii) :
  re_match_anclado r s = true
  <-> en_lenguaje r s
      \/ exists s', s = s' ++ [salto_de_linea] /\ en_lenguaje r s'.
Proof.
  unfold re_match_anclado. rewrite orb_true_iff, coincide_correcto.
  split; (intros [H|H]; [now left | right]).
  - destruct (rev s) as [|c resto] eqn:Hrev; [discriminate|].
    apply andb_true_iff in H as [Hc Hm].
    apply Ascii.eqb_eq in Hc. subst c. apply coincide_correcto in Hm.
    exists (rev resto). split; [|exact Hm].
    rewrite <- (rev_involutive s), Hrev. reflexivity.
  - destruct H as (s' & -> & Hm).
    rewrite rev_app_distr. cbn [rev app].
    rewrite Ascii.eqb_refl, rev_involutive.
    now apply coincide_correcto.
Qed.

(** X19. An accepted ASCII address, once lowered and without the
    newline that may end it, is a non-empty local part of letters,
    digits, [_], [-] and dots, one [@], a non-empty domain of letters,
    digits, [-] and dots, a dot, and a last label of two to four
    letters; the address as given contains exactly one [@]. *)
Theorem valid_email_shape (email : string) :
  es_ascii email ->
  ValidarSintaxisEmail email = true ->
  exists local dominio tld fin,
    lower (list_ascii_of_string email)
    = local ++ [arroba] ++ dominio ++ [punto] ++ tld ++ fin
    /\ local <> []
    /\ Forall (fun c => clase_local c = true \/ c = punto) local
    /\ dominio <> []
    /\ Forall (fun c => clase_dominio c = true \/ c = punto) dominio
    /\ (2 <= List.length tld <= 4)%nat
    /\ Forall (fun c => clase_letra c = true) tld
    /\ (fin = [] \/ fin = [salto_de_linea])
    /\ count_occ ascii_dec (list_ascii_of_string email) arroba = 1%nat.
Proof.
  intros _ Hv. unfold ValidarSintaxisEmail in Hv.
  apply re_match_anclado_spec in Hv.
  assert (Hforma : exists s' fin,
            lower (list_ascii_of_string email) = s' ++ fin
            /\ en_lenguaje patron_email s'
            /\ (fin = [] \/ fin = [salto_de_linea])).
  { destruct Hv as [H|(s' & Heq & H)].
    - exists (lower (list_ascii_of_string email)), [].
      rewrite app_nil_r. auto.
    - exists s', [salto_de_linea]. auto. }
  destruct Hforma as (s' & fin & Heq & Hm & Hfin).
  apply patron_email_forma in Hm
    as (local & dominio & tld & -> & Hl & Hfl & Hd & Hfd & Hn & Hft).
  exists local, dominio, tld, fin.
  assert (Heq' : lower (list_ascii_of_string email)
                 = local ++ [arroba] ++ dominio ++ [punto] ++ tld ++ fin).
  { rewrite Heq. now rewrite <- !app_assoc. }
  repeat (split; [assumption|]).
  rewrite <- count_occ_lower_arroba, Heq'.
  rewrite !count_occ_app.
  rewrite (sin_arroba clase_local local eq_refl Hfl).
  rewrite (sin_arroba clase_dominio dominio eq_refl Hfd).
  assert (Ht : count_occ ascii_dec tld arroba = 0%nat).
  { apply (sin_arroba clase_letra); [reflexivity|].
    eapply Forall_impl; [|exact Hft]. auto. }
  rewrite Ht.
  destruct Hfin as [->| ->]; reflexivity.
Qed.

Lemma estrella_clase_intro (p : ascii -> bool) (s : list ascii) :
  Forall (fun c => p c = true) s -> en_lenguaje (Estrella (Clase p)) s.
Proof.
  induction 1 as [|c s Hc _ IH]; [constructor|].
  apply (L_estrella_mas (Clase p) [c] s); [now constructor | exact IH].
Qed.

Lemma mas_clase_intro (p : ascii -> bool) (s : list ascii) :
  palabra_de p s -> en_lenguaje (Mas (Clase p)) (lower s).
Proof.
  intros [Hne Hall]. destruct s as [|c s]; [congruence|].
  apply Forall_cons_iff in Hall as [Hc Hall].
  apply (L_cat (Clase p) (Estrella (Clase p)) [lower_ascii c] (lower s)).
  - now constructor.
  - apply estrella_clase_intro. unfold lower. now apply Forall_map.
Qed.

Lemma lower_app (s1 s2 : list ascii) : lower (s1 ++ s2) = lower s1 ++ lower s2.
Proof. apply map_app. Qed.

Lemma unir_con_puntos_intro (p : ascii -> bool) (partes : list (list ascii)) :
  partes <> [] ->
  Forall (palabra_de p) partes ->
  en_lenguaje
    (Cat (Mas (Clase p)) (Estrella (Cat (Caracter ".") (Mas (Clase p)))))
    (lower (unir_con_puntos partes)).
Proof.
  intros Hne Hall. destruct partes as [|a resto]; [congruence|].
  apply Forall_cons_iff in Hall as [Ha Hall].
  simpl. rewrite lower_app. constructor; [now apply mas_clase_intro|].
  clear Ha Hne. induction Hall as [|b resto Hb _ IH]; [constructor|].
  simpl. rewrite lower_app.
  apply (L_estrella_mas _ (lower (punto :: b)) _); [|exact IH].
  apply (L_cat (Caracter ".") _ [punto] (lower b)).
  - constructor. reflexivity.
  - now apply mas_clase_intro.
Qed.

(** Atoms of letters, digits, [_] and [-] joined by single dots, an
    [@], labels of letters, digits and [-] joined by single dots, a dot
    and a last label of two to four letters make an accepted address,
    in any mixture of upper and lower case. *)
Lemma dotted_address_is_valid
    (atomos etiquetas : list (list ascii)) (tld : list ascii) :
  atomos <> [] ->
  Forall (palabra_de clase_local) atomos ->
  etiquetas <> [] ->
  Forall (palabra_de clase_dominio) etiquetas ->
  (2 <= List.length tld <= 4)%nat ->
  Forall (fun c => clase_letra (lower_ascii c) = true) tld ->
  ValidarSintaxisEmail
    (string_of_list_ascii
       (unir_con_puntos atomos ++ [arroba] ++ unir_con_puntos etiquetas
          ++ [punto] ++ tld))
  = true.
Proof.
  intros Ha Hfa He Hfe Hn Ht.
  unfold ValidarSintaxisEmail. rewrite list_ascii_of_string_of_list_ascii.
  apply re_match_anclado_spec. left.
  rewrite !lower_app. unfold patron_email.
  pose proof (unir_con_puntos_intro clase_local atomos Ha Hfa) as Hl.
  pose proof (unir_con_puntos_intro clase_dominio etiquetas He Hfe) as Hd.
  apply cat_inv in Hl as (l1 & l2 & Hleq & Hl1 & Hl2).
  apply cat_inv in Hd as (d1 & d2 & Hdeq & Hd1 & Hd2).
  rewrite Hleq, Hdeq, <- !app_assoc.
  apply L_cat; [exact Hl1|]. apply L_cat; [exact Hl2|].
  apply (L_cat (Caracter "@") _ [arroba]); [now constructor|].
  apply L_cat; [exact Hd1|]. apply L_cat; [exact Hd2|].
  apply (L_cat (Caracter ".") _ [punto]); [now constructor|].
  destruct tld as [|c1 [|c2 [|c3 [|c4 [|c5 tld]]]]]; simpl in Hn; try lia;
    repeat match goal with
           | H : Forall _ (_ :: _) |- _ => apply Forall_cons_iff in H as [? H]
           end;
    cbn [lower map].
  - apply (L_cat _ _ [_] [_]); [now constructor|].
    apply (L_cat _ _ [_] []); [now constructor|].
    apply (L_cat _ _ [] []); apply L_alt_der; constructor.
  - apply (L_cat _ _ [_] [_; _]); [now constructor|].
    apply (L_cat _ _ [_] [_]); [now constructor|].
    apply (L_cat _ _ [_] []); [apply L_alt_izq; now constructor|].
    apply L_alt_der; constructor.
  - apply (L_cat _ _ [_] [_; _; _]); [now constructor|].
    apply (L_cat _ _ [_] [_; _]); [now constructor|].
    apply (L_cat _ _ [_] [_]); apply L_alt_izq; now constructor.
Qed.

Lemma list_ascii_of_string_app (s1 s2 : string) :
  list_ascii_of_string (s1 ++ s2)%string
  = list_ascii_of_string s1 ++ list_ascii_of_string s2.
Proof. induction s1 as [|c s1 IH]; simpl; [reflexivity | now rewrite IH]. Qed.

(** X20. The end anchor lets one newline through: an accepted address
    that contains no newline is still accepted with a newline appended
    to it. *)
Theorem trailing_newline_is_accepted (email : string) :
  es_ascii email ->
  ValidarSintaxisEmail email = true ->
  ~ In salto_de_linea (list_ascii_of_string email) ->
  ValidarSintaxisEmail (email ++ String salto_de_linea EmptyString) = true.
Proof.
  intros _ Hv Hnl. unfold ValidarSintaxisEmail in *.
  apply re_match_anclado_spec in Hv. apply re_match_anclado_spec.
  right. exists (lower (list_ascii_of_string email)). split.
  - rewrite list_ascii_of_string_app, lower_app. reflexivity.
  - destruct Hv as [H|(s' & Heq & _)]; [exact H|].
    exfalso. apply Hnl.
    assert (Hin : In salto_de_linea (lower (list_ascii_of_string email))).
    { rewrite Heq. apply in_or_app. right. now left. }
    unfold lower in Hin. apply in_map_iff in Hin as (c & Hc & Hin).
    apply (proj1 (lower_ascii_salto c)) in Hc. now subst c.
Qed.

(** ** The accepted addresses, exactly *)

Lemma mas_clase_inv (p : ascii -> bool) (s : list ascii) :
  en_lenguaje (Mas (Clase p)) s -> palabra p s.
Proof.
  intros H. split.
  - apply (mas_no_vacio _ _ H). intros Hp.
    apply clase_inv in Hp as (c & Hc & _). discriminate.
  - apply en_lenguaje_alfabeto in H.
    eapply Forall_impl; [|exact H]. intros c Hc.
    unfold Mas in Hc. cbn [alfabeto] in Hc. now destruct (p c).
Qed.

Lemma estrella_puntos_inv (p : ascii -> bool) (s : list ascii) :
  en_lenguaje (Estrella (Cat (Caracter ".") (Mas (Clase p)))) s ->
  exists partes,
    s = flat_map (fun x => punto :: x) partes /\ Forall (palabra p) partes.
Proof.
  intros H.
  remember (Estrella (Cat (Caracter ".") (Mas (Clase p)))) as r eqn:Hr.
  induction H as [| | | | | |r0 s1 s2 H1 _ H2 IH2]; try discriminate.
  - exists []. now split.
  - inversion Hr; subst r0.
    destruct (IH2 eq_refl) as (partes & -> & Hall).
    apply cat_inv in H1 as (pt & a & -> & Hpt & Ha).
    apply caracter_inv in Hpt. subst pt.
    apply mas_clase_inv in Ha.
    exists (a :: partes). split; [reflexivity | now constructor].
Qed.

Lemma unir_con_puntos_inv (p : ascii -> bool) (s1 s2 : list ascii) :
  en_lenguaje (Mas (Clase p)) s1 ->
  en_lenguaje (Estrella (Cat (Caracter ".") (Mas (Clase p)))) s2 ->
  exists partes,
    s1 ++ s2 = unir_con_puntos partes
    /\ partes <> [] /\ Forall (palabra p) partes.
Proof.
  intros H1 H2. apply mas_clase_inv in H1.
  apply estrella_puntos_inv in H2 as (partes & -> & Hall).
  exists (s1 :: partes). split; [reflexivity|].
  split; [discriminate | now constructor].
Qed.

Lemma clase_minuscula (p : ascii -> bool) (c : ascii) :
  (p = clase_local \/ p = clase_dominio \/ p = clase_letra) ->
  p c = true -> lower_ascii c = c.
Proof.
  intros [->|[->| ->]];
    destruct c as [[] [] [] [] [] [] [] []]; vm_compute;
    intros H; first [reflexivity | discriminate H].
Qed.

Lemma palabra_palabra_de (p : ascii -> bool) (s : list ascii) :
  (p = clase_local \/ p = clase_dominio \/ p = clase_letra) ->
  palabra p s -> palabra_de p s /\ lower s = s.
Proof.
  intros Hp [Hne Hall]. split; [split; [exact Hne|]|].
  - eapply Forall_impl; [|exact Hall]. intros c Hc.
    now rewrite (clase_minuscula p c Hp Hc).
  - clear Hne. induction Hall as [|c s Hc _ IH]; [reflexivity|].
    simpl. now rewrite (clase_minuscula p c Hp Hc), IH.
Qed.

Lemma unir_minusculas (p : ascii -> bool) (partes : list (list ascii)) :
  (p = clase_local \/ p = clase_dominio \/ p = clase_letra) ->
  Forall (palabra p) partes ->
  Forall (palabra_de p) partes /\ lower (unir_con_puntos partes) = unir_con_puntos partes.
Proof.
  intros Hp Hall. split.
  - eapply Forall_impl; [|exact Hall]. intros s Hs.
    now apply palabra_palabra_de.
  - destruct Hall as [|a resto Ha Hall]; [reflexivity|].
    simpl. rewrite lower_app.
    rewrite (proj2 (palabra_palabra_de p a Hp Ha)). f_equal.
    induction Hall as [|b resto Hb _ IH]; [reflexivity|].
    simpl. rewrite lower_app, IH.
    now rewrite (proj2 (palabra_palabra_de p b Hp Hb)).
Qed.

Lemma patron_email_exacto (s : list ascii) :
  en_lenguaje patron_email s <-> direccion_bien_formada s.
Proof.
  split.
  - unfold patron_email. intros H.
    apply cat_inv in H as (l1 & s1 & -> & Hl1 & H).
    apply cat_inv in H as (l2 & s2 & -> & Hl2 & H).
    apply cat_inv in H as (a & s3 & -> & Ha & H).
    apply cat_inv in H as (d1 & s4 & -> & Hd1 & H).
    apply cat_inv in H as (d2 & s5 & -> & Hd2 & H).
    apply cat_inv in H as (pt & s6 & -> & Hpt & H).
    apply cat_inv in H as (t1 & s7 & -> & Ht1 & H).
    apply cat_inv in H as (t2 & s8 & -> & Ht2 & H).
    apply cat_inv in H as (t3 & t4 & -> & Ht3 & Ht4).
    apply caracter_inv in Ha, Hpt. subst a pt.
    apply clase_inv in Ht1 as (c1 & -> & Hc1).
    apply clase_inv in Ht2 as (c2 & -> & Hc2).
    apply opcional_clase_inv in Ht3 as [Hn3 Hf3].
    apply opcional_clase_inv in Ht4 as [Hn4 Hf4].
    destruct (unir_con_puntos_inv _ _ _ Hl1 Hl2) as (atomos & Hal & Han & Haf).
    destruct (unir_con_puntos_inv _ _ _ Hd1 Hd2) as (etiq & Hel & Hen & Hef).
    exists atomos, etiq, ([c1] ++ [c2] ++ t3 ++ t4).
    split; [rewrite <- Hal, <- Hel; now rewrite <- !app_assoc|].
    repeat (split; [assumption|]).
    split; [simpl; rewrite length_app; lia|].
    simpl. constructor; [exact Hc1|]. constructor; [exact Hc2|].
    apply Forall_app. now split.
  - intros (atomos & etiq & tld & -> & Ha & Hfa & He & Hfe & Hn & Ht).
    destruct (unir_minusculas clase_local atomos (or_introl eq_refl) Hfa)
      as [Hfa' Hla].
    destruct (unir_minusculas clase_dominio etiq (or_intror (or_introl eq_refl)) Hfe)
      as [Hfe' Hle].
    assert (Ht' : Forall (fun c => clase_letra (lower_ascii c) = true) tld
                  /\ lower tld = tld).
    { split.
      - eapply Forall_impl; [|exact Ht]. intros c Hc.
        now rewrite (clase_minuscula clase_letra c
                       (or_intror (or_intror eq_refl)) Hc).
      - clear Hn. induction Ht as [|c t Hc _ IH]; [reflexivity|].
        simpl. now rewrite IH, (clase_minuscula clase_letra c
                                  (or_intror (or_intror eq_refl)) Hc). }
    destruct Ht' as [Ht' Hlt].
    pose proof (dotted_address_is_valid atomos etiq tld Ha Hfa' He Hfe' Hn Ht')
      as Hv.
    unfold ValidarSintaxisEmail in Hv.
    rewrite list_ascii_of_string_of_list_ascii in Hv.
    rewrite !lower_app, Hla, Hle, Hlt in Hv. cbn [lower map] in Hv.
    change (lower_ascii arroba) with arroba in Hv.
    change (lower_ascii punto) with punto in Hv.
    apply re_match_anclado_spec in Hv as [Hv|(s' & Heq & _)]; [exact Hv|].
    exfalso.
    assert (Hlast : In salto_de_linea tld).
    { assert (Hrev : rev (unir_con_puntos atomos ++ [arroba]
                           ++ unir_con_puntos etiq ++ [punto] ++ tld)
                     = rev (s' ++ [salto_de_linea])) by now rewrite Heq.
      rewrite !rev_app_distr in Hrev. simpl in Hrev.
      destruct tld as [|c t] using rev_ind; [simpl in Hn; lia|].
      rewrite rev_app_distr in Hrev. simpl in Hrev.
      inversion Hrev; subst. apply in_or_app. right. now left. }
    rewrite Forall_forall in Ht. specialize (Ht _ Hlast). discriminate Ht.
Qed.

(** X21. The validator accepts exactly the ASCII addresses that, once
    lowered, are a well-formed address, or a well-formed address
    followed by one newline. *)
Theorem valid_email_exactly (email : string) :
  es_ascii email ->
  (ValidarSintaxisEmail email = true
   <-> direccion_bien_formada (lower (list_ascii_of_string email))
       \/ exists s',
            lower (list_ascii_of_string email) = s' ++ [salto_de_linea]
            /\ direccion_bien_formada s').
Proof.
  intros _. unfold ValidarSintaxisEmail.
  rewrite re_match_anclado_spec, patron_email_exacto.
  split; (intros [H|(s' & Heq & H)]; [now left | right; exists s'; split;
    [exact Heq | now apply patron_email_exacto]]).
Qed.

(** * The websocket endpoint *)

Lemma bucle_ws_traza (dumps : list fila -> resultado string)
    (filter_val : option string) (vueltas : list vuelta_ws) :
  forall traza salida,
    bucle_ws dumps filter_val vueltas = (traza, salida) ->
    ~ In WsClose traza /\ ~ In WsAccept traza
    /\ (List.length (envios_ok traza) <= List.length vueltas)%nat
    /\ Forall2 (vuelta_enviada dumps filter_val)
         (firstn (List.length (envios_ok traza)) vueltas) (envios_ok traza)
    /\ (salida = None -> List.length (envios_ok traza) = List.length vueltas).
Proof.
  induction vueltas as [|v resto IH]; simpl; intros traza salida H.
  - inversion H; subst. simpl. repeat split; auto; constructor.
  - destruct (ws_conectado v) eqn:Hc; simpl in H.
    2:{ inversion H; subst. simpl.
        repeat split; auto with arith; try constructor; discriminate. }
    destruct (ws_latest v filter_val) as [data|e] eqn:Hl.
    2:{ inversion H; subst. simpl.
        repeat split; auto with arith; try constructor; discriminate. }
    destruct (dumps data) as [json_str|e] eqn:Hd.
    2:{ inversion H; subst. simpl.
        repeat split; auto with arith; try constructor; discriminate. }
    assert (Hfallo : forall s,
              (traza, salida) = ([WsSendText json_str false], Some s) ->
              ~ In WsClose traza /\ ~ In WsAccept traza
              /\ (List.length (envios_ok traza) <= S (List.length resto))%nat
              /\ Forall2 (vuelta_enviada dumps filter_val)
                   (firstn (List.length (envios_ok traza)) (v :: resto))
                   (envios_ok traza)
              /\ (salida = None ->
                  List.length (envios_ok traza) = S (List.length resto))).
    { intros s Heq. inversion Heq; subst. simpl.
      repeat split; auto with arith; try constructor;
        try discriminate; intros [Hx|[]]; discriminate. }
    destruct (ws_send v) as [e|] eqn:Hs.
    { destruct e; symmetry in H; eapply Hfallo; eassumption. }
    assert (Hv : vuelta_enviada dumps filter_val v json_str).
    { split; [exact Hc|]. split; [now exists data | exact Hs]. }
    destruct (ws_sleep v) as [e|].
    { inversion H; subst. simpl.
      split; [intros [Hx|[Hx|[]]]; discriminate|].
      split; [intros [Hx|[Hx|[]]]; discriminate|].
      split; [lia|].
      split; [|discriminate].
      constructor; [exact Hv | constructor]. }
    destruct (bucle_ws dumps filter_val resto) as [t s] eqn:Hb.
    inversion H; subst.
    destruct (IH t salida eq_refl) as (Hcl & Hac & Hlen & Hall & Hnone).
    simpl. repeat split.
    + intros [Hx|[Hx|Hx]]; [discriminate | discriminate | now apply Hcl].
    + intros [Hx|[Hx|Hx]]; [discriminate | discriminate | now apply Hac].
    + lia.
    + constructor; [exact Hv | exact Hall].
    + intros Hn. now rewrite (Hnone Hn).
Qed.

(** X22. Once the connection is accepted, the endpoint closes the
    socket exactly once, as its last action, on every way out of the
    loop: the client gone, a send that fails, an error of the store or
    of the serialiser, a cancellation. While the loop is running the
    socket has not been closed. *)
Theorem websocket_closes_exactly_once
    (dumps : list fila -> resultado string) (location_filter : string)
    (vueltas : list vuelta_ws) :
  let '(traza, estado) :=
    websocket_endpoint dumps None location_filter vueltas in
  exists cuerpo,
    ~ In WsClose cuerpo /\ ~ In WsAccept cuerpo
    /\ match estado with
       | WsEnCurso => traza = WsAccept :: cuerpo
       | _ => traza = WsAccept :: cuerpo ++ [WsClose]
       end.
Proof.
  unfold websocket_endpoint.
  destruct (bucle_ws dumps (filter_val_de location_filter) vueltas)
    as [t s] eqn:Hb.
  destruct (bucle_ws_traza _ _ _ _ _ Hb) as (Hcl & Hac & _).
  destruct s as [[|e]|]; [| destruct e |]; exists t; auto.
Qed.


(** * The further properties at the sample inputs *)

Lemma spike_needs_two_readings_witness :
  (fetch_ventana ent_tranquilo None = Ok [cpd1_t0]
   /\ (List.length (filter (en_ubicacion "CPD-1") [cpd1_t0]) < 2)%nat
   /\ detect_temperature_spikes ent_tranquilo None proceso_inicial
      = (Ok [], proceso_inicial))
  /\ filter (alerta_en "CPD-1") [] = [].
Proof.
  assert (Hlen : (List.length (filter (en_ubicacion "CPD-1") [cpd1_t0]) < 2)%nat)
    by (apply Nat.ltb_lt; reflexivity).
  split; [repeat split; try reflexivity; exact Hlen|].
  exact (spike_needs_two_readings ent_tranquilo None proceso_inicial
           proceso_inicial [cpd1_t0] [] "CPD-1" eq_refl Hlen eq_refl).
Defined.

Lemma spike_alerts_are_local_witness :
  (filter (en_ubicacion "A") ventana_a = filter (en_ubicacion "A") ventana_a_b
   /\ spikes_de_rows ventana_a = Ok (alertas_de (spikes_de_rows ventana_a))
   /\ spikes_de_rows ventana_a_b = Ok (alertas_de (spikes_de_rows ventana_a_b)))
  /\ filter (alerta_en "A") (alertas_de (spikes_de_rows ventana_a))
     = filter (alerta_en "A") (alertas_de (spikes_de_rows ventana_a_b)).
Proof.
  assert (H1 : spikes_de_rows ventana_a
               = Ok (alertas_de (spikes_de_rows ventana_a)))
    by (vm_compute; reflexivity).
  assert (H2 : spikes_de_rows ventana_a_b
               = Ok (alertas_de (spikes_de_rows ventana_a_b)))
    by (vm_compute; reflexivity).
  split; [repeat split; try assumption; reflexivity|].
  exact (spike_alerts_are_local ventana_a ventana_a_b _ _ "A" eq_refl H1 H2).
Defined.

Lemma spike_detector_total_on_query_rows_witness :
  (fetch_ventana ent_ejemplo None = Ok [cpd1_t8; cpd1_t0]
   /\ Forall (where_ventana (ahora ent_ejemplo) None) [cpd1_t8; cpd1_t0])
  /\ exists alertas_,
       detect_temperature_spikes ent_ejemplo None proceso_inicial
       = (Ok alertas_, proceso_inicial).
Proof.
  assert (Hw : Forall (where_ventana (ahora ent_ejemplo) None)
                 [cpd1_t8; cpd1_t0]).
  { repeat constructor; try discriminate; vm_compute; discriminate. }
  split; [split; [reflexivity | exact Hw]|].
  exact (spike_detector_total_on_query_rows ent_ejemplo None proceso_inicial
           (ahora ent_ejemplo) [cpd1_t8; cpd1_t0] eq_refl Hw).
Defined.

Lemma spike_alerts_independent_of_row_order_witness :
  (Permutation [cpd1_t8; cpd1_t0] [cpd1_t0; cpd1_t8]
   /\ spikes_de_rows [cpd1_t8; cpd1_t0] = Ok [alerta_spike_cpd1])
  /\ exists alertas',
       spikes_de_rows [cpd1_t0; cpd1_t8] = Ok alertas'
       /\ Permutation [alerta_spike_cpd1] alertas'.
Proof.
  assert (Hp : Permutation [cpd1_t8; cpd1_t0] [cpd1_t0; cpd1_t8])
    by apply perm_swap.
  assert (Hnd : forall u,
            NoDup (map fecha_hora
                     (filter (en_ubicacion u) [cpd1_t8; cpd1_t0]))).
  { intros u. unfold en_ubicacion. cbn [filter ubicacion cpd1_t8 cpd1_t0].
    destruct (String.eqb "CPD-1" u); cbn [map].
    - constructor; [|constructor; [intros []|constructor]].
      intros [H|[]]. vm_compute in H. discriminate H.
    - constructor. }
  split; [split; [exact Hp | reflexivity]|].
  destruct (spike_alerts_independent_of_row_order
              [cpd1_t8; cpd1_t0] [cpd1_t0; cpd1_t8] [alerta_spike_cpd1]
              Hp Hnd eq_refl) as (alertas' & Hok & Hperm & _).
  exists alertas'. now split.
Defined.

Lemma aggregator_alerts_well_formed_witness :
  generar_alertas str_un_decimal ent_ejemplo None proceso_inicial
  = (Ok [alerta_umbral_cpd1; alerta_spike_cpd1], proceso_inicial)
  /\ exists lecturas rows,
       fetch_latest ent_ejemplo None = Ok lecturas
       /\ (spikes_activados (config ent_ejemplo) = true ->
           fetch_ventana ent_ejemplo None = Ok rows)
       /\ Forall (fun a =>
                    nivel_conocido a
                    /\ texto a <> EmptyString
                    /\ (In (alerta_ubicacion a) (map ubicacion lecturas)
                        \/ spikes_activados (config ent_ejemplo) = true
                           /\ In (alerta_ubicacion a) (map ubicacion rows)))
                 [alerta_umbral_cpd1; alerta_spike_cpd1].
Proof.
  split; [reflexivity|].
  exact (aggregator_alerts_well_formed str_un_decimal ent_ejemplo None
           proceso_inicial proceso_inicial
           [alerta_umbral_cpd1; alerta_spike_cpd1] eq_refl).
Defined.

Lemma aggregator_output_by_level_witness :
  generar_alertas str_un_decimal ent_ejemplo None proceso_inicial
  = (Ok [alerta_umbral_cpd1; alerta_spike_cpd1], proceso_inicial)
  /\ exists lecturas spikes,
       fetch_latest ent_ejemplo None = Ok lecturas
       /\ (if spikes_activados (config ent_ejemplo)
           then detect_temperature_spikes ent_ejemplo None proceso_inicial
                = (Ok spikes, proceso_inicial)
           else spikes = [])
       /\ [alerta_umbral_cpd1; alerta_spike_cpd1]
          = de_nivel "roja"
              (alertas_umbral str_un_decimal (thresholds (config ent_ejemplo))
                 lecturas ++ spikes)
            ++ de_nivel "amarilla"
                 (alertas_umbral str_un_decimal (thresholds (config ent_ejemplo))
                    lecturas ++ spikes)
            ++ de_nivel "azul"
                 (alertas_umbral str_un_decimal (thresholds (config ent_ejemplo))
                    lecturas ++ spikes).
Proof.
  split; [reflexivity|].
  exact (aggregator_output_by_level str_un_decimal ent_ejemplo None
           proceso_inicial proceso_inicial
           [alerta_umbral_cpd1; alerta_spike_cpd1] eq_refl).
Defined.

Lemma aggregator_ignores_window_when_spikes_off_witness :
  alertas (config (con_config ent_ejemplo cfg_sin_spikes)) = None
  /\ generar_alertas str_un_decimal
       (con_fetch_ventana (con_config ent_ejemplo cfg_sin_spikes)
          (fun _ => Raise StoreError))
       None proceso_inicial
     = generar_alertas str_un_decimal (con_config ent_ejemplo cfg_sin_spikes)
         None proceso_inicial.
Proof.
  split; [reflexivity|].
  apply (aggregator_ignores_window_when_spikes_off str_un_decimal
           (con_config ent_ejemplo cfg_sin_spikes) None proceso_inicial
           (fun _ => Raise StoreError)).
  intros a H. discriminate H.
Defined.

Lemma aggregator_propagates_store_errors_witness :
  fetch_latest ent_store_caido None = Raise StoreError
  /\ generar_alertas str_un_decimal ent_store_caido None proceso_inicial
     = (Raise StoreError, proceso_inicial).
Proof.
  split; [reflexivity|].
  exact (proj1 (aggregator_propagates_store_errors str_un_decimal
                  ent_store_caido None proceso_inicial StoreError) eq_refl).
Defined.

Lemma failed_aggregation_leaves_state_witness :
  fst (generar_alertas str_un_decimal ent_lectura_nula None proceso_inicial)
  = Raise TypeError
  /\ tick str_un_decimal ent_lectura_nula proceso_inicial = proceso_inicial.
Proof.
  split; [reflexivity|].
  exact (proj1 (failed_aggregation_leaves_state str_un_decimal
                  ent_lectura_nula proceso_inicial TypeError eq_refl)).
Defined.

Lemma dispatch_is_opt_in_witness :
  email (config (con_config ent_ejemplo cfg_sin_email)) = None
  /\ enviar_alertas_si_toca str_un_decimal (con_config ent_ejemplo cfg_sin_email)
       proceso_inicial
     = (Ok tt, proceso_inicial).
Proof.
  split; [reflexivity|].
  apply (dispatch_is_opt_in str_un_decimal
           (con_config ent_ejemplo cfg_sin_email) proceso_inicial).
  intros c H. discriminate H.
Defined.

Lemma proximo_envio_is_the_boundary_witness :
  (proximo_envio ent_ejemplo (alert_manager proceso_tras_envio)
   = Some (ahora ent_ejemplo)
   /\ proximo_envio (con_ahora ent_ejemplo (ahora ent_ejemplo - 1))
        (alert_manager proceso_tras_envio)
      = Some (ahora ent_ejemplo)
   /\ cfg_enabled (email (config ent_ejemplo)) = true
   /\ fst (generar_alertas str_un_decimal ent_ejemplo None proceso_tras_envio)
      = Ok [alerta_umbral_cpd1; alerta_spike_cpd1])
  /\ enviar_alertas_si_toca str_un_decimal
       (con_ahora ent_ejemplo (ahora ent_ejemplo - 1)) proceso_tras_envio
     = (Ok tt, proceso_tras_envio)
  /\ alert_manager (tick str_un_decimal ent_ejemplo proceso_tras_envio)
     = {| last_alert_sent := Some (ahora ent_ejemplo);
          ultimas_alertas := [alerta_umbral_cpd1; alerta_spike_cpd1] |}
  /\ llamadas_mailer (tick str_un_decimal ent_ejemplo proceso_tras_envio)
     = [llamada_a asunto_alerta
          (preparar_html [alerta_umbral_cpd1; alerta_spike_cpd1])
          "ops@cpd.example";
        llamada_a asunto_alerta
          (preparar_html [alerta_umbral_cpd1; alerta_spike_cpd1])
          "noc@cpd.example"].
Proof.
  split; [repeat split; reflexivity|].
  pose proof (proximo_envio_is_the_boundary str_un_decimal
                (con_ahora ent_ejemplo (ahora ent_ejemplo - 1))
                proceso_tras_envio []) as Hantes.
  pose proof (proximo_envio_is_the_boundary str_un_decimal
                ent_ejemplo proceso_tras_envio
                [alerta_umbral_cpd1; alerta_spike_cpd1]) as Hen.
  cbv zeta in Hantes, Hen.
  change (proximo_envio (con_ahora ent_ejemplo (ahora ent_ejemplo - 1))
            (alert_manager proceso_tras_envio))
    with (Some (ahora ent_ejemplo)) in Hantes.
  change (proximo_envio ent_ejemplo (alert_manager proceso_tras_envio))
    with (Some (ahora ent_ejemplo)) in Hen.
  assert (Hle : (ahora ent_ejemplo <= ahora ent_ejemplo)%Z) by apply Z.le_refl.
  assert (Hne : [alerta_umbral_cpd1; alerta_spike_cpd1] <> []) by discriminate.
  destruct (proj2 Hen Hle eq_refl eq_refl Hne) as (Ham & Hll).
  split; [exact (proj1 Hantes eq_refl)|]. split; [exact Ham | exact Hll].
Defined.

Lemma dispatch_without_recipients_witness :
  (cfg_enabled (email (config (con_config ent_ejemplo cfg_sin_destinatarios)))
   = true
   /\ toca (con_config ent_ejemplo cfg_sin_destinatarios) proceso_inicial
   /\ fst (generar_alertas str_un_decimal
             (con_config ent_ejemplo cfg_sin_destinatarios) None proceso_inicial)
      = Ok [alerta_umbral_cpd1; alerta_spike_cpd1]
   /\ cfg_destinatarios
        (email (config (con_config ent_ejemplo cfg_sin_destinatarios))) = [])
  /\ enviar_alertas_si_toca str_un_decimal
       (con_config ent_ejemplo cfg_sin_destinatarios) proceso_inicial
     = (Ok tt,
        {| alert_manager :=
             {| last_alert_sent := Some (timedelta_minutes 9);
                ultimas_alertas := [alerta_umbral_cpd1; alerta_spike_cpd1] |};
           llamadas_mailer := [];
           registro := [] |}).
Proof.
  assert (Htoca : toca (con_config ent_ejemplo cfg_sin_destinatarios)
                    proceso_inicial) by (left; reflexivity).
  assert (Hne : [alerta_umbral_cpd1; alerta_spike_cpd1] <> []) by discriminate.
  split; [repeat split; try reflexivity; exact Htoca|].
  exact (dispatch_without_recipients str_un_decimal
           (con_config ent_ejemplo cfg_sin_destinatarios) proceso_inicial
           [alerta_umbral_cpd1; alerta_spike_cpd1]
           eq_refl Htoca eq_refl Hne eq_refl).
Defined.

Lemma send_times_are_spaced_witness :
  last_alert_sent
    (alert_manager (tick str_un_decimal ent_ejemplo proceso_inicial))
  <> last_alert_sent (alert_manager proceso_inicial)
  /\ last_alert_sent
       (alert_manager (tick str_un_decimal ent_ejemplo proceso_inicial))
     = Some (ahora ent_ejemplo).
Proof.
  assert (Hne : last_alert_sent
                  (alert_manager (tick str_un_decimal ent_ejemplo proceso_inicial))
                <> last_alert_sent (alert_manager proceso_inicial)).
  { intros H. vm_compute in H. discriminate H. }
  split; [exact Hne|].
  destruct (send_times_are_spaced str_un_decimal ent_ejemplo proceso_inicial)
    as [H|[H _]]; [contradiction | exact H].
Defined.

Lemma mail_implies_recorded_batch_witness :
  llamadas_mailer (tick str_un_decimal ent_ejemplo proceso_inicial)
  <> llamadas_mailer proceso_inicial
  /\ last_alert_sent
       (alert_manager (tick str_un_decimal ent_ejemplo proceso_inicial))
     = Some (ahora ent_ejemplo).
Proof.
  assert (Hne : llamadas_mailer (tick str_un_decimal ent_ejemplo proceso_inicial)
                <> llamadas_mailer proceso_inicial).
  { intros H. vm_compute in H. discriminate H. }
  split; [exact Hne|].
  exact (proj1 (mail_implies_recorded_batch str_un_decimal ent_ejemplo
                  proceso_inicial Hne)).
Defined.

(** Comparisons of character codes. *)
Ltac ascii_concreto :=
  unfold es_ascii; cbn [list_ascii_of_string];
  repeat (constructor; [apply Nat.ltb_lt; reflexivity|]); constructor.

Lemma valid_email_shape_witness :
  (es_ascii "Ops.Team@CPD.example.COM"
   /\ ValidarSintaxisEmail "Ops.Team@CPD.example.COM" = true)
  /\ count_occ ascii_dec (list_ascii_of_string "Ops.Team@CPD.example.COM")
       arroba = 1%nat.
Proof.
  assert (Ha : es_ascii "Ops.Team@CPD.example.COM") by ascii_concreto.
  split; [split; [exact Ha | reflexivity]|].
  destruct (valid_email_shape "Ops.Team@CPD.example.COM" Ha eq_refl)
    as (local & dominio & tld & fin & _ & _ & _ & _ & _ & _ & _ & _ & H).
  exact H.
Defined.

Lemma trailing_newline_is_accepted_witness :
  (es_ascii "a@b.co"
   /\ ValidarSintaxisEmail "a@b.co" = true
   /\ ~ In salto_de_linea (list_ascii_of_string "a@b.co"))
  /\ ValidarSintaxisEmail ("a@b.co" ++ String salto_de_linea EmptyString) = true.
Proof.
  assert (Ha : es_ascii "a@b.co") by ascii_concreto.
  assert (Hn : ~ In salto_de_linea (list_ascii_of_string "a@b.co")).
  { cbn [list_ascii_of_string In].
    intros H. repeat (destruct H as [H|H]; [discriminate H|]). exact H. }
  split; [repeat split; try assumption; reflexivity|].
  exact (trailing_newline_is_accepted "a@b.co" Ha eq_refl Hn).
Defined.

Lemma valid_email_exactly_witness :
  (es_ascii "a@b.co" /\ ValidarSintaxisEmail "a@b.co" = true)
  /\ (direccion_bien_formada (lower (list_ascii_of_string "a@b.co"))
      \/ exists s',
           lower (list_ascii_of_string "a@b.co") = s' ++ [salto_de_linea]
           /\ direccion_bien_formada s').
Proof.
  assert (Ha : es_ascii "a@b.co") by ascii_concreto.
  split; [split; [exact Ha | reflexivity]|].
  exact (proj1 (valid_email_exactly "a@b.co" Ha) eq_refl).
Defined.

(** ** The endpoints on the sample inputs *)

Example websocket_two_frames_then_gone :
  websocket_endpoint dumps_ejemplo None "null"
    [vuelta_conectada; vuelta_conectada; vuelta_desconectada; vuelta_conectada]
  = ([WsAccept; WsSendText "CPD-1" true; WsSleep;
      WsSendText "CPD-1" true; WsSleep; WsClose], WsRetorna).
Proof. reflexivity. Qed.

Example validator_rejects_long_last_label :
  ValidarSintaxisEmail "ops@cpd.example" = false
  /\ ValidarSintaxisEmail "a+b@c.com" = false
  /\ ValidarSintaxisEmail "a..b@c.com" = false
  /\ ValidarSintaxisEmail "a@b" = false.
Proof. repeat split; reflexivity. Qed.

(** ** The mailer with an attachment *)

Example unreadable_attachment_raises_before_the_session :
  EnviarCorreoSSL ent_adjunto_ilegible cred_ejemplo "ops@cpd.example"
    "Informe" "<p>Informe diario</p>" "/var/informes/cpd.csv" true
    proceso_inicial
  = (Raise (ExcepcionNoSMTP "PermissionError"),
     {| alert_manager := alert_manager proceso_inicial;
        llamadas_mailer := [llamada_a "Informe" "<p>Informe diario</p>"
                              "ops@cpd.example"];
        registro := [] |}).
Proof. reflexivity. Qed.

Example attachment_is_named_by_basename :
  adjuntar ent_adjunto_legible "/var/informes/cpd.csv"
  = Ok (Some (("attachment; filename=" ++ comillas ++ "cpd.csv"
                 ++ comillas)%string, "31.0"))
  /\ adjuntar ent_adjunto_legible EmptyString = Ok None
  /\ adjuntar ent_ejemplo "/var/informes/cpd.csv" = Ok None
  /\ fst (EnviarCorreoSSL ent_adjunto_legible cred_ejemplo
            "ops@cpd.example" "Informe" "<p>Informe diario</p>"
            "/var/informes/cpd.csv" true proceso_inicial)
     = Ok (true, [("Mensaje",
                   ("Correo enviado a ops@cpd.example vía smtp.cpd.example"
                      ++ " con asunto " ++ comillas ++ "Informe"
                      ++ comillas)%string)]).
Proof. repeat split; reflexivity. Qed.
